(** * gosqlite: the prepared statement of [stmt.go]

    A shallow embedding of [Stmt] (bind, step, scan, finalize) and of
    [Conn.Prepare].  The SQLite C library is an external collaborator: each
    [C.sqlite3_xxx] call of the source is recorded in a trace and answered by
    an engine, a record of functions of the calls made so far. *)

From Stdlib Require Import ZArith String Ascii List Bool Lia PrimFloat.
From stdpp Require Import base option gmap strings.

Local Open Scope Z_scope.

(** ** Machine integers *)

(** A [w]-bit two's complement value and a [w]-bit unsigned value. *)
Definition sint (w : Z) (z : Z) : Z := (z + 2 ^ (w - 1)) mod 2 ^ w - 2 ^ (w - 1).
Definition uint (w : Z) (z : Z) : Z := z mod 2 ^ w.

(** Go's [int] has the width of the platform; the usual 64-bit targets
    (amd64, arm64) are modelled.  C's [int] has 32 bits on them. *)
Definition intSize : Z := 64.
Definition C_int (z : Z) : Z := sint 32 z.
Definition C_sqlite3_int64 (z : Z) : Z := sint 64 z.
Definition int (z : Z) : Z := sint intSize z.
Definition int64 (z : Z) : Z := sint 64 z.
Definition byte (z : Z) : Z := uint 8 z.

Definition MaxInt64 : Z := 2 ^ 63 - 1.

Definition in_int64 (z : Z) : Prop := - 2 ^ 63 <= z <= MaxInt64.

(** ** Constants of sqlite3.h *)

Definition SQLITE_OK : Z := 0.
Definition SQLITE_MISUSE : Z := 21.
Definition SQLITE_ROW : Z := 100.
Definition SQLITE_DONE : Z := 101.

Definition SQLITE_INTEGER : Z := 1.
Definition SQLITE_FLOAT : Z := 2.
Definition SQLITE3_TEXT : Z := 3.
Definition SQLITE_BLOB : Z := 4.
Definition SQLITE_NULL : Z := 5.

(** [type Errno int] with [Row] and [Done]. *)
Definition Errno (rv : Z) : Z := rv.
Definition Row : Z := Errno SQLITE_ROW.
Definition Done : Z := Errno SQLITE_DONE.

(** [type Type int]: the SQLite fundamental datatypes. *)
Definition Type_ := Z.
Definition Integer : Type_ := SQLITE_INTEGER.
Definition Float : Type_ := SQLITE_FLOAT.
Definition Blob : Type_ := SQLITE_BLOB.
Definition Null : Type_ := SQLITE_NULL.
Definition Text : Type_ := SQLITE3_TEXT.

(** [typeText], a [map[Type]string]: a missing key reads as the empty string. *)
Definition typeText (t : Type_) : string :=
  if t =? Integer then "Integer"
  else if t =? Float then "Float"
  else if t =? Blob then "Blob"
  else if t =? Null then "Null"
  else if t =? Text then "Text"
  else "".

(** ** The native interface *)

(** A C pointer to an object of the engine; [None] is NULL. *)
Definition ptr := option N.

Definition bytes := list Byte.byte.

(** The functions of the SQLite C API that stmt.go reaches, with their
    arguments.  [my_bind_text] and [my_bind_blob] are [sqlite3_bind_text] and
    [sqlite3_bind_blob] with [SQLITE_TRANSIENT]; [my_log] is [sqlite3_log]. *)
Inductive NativeCall :=
| sqlite3_prepare_v2 (db : ptr) (zSql : string) (nByte : Z)
| sqlite3_bind_null (stmt : ptr) (i : Z)
| my_bind_text (stmt : ptr) (i : Z) (p : string) (np : Z)
| sqlite3_bind_int (stmt : ptr) (i : Z) (v : Z)
| sqlite3_bind_int64 (stmt : ptr) (i : Z) (v : Z)
| sqlite3_bind_double (stmt : ptr) (i : Z) (v : float)
| my_bind_blob (stmt : ptr) (i : Z) (p : option bytes) (np : Z)
| sqlite3_bind_zeroblob (stmt : ptr) (i : Z) (n : Z)
| sqlite3_bind_parameter_count (stmt : ptr)
| sqlite3_bind_parameter_index (stmt : ptr) (name : string)
| sqlite3_bind_parameter_name (stmt : ptr) (i : Z)
| sqlite3_step (stmt : ptr)
| sqlite3_reset (stmt : ptr)
| sqlite3_clear_bindings (stmt : ptr)
| sqlite3_finalize (stmt : ptr)
| sqlite3_column_count (stmt : ptr)
| sqlite3_column_name (stmt : ptr) (i : Z)
| sqlite3_column_type (stmt : ptr) (i : Z)
| sqlite3_column_text (stmt : ptr) (i : Z)
| sqlite3_column_blob (stmt : ptr) (i : Z)
| sqlite3_column_bytes (stmt : ptr) (i : Z)
| sqlite3_column_int (stmt : ptr) (i : Z)
| sqlite3_column_int64 (stmt : ptr) (i : Z)
| sqlite3_column_double (stmt : ptr) (i : Z)
| sqlite3_sql (stmt : ptr)
| sqlite3_errmsg (db : ptr)
| sqlite3_changes (db : ptr)
| sqlite3_last_insert_rowid (db : ptr)
| my_log (err : Z) (msg : string).

(** What the engine answers to a call, given the calls made before it (most
    recent first).  One function per C result type. *)
Record Engine := {
  ret_int : list NativeCall -> NativeCall -> Z;
  ret_text : list NativeCall -> NativeCall -> option string;
  ret_blob : list NativeCall -> NativeCall -> option bytes;
  ret_double : list NativeCall -> NativeCall -> float;
  ret_stmt : list NativeCall -> NativeCall -> ptr;
}.

(** The storage value the engine keeps for a parameter after a bind call
    (the contract of sqlite3_bind_xxx). *)
Inductive StorageValue :=
| SNull
| SInteger (v : Z)
| SFloat (v : float)
| SText (v : string) (n : Z)
| SBlob (v : bytes)
| SZeroBlob (n : Z).

Definition bound_value (c : NativeCall) : option StorageValue :=
  match c with
  | sqlite3_bind_null _ _ => Some SNull
  | my_bind_text _ _ p np => Some (SText p np)
  | sqlite3_bind_int _ _ v => Some (SInteger v)
  | sqlite3_bind_int64 _ _ v => Some (SInteger v)
  | sqlite3_bind_double _ _ v => Some (SFloat v)
  | my_bind_blob _ _ p _ => Some (SBlob (default [] p))
  | sqlite3_bind_zeroblob _ _ n => Some (SZeroBlob n)
  | _ => None
  end.

(** A call that binds a parameter, steps the statement or reads a column
    value, as opposed to a query of the statement's shape. *)
Definition is_bind (c : NativeCall) : bool :=
  match bound_value c with Some _ => true | None => false end.

Definition is_step (c : NativeCall) : bool :=
  match c with sqlite3_step _ => true | _ => false end.

Definition is_column_read (c : NativeCall) : bool :=
  match c with
  | sqlite3_column_type _ _ | sqlite3_column_text _ _ | sqlite3_column_blob _ _
  | sqlite3_column_bytes _ _ | sqlite3_column_int _ _ | sqlite3_column_int64 _ _
  | sqlite3_column_double _ _ => true
  | _ => false
  end.

(** ** Time *)

(** [time.Time] as an instant (seconds and nanoseconds since the Unix epoch)
    with its location. *)
Inductive Location := UTC | Local | FixedZone (offset : Z).

Record Time := { unixSec : Z; nanos : Z; loc : Location }.

(** The zero [time.Time]: January 1, year 1, 00:00:00 UTC. *)
Definition zeroTime : Time := {| unixSec := -62135596800; nanos := 0; loc := UTC |}.

Definition IsZero (t : Time) : bool :=
  (unixSec t =? -62135596800) && (nanos t =? 0).

Definition Unix (t : Time) : Z := unixSec t.

(** [time.Unix(sec, nsec)]: local time. *)
Definition time_Unix (sec nsec : Z) : Time :=
  {| unixSec := sec; nanos := nsec; loc := Local |}.

Definition isLeap (year : Z) : bool :=
  (year mod 4 =? 0) && (negb (year mod 100 =? 0) || (year mod 400 =? 0)).

Definition daysIn (month year : Z) : Z :=
  if month =? 2 then (if isLeap year then 29 else 28)
  else if (month =? 4) || (month =? 6) || (month =? 9) || (month =? 11) then 30
  else 31.

(** Days from 1970-01-01 to the given civil date (proleptic Gregorian). *)
Definition daysFromCivil (year month day : Z) : Z :=
  let y := if month <=? 2 then year - 1 else year in
  let era := y / 400 in
  let yoe := y - era * 400 in
  let mp := (month + 9) mod 12 in
  let doy := (153 * mp + 2) / 5 + day - 1 in
  let doe := yoe * 365 + yoe / 4 - yoe / 100 + doy in
  era * 146097 + doe - 719468.

(** [time.Date] on fields already in range, in UTC. *)
Definition time_Date (year month day hour min sec nsec : Z) : Time :=
  {| unixSec := daysFromCivil year month day * 86400 + hour * 3600 + min * 60 + sec;
     nanos := nsec; loc := UTC |}.

(** The time of day of an instant read in UTC: seconds since midnight. *)
Definition secondsOfDay (t : Time) : Z := unixSec t mod 86400.

(** ** [time.Parse]

    [ScanTime] hands the chosen layout to [time.Parse] of Go's standard
    library.  The parser below follows [time.Parse] on the reference elements
    that occur in the layouts of [ScanTime] (year, month, day, hour, minute,
    second, fractional seconds, ISO 8601 zone with a colon); the other
    reference elements of Go layouts are read as literal text. *)

Inductive std :=
| stdLongYear | stdZeroMonth | stdZeroDay | stdHour | stdZeroMinute | stdZeroSecond
| stdFracSecond0 (digits : nat) | stdFracSecond9 (digits : nat)
| stdISO8601ColonTZ.

Definition drop_str (n : nat) (s : string) : string :=
  String.substring n (String.length s - n) s.
Definition take_str (n : nat) (s : string) : string := String.substring 0 n s.

Definition isDigitChar (c : ascii) : bool :=
  let n := N_of_ascii c in ((48 <=? n) && (n <=? 57))%N.

(** [isDigit(s, i)]. *)
Definition isDigit (s : string) (i : nat) : bool :=
  match String.get i s with Some c => isDigitChar c | None => false end.

Definition commaOrPeriod (c : ascii) : bool :=
  Ascii.eqb c "." || Ascii.eqb c ",".

Fixpoint run_of (ch : ascii) (s : string) : nat :=
  match s with
  | String c rest => if Ascii.eqb c ch then S (run_of ch rest) else 0%nat
  | EmptyString => 0%nat
  end.

(** [nextStdChunk]: the text before the first reference element, the element
    and the rest of the layout. *)
Fixpoint nextStdChunk (layout : string) : string * option std * string :=
  match layout with
  | EmptyString => (EmptyString, None, EmptyString)
  | String c rest =>
      let further :=
        let '(p, s, suffix) := nextStdChunk rest in (String c p, s, suffix) in
      let found s n := (EmptyString, Some s, drop_str n layout) in
      if String.prefix "2006" layout then found stdLongYear 4%nat
      else if String.prefix "01" layout then found stdZeroMonth 2%nat
      else if String.prefix "02" layout then found stdZeroDay 2%nat
      else if String.prefix "04" layout then found stdZeroMinute 2%nat
      else if String.prefix "05" layout then found stdZeroSecond 2%nat
      else if String.prefix "15" layout then found stdHour 2%nat
      else if String.prefix "Z07:00" layout then found stdISO8601ColonTZ 6%nat
      else if commaOrPeriod c then
        match rest with
        | String ch _ =>
            if Ascii.eqb ch "0" || Ascii.eqb ch "9" then
              let j := run_of ch rest in
              if isDigit rest j then further
              else found (if Ascii.eqb ch "0" then stdFracSecond0 j else stdFracSecond9 j)
                         (S j)
            else further
        | EmptyString => further
        end
      else further
  end.

Fixpoint cutspace (s : string) : string :=
  match s with
  | String c rest => if Ascii.eqb c " " then cutspace rest else s
  | EmptyString => s
  end.

(** [skip(value, prefix)]: the literal text of the layout has to be there; a
    space of the layout stands for any run of spaces. *)
Fixpoint skip (fuel : nat) (value prefix : string) : option string :=
  match fuel with
  | O => None
  | S fuel' =>
      match prefix with
      | EmptyString => Some value
      | String p prefix' =>
          if Ascii.eqb p " " then
            match value with
            | String v _ =>
                if Ascii.eqb v " " then skip fuel' (cutspace value) (cutspace prefix)
                else None
            | EmptyString => skip fuel' (cutspace value) (cutspace prefix)
            end
          else
            match value with
            | String v value' => if Ascii.eqb v p then skip fuel' value' prefix' else None
            | EmptyString => None
            end
      end
  end.

Definition digitVal (c : ascii) : Z := Z.of_N (N_of_ascii c) - 48.

(** [getnum(s, fixed)]: one or two digits, two when [fixed]. *)
Definition getnum (s : string) (fixed : bool) : option (Z * string) :=
  match s with
  | String a s1 =>
      if isDigitChar a then
        match s1 with
        | String b s2 =>
            if isDigitChar b then Some (digitVal a * 10 + digitVal b, s2)
            else if fixed then None else Some (digitVal a, s1)
        | EmptyString => if fixed then None else Some (digitVal a, s1)
        end
      else None
  | EmptyString => None
  end.

Fixpoint leadingInt (s : string) (acc : Z) : Z * string :=
  match s with
  | String c rest => if isDigitChar c then leadingInt rest (acc * 10 + digitVal c) else (acc, s)
  | EmptyString => (acc, s)
  end.

(** [atoi]: an optional sign and digits to the end (numbers here have at most
    nine digits, so nothing overflows). *)
Definition atoi (s : string) : option Z :=
  let '(neg, s') :=
    match s with
    | String c rest =>
        if Ascii.eqb c "-" then (true, rest)
        else if Ascii.eqb c "+" then (false, rest) else (false, s)
    | EmptyString => (false, s)
    end in
  match leadingInt s' 0 with
  | (q, EmptyString) => Some (if neg then - q else q)
  | _ => None
  end.

(** [parseNanoseconds(value, nbytes)]. *)
Definition parseNanoseconds (value : string) (nbytes : nat) : option Z :=
  match value with
  | String c _ =>
      if commaOrPeriod c then
        let nbytes := Nat.min nbytes 10 in
        match atoi (String.substring 1 (nbytes - 1) value) with
        | Some ns => if ns <? 0 then None else Some (ns * 10 ^ Z.of_nat (10 - nbytes))
        | None => None
        end
      else None
  | EmptyString => None
  end.

(** The variables of [Parse]: the fields read so far.  [zoneOffset = -1]
    means that no offset was read, [zoneUTC] that a [Z] was. *)
Record fields := {
  f_year : Z; f_month : Z; f_day : Z; f_hour : Z; f_min : Z; f_sec : Z;
  f_nsec : Z; zoneUTC : bool; zoneOffset : Z }.

Definition fields0 : fields :=
  {| f_year := 0; f_month := -1; f_day := -1; f_hour := 0; f_min := 0; f_sec := 0;
     f_nsec := 0; zoneUTC := false; zoneOffset := -1 |}.

Definition ranged (lo hi v : Z) : bool := (lo <=? v) && (v <? hi).

Definition digit_run (s : string) : nat :=
  String.length s - String.length (snd (leadingInt s 0)).

(** One reference element: the body of the [switch] of [Parse].  [layout] is
    what follows the element in the layout. *)
Definition parse_std (s : std) (layout value : string) (f : fields)
  : option (fields * string) :=
  let upd y mo d h mi se ns zu zo :=
    {| f_year := y; f_month := mo; f_day := d; f_hour := h; f_min := mi; f_sec := se;
       f_nsec := ns; zoneUTC := zu; zoneOffset := zo |} in
  match f with
  | {| f_year := y; f_month := mo; f_day := d; f_hour := h; f_min := mi; f_sec := se;
       f_nsec := ns; zoneUTC := zu; zoneOffset := zo |} =>
  match s with
  | stdLongYear =>
      if (String.length value <? 4)%nat || negb (isDigit value 0) then None
      else match atoi (take_str 4 value) with
           | Some y' => Some (upd y' mo d h mi se ns zu zo, drop_str 4 value)
           | None => None
           end
  | stdZeroMonth =>
      match getnum value true with
      | Some (m, v) => if ranged 1 13 m then Some (upd y m d h mi se ns zu zo, v) else None
      | None => None
      end
  | stdZeroDay =>
      match getnum value true with
      | Some (d', v) => Some (upd y mo d' h mi se ns zu zo, v)
      | None => None
      end
  | stdHour =>
      match getnum value false with
      | Some (h', v) => if ranged 0 24 h' then Some (upd y mo d h' mi se ns zu zo, v) else None
      | None => None
      end
  | stdZeroMinute =>
      match getnum value true with
      | Some (m, v) => if ranged 0 60 m then Some (upd y mo d h m se ns zu zo, v) else None
      | None => None
      end
  | stdZeroSecond =>
      match getnum value true with
      | Some (se', v) =>
          if ranged 0 60 se' then
            let plain := Some (upd y mo d h mi se' ns zu zo, v) in
            match v with
            | String c v1 =>
                if commaOrPeriod c && isDigit v 1 then
                  match nextStdChunk layout with
                  | (_, Some (stdFracSecond0 _), _) | (_, Some (stdFracSecond9 _), _) => plain
                  | _ =>
                      let n := S (digit_run v1) in
                      match parseNanoseconds v n with
                      | Some ns' => Some (upd y mo d h mi se' ns' zu zo, drop_str n v)
                      | None => None
                      end
                  end
                else plain
            | EmptyString => plain
            end
          else None
      | None => None
      end
  | stdFracSecond0 digits =>
      let ndigit := S digits in
      if (String.length value <? ndigit)%nat then None
      else match parseNanoseconds value ndigit with
           | Some ns' => Some (upd y mo d h mi se ns' zu zo, drop_str ndigit value)
           | None => None
           end
  | stdFracSecond9 _ =>
      match value with
      | String c v1 =>
          if commaOrPeriod c && isDigit value 1 then
            let n := S (digit_run v1) in
            match parseNanoseconds value n with
            | Some ns' => Some (upd y mo d h mi se ns' zu zo, drop_str n value)
            | None => None
            end
          else Some (f, value)
      | EmptyString => Some (f, value)
      end
  | stdISO8601ColonTZ =>
      if String.prefix "Z" value then Some (upd y mo d h mi se ns true zo, drop_str 1 value)
      else if (String.length value <? 6)%nat then None
      else if negb (String.prefix ":" (drop_str 3 value)) then None
      else
        match getnum (String.substring 1 2 value) true,
              getnum (String.substring 4 2 value) true with
        | Some (hr, _), Some (mm, _) =>
            if (24 <? hr) || (60 <? mm) then None
            else
              let off := (hr * 60 + mm) * 60 in
              if String.prefix "+" value
              then Some (upd y mo d h mi se ns zu off, drop_str 6 value)
              else if String.prefix "-" value
              then Some (upd y mo d h mi se ns zu (- off), drop_str 6 value)
              else None
        | _, _ => None
        end
  end
  end.

(** The loop of [Parse] over the chunks of the layout. *)
Fixpoint parse_loop (fuel : nat) (layout value : string) (f : fields) : option fields :=
  match fuel with
  | O => None
  | S fuel' =>
      match nextStdChunk layout with
      | (prefix, s, suffix) =>
          match skip (S (String.length prefix)) value prefix with
          | None => None
          | Some value' =>
              match s with
              | None => if (String.length value' =? 0)%nat then Some f else None
              | Some s' =>
                  match parse_std s' suffix value' f with
                  | Some (f', value'') => parse_loop fuel' suffix value'' f'
                  | None => None
                  end
              end
          end
      end
  end.

(** A failure of [time.Parse], with the layout and the value it was given. *)
Record ParseError := { pe_layout : string; pe_value : string }.

(** [time.Parse(layout, value)]: the zero time and an error when the value
    does not follow the layout.  Without a zone the time is in UTC. *)
Definition time_Parse (layout value : string) : Time * option ParseError :=
  let bad := (zeroTime, Some {| pe_layout := layout; pe_value := value |}) in
  match parse_loop (S (String.length layout)) layout value fields0 with
  | None => bad
  | Some f =>
      let month := if f_month f <? 0 then 1 else f_month f in
      let day := if f_day f <? 0 then 1 else f_day f in
      if (day <? 1) || (daysIn month (f_year f) <? day) then bad
      else
        let t := time_Date (f_year f) month day (f_hour f) (f_min f) (f_sec f) (f_nsec f) in
        if zoneUTC f then (t, None)
        else if zoneOffset f =? -1 then (t, None)
        else ({| unixSec := unixSec t - zoneOffset f; nanos := nanos t;
                 loc := FixedZone (zoneOffset f) |}, None)
  end.

(** ** Data model *)

(** Addresses of [Conn] objects and of the caller's variables. *)
Definition connptr := nat.
Definition addr := nat.

(** [type Stmt struct].  [cols] and [params] are nil ([None]) until the first
    lookup by name. *)
Record Stmt := {
  c : option connptr;
  stmt : ptr;
  sql : string;
  tail : string;
  columnCount : Z;
  cols : option (gmap string Z);
  bindParameterCount : Z;
  params : option (gmap string Z);
  CheckTypeMismatch : bool;
  Cacheable : bool }.

Definition set_stmt (h : ptr) (s : Stmt) : Stmt :=
  {| c := c s; stmt := h; sql := sql s; tail := tail s; columnCount := columnCount s;
     cols := cols s; bindParameterCount := bindParameterCount s; params := params s;
     CheckTypeMismatch := CheckTypeMismatch s; Cacheable := Cacheable s |}.
Definition set_sql (v : string) (s : Stmt) : Stmt :=
  {| c := c s; stmt := stmt s; sql := v; tail := tail s; columnCount := columnCount s;
     cols := cols s; bindParameterCount := bindParameterCount s; params := params s;
     CheckTypeMismatch := CheckTypeMismatch s; Cacheable := Cacheable s |}.
Definition set_columnCount (v : Z) (s : Stmt) : Stmt :=
  {| c := c s; stmt := stmt s; sql := sql s; tail := tail s; columnCount := v;
     cols := cols s; bindParameterCount := bindParameterCount s; params := params s;
     CheckTypeMismatch := CheckTypeMismatch s; Cacheable := Cacheable s |}.
Definition set_cols (v : option (gmap string Z)) (s : Stmt) : Stmt :=
  {| c := c s; stmt := stmt s; sql := sql s; tail := tail s; columnCount := columnCount s;
     cols := v; bindParameterCount := bindParameterCount s; params := params s;
     CheckTypeMismatch := CheckTypeMismatch s; Cacheable := Cacheable s |}.
Definition set_bindParameterCount (v : Z) (s : Stmt) : Stmt :=
  {| c := c s; stmt := stmt s; sql := sql s; tail := tail s; columnCount := columnCount s;
     cols := cols s; bindParameterCount := v; params := params s;
     CheckTypeMismatch := CheckTypeMismatch s; Cacheable := Cacheable s |}.
Definition set_params (v : option (gmap string Z)) (s : Stmt) : Stmt :=
  {| c := c s; stmt := stmt s; sql := sql s; tail := tail s; columnCount := columnCount s;
     cols := cols s; bindParameterCount := bindParameterCount s; params := v;
     CheckTypeMismatch := CheckTypeMismatch s; Cacheable := Cacheable s |}.

(** *** Host values *)

(** The view that [reflect.ValueOf] gives of a value that no case of the type
    switches names: its kind with the value read by [v.String()], [v.Int()],
    [v.Uint()], [v.Bool()] or [v.Float()]. *)
Inductive Reflected :=
| r_String (v : string)
| r_Int (v : Z)
| r_Uint (v : Z)
| r_Bool (v : bool)
| r_Float (v : float)
| r_unsupported.

(** A value given to [BindByIndex], by the case of its type switch.  A
    [driver.Valuer] is given by what its [Value()] returns. *)
Inductive HostValue :=
| V_nil
| V_string (value : string)
| V_int (value : Z)
| V_int64 (value : Z)
| V_byte (value : Z)
| V_bool (value : bool)
| V_float32 (value : float)
| V_float64 (value : float)
| V_bytes (value : bytes)
| V_Time (value : Time)
| V_ZeroBlobLength (value : Z)
| V_Valuer (v : HostValue)
| V_Valuer_err (err : string)
| V_other (T : string) (r : Reflected).

(** The integer types without a case of their own reach [BindReflect]. *)
Definition V_int8 (v : Z) : HostValue := V_other "int8" (r_Int v).
Definition V_int16 (v : Z) : HostValue := V_other "int16" (r_Int v).
Definition V_int32 (v : Z) : HostValue := V_other "int32" (r_Int v).
Definition V_uint (v : Z) : HostValue := V_other "uint" (r_Uint v).
Definition V_uint16 (v : Z) : HostValue := V_other "uint16" (r_Uint v).
Definition V_uint32 (v : Z) : HostValue := V_other "uint32" (r_Uint v).
Definition V_uint64 (v : Z) : HostValue := V_other "uint64" (r_Uint v).

(** The value that [ScanValue] returns: [interface{}]. *)
Inductive Value :=
| nil_value
| string_value (v : string)
| int64_value (v : Z)
| float64_value (v : float)
| bytes_value (v : bytes).

(** The kind of the variable behind a pointer, for [ScanReflect]. *)
Inductive Kind :=
| K_String | K_Int (bits : Z) | K_Uint (bits : Z) | K_Bool | K_Float (bits : Z) | K_other.

(** A variable of the caller. *)
Inductive Cell :=
| cell_string (v : string)
| cell_int (v : Z)
| cell_int64 (v : Z)
| cell_byte (v : Z)
| cell_bool (v : bool)
| cell_float64 (v : float)
| cell_bytes (v : bytes)
| cell_Time (v : Time)
| cell_interface (v : Value)
| cell_ptr (p : option addr)
| cell_kind (k : Kind) (v : Z)
| cell_float32 (v : float).

(** What [reflect.ValueOf] tells [ScanReflect] of a destination that no case
    of the type switch of [ScanByIndex] names: not a pointer, a nil pointer,
    or a pointer to a variable of some kind. *)
Inductive Reflection :=
| v_notptr (T : string)
| v_nilptr (T : string)
| v_ptr (T : string) (k : Kind) (value : addr).

(** A destination given to [ScanByIndex], by the case of its type switch;
    [value] is the address the pointer holds. *)
Inductive Dest :=
| d_nil
| p_string (value : addr) | pp_string (value : addr)
| p_int (value : addr) | pp_int (value : addr)
| p_int64 (value : addr) | pp_int64 (value : addr)
| p_byte (value : addr) | pp_byte (value : addr)
| p_bool (value : addr) | pp_bool (value : addr)
| p_float64 (value : addr) | pp_float64 (value : addr)
| p_bytes (value : addr) | pp_bytes (value : addr)
| p_Time (value : addr)
| sql_Scanner (Scan : Value -> option string)
| p_interface (value : addr)
| d_other (v : Reflection).

(** *** Errors *)

(** An argument of [fmt.Sprintf]; a bound value or a destination is the
    operand of [%T]. *)
Inductive FmtArg :=
| a_int (v : Z)
| a_string (v : string)
| a_Type (t : Type_)
| a_value (v : HostValue)
| a_dest (d : Dest).

(** A message: text of the engine, or a format with its arguments
    ([fmt.Sprintf] is not interpreted). *)
Inductive Msg :=
| EngineText (text : string)
| Sprintf (format : string) (a : list FmtArg).

Record ConnError := {
  ce_c : option connptr; code : Z; msg : Msg; details : string }.

Inductive error :=
| errors_New (text : string)
| ConnErr (e : ConnError)
| StmtError (e : ConnError) (s : Stmt)
| ParseErr (e : ParseError)
| foreign_error (text : string).

(** [C.GoString]: a NULL pointer reads as the empty string. *)
Definition C_GoString (p : option string) : string := default EmptyString p.

(** [C.GoBytes(p, n)]: the first [n] bytes at [p]. *)
Definition C_GoBytes (p : option bytes) (n : Z) : bytes :=
  take (Z.to_nat n) (default [] p).

(** *** Connection, cache and world *)

(** Modelled from the spec: the statement cache of a connection (its file is
    not among the sources): a bounded collection of idle statements keyed by
    exact SQL text, most recently used first. *)
Record cache := { l : list (string * Stmt); maxSize : Z }.

(** [type Conn struct], as far as stmt.go reads it: [db] is nil once the
    connection is closed. *)
Record Conn := { db : ptr; stmtCache : cache }.

(** The state outside the statement: the native calls made so far (most recent
    first), the connections, the caller's variables and the two package
    variables. *)
Record World := {
  trace : list NativeCall;
  conns : connptr -> Conn;
  heap : gmap addr Cell;
  NullIfEmptyString : bool;
  NullIfZeroTime : bool }.

Definition set_trace (t : list NativeCall) (w : World) : World :=
  {| trace := t; conns := conns w; heap := heap w;
     NullIfEmptyString := NullIfEmptyString w; NullIfZeroTime := NullIfZeroTime w |}.
Definition set_conns (f : connptr -> Conn) (w : World) : World :=
  {| trace := trace w; conns := f; heap := heap w;
     NullIfEmptyString := NullIfEmptyString w; NullIfZeroTime := NullIfZeroTime w |}.
Definition set_heap (h : gmap addr Cell) (w : World) : World :=
  {| trace := trace w; conns := conns w; heap := h;
     NullIfEmptyString := NullIfEmptyString w; NullIfZeroTime := NullIfZeroTime w |}.

Definition set_conn (p : connptr) (cn : Conn) (w : World) : World :=
  set_conns (fun q => if Nat.eqb q p then cn else conns w q) w.

(** ** The monad of the methods of [*Stmt]

    A method reads and writes its receiver and the world, and returns or
    panics. *)
Inductive Res (A : Type) :=
| Ret (a : A) (s : Stmt) (w : World)
| Panic (reason : string).
Arguments Ret {A} a s w.
Arguments Panic {A} reason.

Definition M (A : Type) : Type := Stmt -> World -> Res A.

Definition ret {A} (a : A) : M A := fun s w => Ret a s w.
Definition bind {A B} (m : M A) (k : A -> M B) : M B :=
  fun s w => match m s w with
             | Ret a s' w' => k a s' w'
             | Panic r => Panic r
             end.
Definition panic {A} (reason : string) : M A := fun _ _ => Panic reason.

Notation "x <- m ;; k" := (bind m (fun x => k))
  (at level 100, m at next level, right associativity).
Notation "m ;;; k" := (bind m (fun _ => k))
  (at level 100, right associativity).

Definition this : M Stmt := fun s w => Ret s s w.
Definition update (f : Stmt -> Stmt) : M unit := fun s w => Ret tt (f s) w.
Definition world : M World := fun s w => Ret w s w.
Definition store (p : addr) (v : Cell) : M unit :=
  fun s w => Ret tt s (set_heap (<[p := v]> (heap w)) w).

(** [**value = v]: a store through the pointer that the variable at [pp]
    holds. *)
Definition store_through (pp : addr) (v : Cell) : M unit :=
  fun s w => match heap w !! pp with
             | Some (cell_ptr (Some p)) => Ret tt s (set_heap (<[p := v]> (heap w)) w)
             | _ => Panic "invalid memory address or nil pointer dereference"
             end.

(** The calls that a run has added to the trace, oldest first. *)
Definition calls_since (w w' : World) : list NativeCall :=
  rev (take (length (trace w') - length (trace w)) (trace w')).

(** ** Notions of the specification *)

(** The error kind [TypeMismatch]: the source tells its errors apart by their
    message only. *)
Definition isTypeMismatch (e : error) : bool :=
  match e with
  | StmtError {| msg := Sprintf format _ |} _ =>
      String.eqb format "type mismatch, source %s vs target %s"
  | _ => false
  end.

(** The classes of destinations in the type-mismatch policy. *)
Inductive DestClass := IntegerFamily | FloatDest | OtherDest.

Definition dest_class (d : Dest) : DestClass :=
  match d with
  | p_int _ | pp_int _ | p_int64 _ | pp_int64 _ | p_byte _ | pp_byte _
  | p_bool _ | pp_bool _ => IntegerFamily
  | d_other (v_ptr _ (K_Int _) _) | d_other (v_ptr _ (K_Uint _) _)
  | d_other (v_ptr _ K_Bool _) => IntegerFamily
  | p_float64 _ | pp_float64 _ | d_other (v_ptr _ (K_Float _) _) => FloatDest
  | _ => OtherDest
  end.

(** The lossy (source storage class, destination) pairs as the specification
    lists them. *)
Definition spec_lossy (source : Type_) (cls : DestClass) : bool :=
  match cls with
  | IntegerFamily => (source =? Float) || (source =? Text) || (source =? Blob)
  | FloatDest => (source =? Text) || (source =? Blob)
  | OtherDest => false
  end.

(** A run that returns a [TypeMismatch] error. *)
Definition returns_TypeMismatch {A} (r : Res (A * option error)) : Prop :=
  match r with
  | Ret (_, Some e) _ _ => isTypeMismatch e = true
  | _ => False
  end.

(** A function of [*Conn]: it has no receiver statement. *)
Inductive Out (A : Type) :=
| Returned (a : A) (w : World)
| Panicked (reason : string).
Arguments Returned {A} a w.
Arguments Panicked {A} reason.

(** ** Engines, connections and statements for concrete runs *)

(** An engine that answers by the call alone: [ints] gives the integer
    results and [texts] the text results; there is no blob, and every
    compiled statement has handle 7. *)
Definition fixed_engine (ints : NativeCall -> Z) (texts : NativeCall -> option string)
  : Engine :=
  {| ret_int := fun _ call => ints call;
     ret_text := fun _ call => texts call;
     ret_blob := fun _ _ => None;
     ret_double := fun _ _ => 0%float;
     ret_stmt := fun _ _ => Some 7%N |}.

(** Column 0 of the current row holds the text [abc]: its type is Text, and
    the integer coercion of its value is 0.  A step reports completion and no
    row was changed; finalization succeeds. *)
Definition text_row : Engine :=
  fixed_engine
    (fun call => match call with
                 | sqlite3_column_type _ _ => SQLITE3_TEXT
                 | sqlite3_step _ => SQLITE_DONE
                 | _ => 0
                 end)
    (fun call => match call with
                 | sqlite3_column_text _ _ => Some "abc"%string
                 | _ => None
                 end).


(** Every step fails with SQLITE_MISUSE, as SQLite answers for a nil
    handle. *)
Definition misuse : Engine :=
  fixed_engine
    (fun call => match call with
                 | sqlite3_step _ => SQLITE_MISUSE
                 | _ => 0
                 end)
    (fun call => match call with
                 | sqlite3_errmsg _ => Some "bad parameter or other API misuse"%string
                 | _ => None
                 end).

(** A step reports a row. *)
Definition one_row : Engine :=
  fixed_engine
    (fun call => match call with
                 | sqlite3_step _ => SQLITE_ROW
                 | _ => 0
                 end)
    (fun _ => None).

(** The names of two columns, [id] and [name]. *)
Definition id_or_name (i : Z) : string := if i =? 0 then "id"%string else "name"%string.

(** A statement with two Integer columns, [id] and [name], holding 300, and
    two parameters of which [:id] is the first; every step reports a row and
    every bind is accepted. *)
Definition two_columns : Engine :=
  fixed_engine
    (fun call => match call with
                 | sqlite3_column_count _ => 2
                 | sqlite3_column_type _ _ => SQLITE_INTEGER
                 | sqlite3_column_int64 _ _ => 300
                 | sqlite3_column_int _ _ => 300
                 | sqlite3_bind_parameter_count _ => 2
                 | sqlite3_bind_parameter_index _ name =>
                     if String.eqb name ":id" then 1 else 0
                 | sqlite3_step _ => SQLITE_ROW
                 | _ => 0
                 end)
    (fun call => match call with
                 | sqlite3_column_name _ i => Some (id_or_name i)
                 | _ => None
                 end).

Definition JulianDay_unused : float -> Time := fun _ => zeroTime.

(** A connection: open with handle 1 and an empty cache, or closed. *)
Definition open_conn : Conn :=
  {| db := Some 1%N; stmtCache := {| l := []; maxSize := 10 |} |}.

(** A world with no call made yet. *)
Definition world_of (cn : Conn) (h : gmap addr Cell) : World :=
  {| trace := []; conns := fun _ => cn; heap := h;
     NullIfEmptyString := true; NullIfZeroTime := true |}.

(** A compiled statement on connection 0, with one parameter and one column,
    their counts cached. *)
Definition a_stmt (cacheable : bool) : Stmt :=
  {| c := Some 0%nat; stmt := Some 7%N; sql := "SELECT ?"; tail := EmptyString;
     columnCount := 1; cols := Some ∅; bindParameterCount := 1; params := Some ∅;
     CheckTypeMismatch := true; Cacheable := cacheable |}.

(** A statement as [Conn.prepare] makes it: nothing is cached. *)
Definition fresh_stmt : Stmt :=
  {| c := Some 0%nat; stmt := Some 7%N; sql := EmptyString; tail := EmptyString;
     columnCount := -1; cols := None; bindParameterCount := -1; params := None;
     CheckTypeMismatch := true; Cacheable := false |}.

(** The caller's variables: at 1 a pointer to the [int] at 2, which holds 7. *)
Definition a_heap : gmap addr Cell :=
  <[1%nat := cell_ptr (Some 2%nat)]> (<[2%nat := cell_int 7]> ∅).

(** ** The methods of [*Stmt] *)

Section Statement.

(** The engine that answers the native calls. *)
Variable E : Engine.

(** [ErrSpecific] and [JulianDayToLocalTime] are declared in files of the
    package that are not at hand. *)
Variable ErrSpecific : Z.
Variable JulianDayToLocalTime : float -> Time.

Definition len {A} (xs : list A) : Z := Z.of_nat (length xs).

(** A native call: the engine answers from the calls made so far, and the
    call joins them. *)
Definition native {A} (answer : Engine -> list NativeCall -> NativeCall -> A)
    (call : NativeCall) : M A :=
  fun s w => Ret (answer E (trace w) call) s (set_trace (call :: trace w) w).

Definition native_int (call : NativeCall) : M Z :=
  r <- native ret_int call ;; ret (C_int r).
Definition native_int64 (call : NativeCall) : M Z :=
  r <- native ret_int call ;; ret (C_sqlite3_int64 r).

(** [s.c.db]. *)
Definition s_c_db : M ptr :=
  fun s w => match c s with
             | Some p => Ret (db (conns w p)) s w
             | None => Panic "invalid memory address or nil pointer dereference"
             end.

(** [s.c == nil || s.c.db == nil]. *)
Definition closed (s : Stmt) (w : World) : bool :=
  match c s with
  | None => true
  | Some p => match db (conns w p) with None => true | Some _ => false end
  end.

(** [Stmt.error(rv, details)]. *)
Definition Stmt_error (rv : Z) (details : string) : M (option error) :=
  if rv =? SQLITE_OK then ret None
  else
    d <- s_c_db ;;
    m <- native ret_text (sqlite3_errmsg d) ;;
    s <- this ;;
    ret (Some (StmtError {| ce_c := c s; code := Errno rv;
                            msg := EngineText (C_GoString m); details := details |} s)).

Definition specificError (format : string) (a : list FmtArg) : M error :=
  s <- this ;;
  ret (StmtError {| ce_c := c s; code := ErrSpecific;
                    msg := Sprintf format a; details := EmptyString |} s).

Definition fail (format : string) (a : list FmtArg) : M (option error) :=
  e <- specificError format a ;; ret (Some e).

(** Modelled from the spec: [Conn.Changes] and [Conn.LastInsertRowid] (their
    file is not among the sources) are the connection's change-count and
    last-inserted-rowid accessors. *)
Definition Changes : M Z :=
  d <- s_c_db ;; n <- native_int (sqlite3_changes d) ;; ret (int n).
Definition LastInsertRowid : M Z :=
  d <- s_c_db ;; n <- native_int64 (sqlite3_last_insert_rowid d) ;; ret (int64 n).

(** Modelled from the spec: [cstring] (not among the sources) gives the text
    with its explicit byte length, and [btocint] gives 0 or 1. *)
Definition cstring (value : string) : string * Z :=
  (value, C_int (Z.of_nat (String.length value))).
Definition btocint (b : bool) : Z := if b then 1 else 0.

(** *** Parameters *)

Definition BindParameterCount : M Z :=
  s <- this ;;
  if bindParameterCount s =? -1 then
    n <- native_int (sqlite3_bind_parameter_count (stmt s)) ;;
    update (set_bindParameterCount (int n)) ;;;
    ret (int n)
  else ret (bindParameterCount s).

Definition BindParameterIndex (name : string) : M (Z * option error) :=
  s <- this ;;
  (match params s with
   | None => _ <- BindParameterCount ;; update (set_params (Some ∅))
   | Some _ => ret tt
   end) ;;;
  s <- this ;;
  match default ∅ (params s) !! name with
  | Some index => ret (index, None)
  | None =>
      index <- native_int (sqlite3_bind_parameter_index (stmt s) name) ;;
      if int index =? 0 then
        e <- specificError "invalid parameter name: %q" [a_string name] ;;
        ret (int index, Some e)
      else
        update (fun s => set_params (Some (<[name := int index]> (default ∅ (params s)))) s) ;;;
        ret (int index, None)
  end.

Definition BindParameterName (i : Z) : M (string * option error) :=
  s <- this ;;
  name <- native ret_text (sqlite3_bind_parameter_name (stmt s) (C_int i)) ;;
  match name with
  | None =>
      e <- specificError "invalid parameter index: %d" [a_int i] ;;
      ret (EmptyString, Some e)
  | Some n => ret (n, None)
  end.

(** The end of [BindByIndex] and [BindReflect]: the bind call and
    [s.error(rv, "Stmt.Bind")]. *)
Definition bind_with (call : ptr -> NativeCall) : M (option error) :=
  s <- this ;;
  rv <- native_int (call (stmt s)) ;;
  Stmt_error rv "Stmt.Bind".

Definition BindReflect (index : Z) (value : HostValue) (v : Reflected)
  : M (option error) :=
  let i := C_int index in
  match v with
  | r_String x => let '(cs, n) := cstring x in bind_with (fun h => my_bind_text h i cs n)
  | r_Int x => bind_with (fun h => sqlite3_bind_int64 h i (C_sqlite3_int64 x))
  | r_Uint ui =>
      if MaxInt64 <? ui then fail "int overflow" []
      else bind_with (fun h => sqlite3_bind_int64 h i (C_sqlite3_int64 ui))
  | r_Bool x => bind_with (fun h => sqlite3_bind_int h i (btocint x))
  | r_Float x => bind_with (fun h => sqlite3_bind_double h i x)
  | r_unsupported =>
      r <- BindParameterName index ;;
      fail "unsupported type in Bind: %T (index: %d, name: %q)"
           [a_value value; a_int index; a_string (fst r)]
  end.

Fixpoint BindByIndex (index : Z) (value : HostValue) : M (option error) :=
  let i := C_int index in
  match value with
  | V_nil => bind_with (fun h => sqlite3_bind_null h i)
  | V_string x =>
      w <- world ;;
      if NullIfEmptyString w && (String.length x =? 0)%nat
      then bind_with (fun h => sqlite3_bind_null h i)
      else let '(cs, n) := cstring x in bind_with (fun h => my_bind_text h i cs n)
  | V_int x => bind_with (fun h => sqlite3_bind_int h i (C_int x))
  | V_int64 x => bind_with (fun h => sqlite3_bind_int64 h i (C_sqlite3_int64 x))
  | V_byte x => bind_with (fun h => sqlite3_bind_int h i (C_int x))
  | V_bool x => bind_with (fun h => sqlite3_bind_int h i (btocint x))
  | V_float32 x => bind_with (fun h => sqlite3_bind_double h i x)
  | V_float64 x => bind_with (fun h => sqlite3_bind_double h i x)
  | V_bytes x =>
      let p := if 0 <? len x then Some x else None in
      bind_with (fun h => my_bind_blob h i p (C_int (len x)))
  | V_Time x =>
      w <- world ;;
      if NullIfZeroTime w && IsZero x
      then bind_with (fun h => sqlite3_bind_null h i)
      else bind_with (fun h => sqlite3_bind_int64 h i (C_sqlite3_int64 (Unix x)))
  | V_ZeroBlobLength x => bind_with (fun h => sqlite3_bind_zeroblob h i (C_int x))
  | V_Valuer v => BindByIndex index v
  | V_Valuer_err err => ret (Some (foreign_error err))
  | V_other _ r => BindReflect index value r
  end.

(** The loop of [Bind]: [for i, v := range args]. *)
Fixpoint Bind_range (i : Z) (args : list HostValue) : M (option error) :=
  match args with
  | [] => ret None
  | v :: rest =>
      err <- BindByIndex (i + 1) v ;;
      match err with
      | Some e => ret (Some e)
      | None => Bind_range (i + 1) rest
      end
  end.

Definition Bind (args : list HostValue) : M (option error) :=
  n <- BindParameterCount ;;
  if negb (n =? len args) then
    fail "incorrect argument count for Stmt.Bind: have %d want %d" [a_int (len args); a_int n]
  else Bind_range 0 args.

(** The loop of [NamedBind] over (name, value) pairs; [i] is the position of
    the name. *)
Fixpoint NamedBind_loop (i : Z) (args : list HostValue) : M (option error) :=
  match args with
  | name :: v :: rest =>
      match name with
      | V_string n =>
          r <- BindParameterIndex n ;;
          match r with
          | (_, Some e) => ret (Some e)
          | (index, None) =>
              err <- BindByIndex index v ;;
              match err with
              | Some e => ret (Some e)
              | None => NamedBind_loop (i + 2) rest
              end
          end
      | _ => fail "non-string param name at %d: %T" [a_int i; a_value name]
      end
  | _ => ret None
  end.

Definition NamedBind (args : list HostValue) : M (option error) :=
  if negb (len args mod 2 =? 0) then
    fail "expected an even number of arguments: %d" [a_int (len args)]
  else NamedBind_loop 0 args.

(** *** Execution *)

Definition Next : M (bool * option error) :=
  s <- this ;;
  rv <- native_int (sqlite3_step (stmt s)) ;;
  let err := Errno rv in
  if err =? Row then ret (true, None)
  else
    _ <- native_int (sqlite3_reset (stmt s)) ;;
    if negb (err =? Done) then
      e <- Stmt_error rv "Stmt.Next" ;; ret (false, e)
    else ret (false, None).

Definition Reset : M (option error) :=
  s <- this ;;
  rv <- native_int (sqlite3_reset (stmt s)) ;;
  Stmt_error rv "Stmt.Reset".

Definition ClearBindings : M (option error) :=
  s <- this ;;
  rv <- native_int (sqlite3_clear_bindings (stmt s)) ;;
  Stmt_error rv "Stmt.ClearBindings".

Definition exec : M (option error) :=
  s <- this ;;
  rv <- native_int (sqlite3_step (stmt s)) ;;
  _ <- native_int (sqlite3_reset (stmt s)) ;;
  if negb (Errno rv =? Done) then Stmt_error rv "Stmt.exec" else ret None.

Definition Exec (args : list HostValue) : M (option error) :=
  err <- Bind args ;;
  match err with
  | Some e => ret (Some e)
  | None => exec
  end.

Definition ExecDml (args : list HostValue) : M (Z * option error) :=
  err <- Exec args ;;
  match err with
  | Some e => ret (-1, Some e)
  | None => n <- Changes ;; ret (n, None)
  end.

Definition Insert (args : list HostValue) : M (Z * option error) :=
  r <- ExecDml args ;;
  match r with
  | (_, Some e) => ret (-1, Some e)
  | (n, None) =>
      if n =? 0 then ret (-1, None)
      else rowid <- LastInsertRowid ;; ret (rowid, None)
  end.

Definition SQL : M string :=
  s <- this ;;
  if String.eqb (sql s) EmptyString then
    t <- native ret_text (sqlite3_sql (stmt s)) ;;
    update (set_sql (C_GoString t)) ;;;
    ret (C_GoString t)
  else ret (sql s).

(** *** Columns *)

Definition ColumnCount : M Z :=
  s <- this ;;
  if columnCount s =? -1 then
    n <- native_int (sqlite3_column_count (stmt s)) ;;
    update (set_columnCount (int n)) ;;;
    ret (int n)
  else ret (columnCount s).

Definition ColumnName (index : Z) : M string :=
  s <- this ;;
  n <- native ret_text (sqlite3_column_name (stmt s) (C_int index)) ;;
  ret (C_GoString n).

Definition ColumnType (index : Z) : M Type_ :=
  s <- this ;;
  native_int (sqlite3_column_type (stmt s) (C_int index)).

(** The loop of [ColumnIndex] that fills [s.cols]: [n] columns from [i]. *)
Fixpoint ColumnIndex_fill (n : nat) (i : Z) : M unit :=
  match n with
  | O => ret tt
  | S n' =>
      name <- ColumnName i ;;
      update (fun s => set_cols (Some (<[name := i]> (default ∅ (cols s)))) s) ;;;
      ColumnIndex_fill n' (i + 1)
  end.

Definition ColumnIndex (name : string) : M (Z * option error) :=
  s <- this ;;
  (match cols s with
   | None =>
       count <- ColumnCount ;;
       update (set_cols (Some ∅)) ;;;
       ColumnIndex_fill (Z.to_nat count) 0
   | Some _ => ret tt
   end) ;;;
  s <- this ;;
  match default ∅ (cols s) !! name with
  | Some index => ret (index, None)
  | None =>
      e <- specificError "invalid column name: %s" [a_string name] ;;
      ret (-1, Some e)
  end.

(** *** Scanning *)

(** Only lossy conversion is reported as error. *)
Definition checkTypeMismatch (source target : Type_) : M (option error) :=
  let mismatch :=
    fail "type mismatch, source %s vs target %s" [a_Type source; a_Type target] in
  if target =? Integer then
    if (source =? Float) || (source =? Text) || (source =? Blob) then mismatch
    else ret None
  else if target =? Float then
    if (source =? Text) || (source =? Blob) then mismatch
    else ret None
  else ret None.

Definition ScanText (index : Z) : M (string * bool) :=
  s <- this ;;
  p <- native ret_text (sqlite3_column_text (stmt s) (C_int index)) ;;
  match p with
  | None => ret (EmptyString, true)
  | Some value => ret (value, false)
  end.

(** The four integer scans differ in the column function and in the
    conversion of its result. *)
Definition scan_integer {A} (zero : A) (column : ptr -> Z -> NativeCall)
    (get : NativeCall -> M Z) (conv : Z -> A) (index : Z)
  : M (A * bool * option error) :=
  ctype <- ColumnType index ;;
  if ctype =? Null then ret (zero, true, None)
  else
    s <- this ;;
    err <- (if CheckTypeMismatch s then checkTypeMismatch ctype Integer else ret None) ;;
    v <- get (column (stmt s) (C_int index)) ;;
    ret (conv v, false, err).

Definition ScanInt : Z -> M (Z * bool * option error) :=
  scan_integer 0 sqlite3_column_int native_int int.
Definition ScanInt64 : Z -> M (Z * bool * option error) :=
  scan_integer 0 sqlite3_column_int64 native_int64 int64.
Definition ScanByte : Z -> M (Z * bool * option error) :=
  scan_integer 0 sqlite3_column_int native_int byte.
Definition ScanBool : Z -> M (bool * bool * option error) :=
  scan_integer false sqlite3_column_int native_int (fun v => v =? 1).

Definition ScanDouble (index : Z) : M (float * bool * option error) :=
  ctype <- ColumnType index ;;
  if ctype =? Null then ret (0%float, true, None)
  else
    s <- this ;;
    err <- (if CheckTypeMismatch s then checkTypeMismatch ctype Float else ret None) ;;
    v <- native ret_double (sqlite3_column_double (stmt s) (C_int index)) ;;
    ret (v, false, err).

Definition ScanBlob (index : Z) : M (bytes * bool) :=
  s <- this ;;
  p <- native ret_blob (sqlite3_column_blob (stmt s) (C_int index)) ;;
  match p with
  | None => ret ([], true)
  | Some _ =>
      n <- native_int (sqlite3_column_bytes (stmt s) (C_int index)) ;;
      ret (C_GoBytes p n, false)
  end.

(** [txt[10] == 'T']. *)
Definition sep_is_T (txt : string) : bool :=
  match String.get 10 txt with Some ch => Ascii.eqb ch "T" | None => false end.

(** The [switch len(txt)] of [ScanTime]. *)
Definition ScanTime_layout (txt : string) : string :=
  let n := Z.of_nat (String.length txt) in
  if n =? 5 then "15:04"
  else if n =? 8 then "15:04:05"
  else if n =? 10 then "2006-01-02"
  else if n =? 12 then "15:04:05.000"
  else if n =? 16 then
    if sep_is_T txt then "2006-01-02T15:04" else "2006-01-02 15:04"
  else if n =? 19 then
    if sep_is_T txt then "2006-01-02T15:04:05" else "2006-01-02 15:04:05"
  else if n =? 23 then
    if sep_is_T txt then "2006-01-02T15:04:05.999" else "2006-01-02 15:04:05.999"
  else
    if (10 <? n) && sep_is_T txt then "2006-01-02T15:04:05.999Z07:00"
    else "2006-01-02 15:04:05.999Z07:00".

Definition ScanTime (index : Z) : M (Time * bool * option error) :=
  ctype <- ColumnType index ;;
  s <- this ;;
  if ctype =? Null then ret (zeroTime, true, None)
  else if ctype =? Text then
    p <- native ret_text (sqlite3_column_text (stmt s) (C_int index)) ;;
    let txt := C_GoString p in
    let '(value, err) := time_Parse (ScanTime_layout txt) txt in
    ret (value, false, option_map ParseErr err)
  else if ctype =? Integer then
    unixepoch <- native_int64 (sqlite3_column_int64 (stmt s) (C_int index)) ;;
    ret (time_Unix (int64 unixepoch) 0, false, None)
  else if ctype =? Float then
    jd <- native ret_double (sqlite3_column_double (stmt s) (C_int index)) ;;
    ret (JulianDayToLocalTime jd, false, None)
  else panic "The column type is not one of SQLITE_INTEGER, SQLITE_FLOAT, SQLITE_TEXT, or SQLITE_NULL".

Definition ScanValue (index : Z) (blob : bool) : M (Value * bool) :=
  ctype <- ColumnType index ;;
  s <- this ;;
  let as_blob :=
    p <- native ret_blob (sqlite3_column_blob (stmt s) (C_int index)) ;;
    n <- native_int (sqlite3_column_bytes (stmt s) (C_int index)) ;;
    ret (bytes_value (C_GoBytes p n), false) in
  if ctype =? Null then ret (nil_value, true)
  else if ctype =? Text then
    if blob then as_blob
    else
      p <- native ret_text (sqlite3_column_text (stmt s) (C_int index)) ;;
      ret (string_value (C_GoString p), false)
  else if ctype =? Integer then
    v <- native_int64 (sqlite3_column_int64 (stmt s) (C_int index)) ;;
    ret (int64_value (int64 v), false)
  else if ctype =? Float then
    v <- native ret_double (sqlite3_column_double (stmt s) (C_int index)) ;;
    ret (float64_value v, false)
  else if ctype =? Blob then as_blob
  else panic "The column type is not one of SQLITE_INTEGER, SQLITE_FLOAT, SQLITE_TEXT, SQLITE_BLOB, or SQLITE_NULL".

Definition ScanReflect (index : Z) (v : Reflection) : M (bool * option error) :=
  match v with
  | v_ptr _ k dv =>
      match k with
      | K_String =>
          r <- ScanText index ;;
          store dv (cell_string (fst r)) ;;;
          ret (snd r, None)
      | K_Int bits =>
          r <- ScanInt64 index ;;
          let '(i, isNull, err) := r in
          match err with
          | None => store dv (cell_kind k (sint bits i)) ;;; ret (isNull, None)
          | Some _ => ret (isNull, err)
          end
      | K_Uint bits =>
          r <- ScanInt64 index ;;
          let '(i, isNull, err) := r in
          match err with
          | None =>
              if i <? 0 then
                e <- specificError "negative value: %d" [a_int i] ;; ret (isNull, Some e)
              else store dv (cell_kind k (uint bits i)) ;;; ret (isNull, None)
          | Some _ => ret (isNull, err)
          end
      | K_Bool =>
          r <- ScanBool index ;;
          let '(b, isNull, err) := r in
          match err with
          | None => store dv (cell_bool b) ;;; ret (isNull, None)
          | Some _ => ret (isNull, err)
          end
      | K_Float bits =>
          r <- ScanDouble index ;;
          let '(f, isNull, err) := r in
          match err with
          | None =>
              store dv (if bits =? 64 then cell_float64 f else cell_float32 f) ;;;
              ret (isNull, None)
          | Some _ => ret (isNull, err)
          end
      | K_other =>
          e <- specificError "unsupported type in Scan: %T" [a_dest (d_other v)] ;;
          ret (false, Some e)
      end
  | _ =>
      e <- specificError "ScanReflect unsupported type %T" [a_dest (d_other v)] ;;
      ret (false, Some e)
  end.

(** A [*T] case of [ScanByIndex] with an error result:
    [*value, isNull, err = s.ScanT(index)]. *)
Definition scan_to {A} (scan : Z -> M (A * bool * option error)) (cell : A -> Cell)
    (index : Z) (value : addr) : M (bool * option error) :=
  r <- scan index ;;
  let '(x, isNull, err) := r in
  store value (cell x) ;;;
  ret (isNull, err).

(** A [**T] case of [ScanByIndex] with an error result. *)
Definition scan_through {A} (scan : Z -> M (A * bool * option error)) (cell : A -> Cell)
    (index : Z) (value : addr) : M (bool * option error) :=
  r <- scan index ;;
  let '(x, isNull, err) := r in
  match err with
  | None =>
      (if isNull : bool then store value (cell_ptr None) else store_through value (cell x)) ;;;
      ret (isNull, err)
  | Some _ => ret (isNull, err)
  end.

Definition ScanByIndex (index : Z) (value : Dest) : M (bool * option error) :=
  match value with
  | d_nil => ret (false, None)
  | p_string value =>
      r <- ScanText index ;;
      store value (cell_string (fst r)) ;;;
      ret (snd r, None)
  | pp_string value =>
      r <- ScanText index ;;
      let '(st, isNull) := r in
      (if isNull : bool then store value (cell_ptr None)
       else store_through value (cell_string st)) ;;;
      ret (isNull, None)
  | p_int value => scan_to ScanInt cell_int index value
  | pp_int value => scan_through ScanInt cell_int index value
  | p_int64 value => scan_to ScanInt64 cell_int64 index value
  | pp_int64 value => scan_through ScanInt64 cell_int64 index value
  | p_byte value => scan_to ScanByte cell_byte index value
  | pp_byte value => scan_through ScanByte cell_byte index value
  | p_bool value => scan_to ScanBool cell_bool index value
  | pp_bool value => scan_through ScanBool cell_bool index value
  | p_float64 value => scan_to ScanDouble cell_float64 index value
  | pp_float64 value => scan_through ScanDouble cell_float64 index value
  | p_bytes value =>
      r <- ScanBlob index ;;
      store value (cell_bytes (fst r)) ;;;
      ret (snd r, None)
  | pp_bytes value =>
      r <- ScanBlob index ;;
      let '(bs, isNull) := r in
      (if isNull : bool then store value (cell_ptr None)
       else store_through value (cell_bytes bs)) ;;;
      ret (isNull, None)
  | p_Time value => scan_to ScanTime cell_Time index value
  | sql_Scanner Scan =>
      r <- ScanValue index false ;;
      ret (snd r, option_map foreign_error (Scan (fst r)))
  | p_interface value =>
      r <- ScanValue index false ;;
      store value (cell_interface (fst r)) ;;;
      ret (snd r, None)
  | d_other v => ScanReflect index v
  end.

(** The loop of [Scan]: [for i, v := range args]. *)
Fixpoint Scan_range (i : Z) (args : list Dest) : M (option error) :=
  match args with
  | [] => ret None
  | v :: rest =>
      r <- ScanByIndex i v ;;
      match snd r with
      | Some e => ret (Some e)
      | None => Scan_range (i + 1) rest
      end
  end.

Definition Scan (args : list Dest) : M (option error) :=
  n <- ColumnCount ;;
  if negb (n =? len args) then
    fail "incorrect argument count for Stmt.Scan: have %d want %d" [a_int (len args); a_int n]
  else Scan_range 0 args.

Definition ScanByName (name : string) (value : Dest) : M (bool * option error) :=
  r <- ColumnIndex name ;;
  match r with
  | (_, Some e) => ret (false, Some e)
  | (index, None) => ScanByIndex index value
  end.

(** *** Finalization and the statement cache *)

(** [Log(err, msg)]. *)
Definition Log (err : Z) (text : string) : M unit :=
  _ <- native ret_int (my_log (C_int err) text) ;; ret tt.

Definition finalize : M (option error) :=
  s <- this ;;
  w <- world ;;
  match stmt s with
  | None => ret None
  | Some _ =>
      if closed s w then
        Log SQLITE_MISUSE "sqlite statement with already closed database connection" ;;;
        ret (Some (errors_New "sqlite statement with already closed database connection"))
      else
        rv <- native_int (sqlite3_finalize (stmt s)) ;;
        if negb (rv =? SQLITE_OK) then
          Log (int rv) "error while finalizing Stmt" ;;;
          Stmt_error rv "Stmt.finalize"
        else
          update (set_stmt None) ;;;
          ret None
  end.

(** A method run on another statement [s'], whose state is then dropped. *)
Definition on_other {A} (s' : Stmt) (m : M A) : M A :=
  fun s w => match m s' w with
             | Ret a _ w' => Ret a s w'
             | Panic r => Panic r
             end.


(** Modelled from the spec: eviction destroys the least recently used
    entries beyond the capacity; a failure to destroy one is not surfaced. *)
Fixpoint cache_evict (fuel : nat) (entries : list (string * Stmt)) (capacity : Z)
  : M (list (string * Stmt)) :=
  match fuel with
  | O => ret entries
  | S fuel' =>
      if capacity <? len entries then
        match last entries with
        | Some (_, victim) =>
            _ <- on_other victim finalize ;;
            cache_evict fuel' (removelast entries) capacity
        | None => ret entries
        end
      else ret entries
  end.

(** Modelled from the spec: [release(stmt)] of the statement cache resets the
    statement's bindings and execution state; on success the statement becomes
    the most recently used entry, and what exceeds the capacity is evicted;
    when the reset fails the statement is destroyed and not cached. *)
Definition cache_release : M (option error) :=
  cleared <- ClearBindings ;;
  reset <- Reset ;;
  match cleared, reset with
  | None, None =>
      key <- SQL ;;
      s <- this ;;
      w <- world ;;
      match c s with
      | None => panic "invalid memory address or nil pointer dereference"
      | Some p =>
          let ch := stmtCache (conns w p) in
          kept <- cache_evict (S (length (l ch))) ((key, s) :: l ch) (maxSize ch) ;;
          (fun s0 w0 =>
             Ret None s0
               (set_conn p {| db := db (conns w0 p);
                              stmtCache := {| l := kept; maxSize := maxSize ch |} |} w0))
      end
  | _, _ => finalize
  end.

Definition Finalize : M (option error) :=
  s <- this ;;
  w <- world ;;
  if Cacheable s && negb (closed s w) then cache_release
  else finalize.

(** *** [Conn.prepare] and [Conn.Prepare] *)

(** Modelled from the spec: [Conn.error] (not among the sources) wraps the
    non-success result code of the engine with the engine's message. *)
Definition Conn_error (cp : connptr) (rv : Z) (details : string) (w : World)
  : error * World :=
  let call := sqlite3_errmsg (db (conns w cp)) in
  (ConnErr {| ce_c := Some cp; code := Errno rv;
              msg := EngineText (C_GoString (ret_text E (trace w) call));
              details := details |},
   set_trace (call :: trace w) w).

Definition prepare (cp : connptr) (cmd : string) (args : list HostValue) (w : World)
  : Out (option Stmt * option error) :=
  let call :=
    sqlite3_prepare_v2 (db (conns w cp)) cmd (C_int (Z.of_nat (String.length cmd) + 1)) in
  let rv := C_int (ret_int E (trace w) call) in
  let handle := ret_stmt E (trace w) call in
  let t := C_GoString (ret_text E (trace w) call) in
  let w1 := set_trace (call :: trace w) w in
  if negb (rv =? SQLITE_OK) then
    let '(e, w2) := Conn_error cp rv cmd w1 in Returned (None, Some e) w2
  else
    let s := {| c := Some cp; stmt := handle; sql := EmptyString; tail := t;
                columnCount := -1; cols := None; bindParameterCount := -1;
                params := None; CheckTypeMismatch := true; Cacheable := false |} in
    if 0 <? len args then
      match Bind args s w1 with
      | Ret (Some e) s' w2 =>
          match finalize s' w2 with
          | Ret _ _ w3 => Returned (None, Some e) w3
          | Panic r => Panicked r
          end
      | Ret None s' w2 => Returned (Some s', None) w2
      | Panic r => Panicked r
      end
    else Returned (Some s, None) w1.



(** *** [Select], [SelectOneRow], [NamedScan], [ColumnNames], [ScanValues] *)

(** The loop of [Select]: step, call back, again.  The loop of the source
    has no bound of its own: it ends when the engine reports completion.
    [fuel] bounds the number of steps, and the result [None] tells that the
    bound was reached.  The callback receives the statement: it is a method
    run on the receiver. *)
Fixpoint Select_loop (fuel : nat) (rowCallbackHandler : M (option error))
  : M (option (option error)) :=
  match fuel with
  | O => ret None
  | S fuel' =>
      r <- Next ;;
      match r with
      | (_, Some e) => ret (Some (Some e))
      | (false, None) => ret (Some None)
      | (true, None) =>
          err <- rowCallbackHandler ;;
          match err with
          | Some e => ret (Some (Some e))
          | None => Select_loop fuel' rowCallbackHandler
          end
      end
  end.

Definition Select (fuel : nat) (rowCallbackHandler : M (option error))
    (args : list HostValue) : M (option (option error)) :=
  if 0 <? len args then
    err <- Bind args ;;
    match err with
    | Some e => ret (Some (Some e))
    | None => Select_loop fuel rowCallbackHandler
    end
  else Select_loop fuel rowCallbackHandler.

Definition SelectOneRow (args : list Dest) : M (bool * option error) :=
  r <- Next ;;
  match r with
  | (_, Some e) => ret (false, Some e)
  | (false, None) => ret (false, None)
  | (true, None) => err <- Scan args ;; ret (true, err)
  end.

(** An argument of [NamedScan]: a name or a destination. *)
Inductive ScanArg :=
| sa_name (name : string)
| sa_dest (d : Dest).

(** An argument of [NamedScan] given to [ScanByIndex]: a string is not a
    pointer. *)
Definition as_dest (a : ScanArg) : Dest :=
  match a with
  | sa_name _ => d_other (v_notptr "string")
  | sa_dest d => d
  end.

(** The loop of [NamedScan] over (name, destination) pairs; [i] is the
    position of the name. *)
Fixpoint NamedScan_loop (i : Z) (args : list ScanArg) : M (option error) :=
  match args with
  | name :: ptr :: rest =>
      match name with
      | sa_name n =>
          r <- ColumnIndex n ;;
          match r with
          | (_, Some e) => ret (Some e)
          | (index, None) =>
              r' <- ScanByIndex index (as_dest ptr) ;;
              match snd r' with
              | Some e => ret (Some e)
              | None => NamedScan_loop (i + 2) rest
              end
          end
      | sa_dest d => fail "non-string field name at %d: %T" [a_int i; a_dest d]
      end
  | _ => ret None
  end.

Definition NamedScan (args : list ScanArg) : M (option error) :=
  if negb (len args mod 2 =? 0) then
    fail "expected an even number of arguments: %d" [a_int (len args)]
  else NamedScan_loop 0 args.

(** The loop of [ColumnNames]: [n] names from column [i]. *)
Fixpoint ColumnNames_loop (n : nat) (i : Z) : M (list string) :=
  match n with
  | O => ret []
  | S n' =>
      name <- ColumnName i ;;
      rest <- ColumnNames_loop n' (i + 1) ;;
      ret (name :: rest)
  end.

(** [make([]string, count)] panics on a negative count. *)
Definition ColumnNames : M (list string) :=
  count <- ColumnCount ;;
  if count <? 0 then panic "makeslice: len out of range"
  else ColumnNames_loop (Z.to_nat count) 0.

(** The loop [values[i], _ = s.ScanValue(i, blob)] of [ScanValues] and of
    [rowsImpl.Next] over a slice of [n] values, from column [i] on: the
    values it leaves in the slice. *)
Fixpoint ScanValue_range (blob : bool) (n : nat) (i : Z) : M (list Value) :=
  match n with
  | O => ret []
  | S n' =>
      r <- ScanValue i blob ;;
      rest <- ScanValue_range blob n' (i + 1) ;;
      ret (fst r :: rest)
  end.

Definition ScanValues (n : nat) : M (list Value) := ScanValue_range false n 0.

(** *** The adapter to database/sql/driver (driver.go) *)

(** [type stmt struct]: the statement with the flags of its rows. *)
Record drv_stmt := { stmt_s : Stmt; rowsRef : bool; pendingClose : bool }.

Inductive DRes (A : Type) :=
| DRet (a : A) (d : drv_stmt) (w : World)
| DPanic (reason : string).
Arguments DRet {A} a d w.
Arguments DPanic {A} reason.

(** A method of the wrapped [*Stmt] run from the adapter. *)
Definition on_stmt {A} (m : M A) (d : drv_stmt) (w : World) : DRes A :=
  match m (stmt_s d) w with
  | Ret a s' w' =>
      DRet a {| stmt_s := s'; rowsRef := rowsRef d; pendingClose := pendingClose d |} w'
  | Panic r => DPanic r
  end.

Definition set_rowsRef (b : bool) (d : drv_stmt) : drv_stmt :=
  {| stmt_s := stmt_s d; rowsRef := b; pendingClose := pendingClose d |}.
Definition set_pendingClose (b : bool) (d : drv_stmt) : drv_stmt :=
  {| stmt_s := stmt_s d; rowsRef := rowsRef d; pendingClose := b |}.

(** [stmt.Close]. *)
Definition stmt_Close (d : drv_stmt) (w : World) : DRes (option error) :=
  if rowsRef d then DRet None (set_pendingClose true d) w
  else on_stmt Finalize d w.

(** [stmt.bind]: the loop of [Bind] without its check of the count. *)
Definition stmt_bind (args : list HostValue) : drv_stmt -> World -> DRes (option error) :=
  on_stmt (Bind_range 0 args).

(** [stmt.Exec]: the error, nil when the result is returned. *)
Definition stmt_Exec (args : list HostValue) (d : drv_stmt) (w : World)
  : DRes (option error) :=
  match stmt_bind args d w with
  | DRet (Some e) d' w' => DRet (Some e) d' w'
  | DRet None d' w' => on_stmt exec d' w'
  | DPanic r => DPanic r
  end.

(** [stmt.Query]: the error, nil when the rows are returned. *)
Definition stmt_Query (args : list HostValue) (d : drv_stmt) (w : World)
  : DRes (option error) :=
  if rowsRef d then
    DRet (Some (errors_New "Previously returned Rows still not closed")) d w
  else
    match stmt_bind args d w with
    | DRet (Some e) d' w' => DRet (Some e) d' w'
    | DRet None d' w' => DRet None (set_rowsRef true d') w'
    | DPanic r => DPanic r
    end.

(** [io.EOF]. *)
Definition io_EOF : error := errors_New "EOF".

(** [rowsImpl.Next] on a slice [dest] of [n] values: the values it leaves in
    the slice ([None] when it leaves the slice alone) and the error. *)
Definition rows_Next (n : nat) (d : drv_stmt) (w : World)
  : DRes (option (list Value) * option error) :=
  match on_stmt Next d w with
  | DRet (_, Some e) d' w' => DRet (None, Some e) d' w'
  | DRet (false, None) d' w' => DRet (None, Some io_EOF) d' w'
  | DRet (true, None) d' w' =>
      match on_stmt (ScanValue_range true n 0) d' w' with
      | DRet vs d'' w'' => DRet (Some vs, None) d'' w''
      | DPanic r => DPanic r
      end
  | DPanic r => DPanic r
  end.

(** [rowsImpl.Close]. *)
Definition rows_Close (d : drv_stmt) (w : World) : DRes (option error) :=
  let d1 := set_rowsRef false d in
  if pendingClose d1 then stmt_Close d1 w
  else on_stmt Reset d1 w.

(** ** Notions for the properties *)

(** The answer of the engine to a call made in world [w]. *)
Definition answer_int (w : World) (call : NativeCall) : Z := C_int (ret_int E (trace w) call).

(** The storage class that the engine reports for a column in world [w]. *)
Definition storage_class (s : Stmt) (w : World) (index : Z) : Type_ :=
  answer_int w (sqlite3_column_type (stmt s) (C_int index)).

(** The world after a call. *)
Definition after (call : NativeCall) (w : World) : World := set_trace (call :: trace w) w.

(** The error that [checkTypeMismatch] builds. *)
Definition mismatch (source target : Type_) (s : Stmt) : error :=
  StmtError {| ce_c := c s; code := ErrSpecific;
               msg := Sprintf "type mismatch, source %s vs target %s"
                              [a_Type source; a_Type target];
               details := EmptyString |} s.

(** The error part of a numeric scan of a non-Null column. *)
Definition mismatch_if (s : Stmt) (source target : Type_) (cls : DestClass) : option error :=
  if CheckTypeMismatch s && spec_lossy source cls then Some (mismatch source target s) else None.

(** A numeric scan of a non-Null column returns a value, not null, and the
    error of the policy; the receiver is unchanged. *)
Definition policy_scan {A} (scan : Z -> M (A * bool * option error))
    (target : Type_) (cls : DestClass) : Prop :=
  forall index s w, storage_class s w index <> Null ->
    exists x w',
      scan index s w = Ret (x, false, mismatch_if s (storage_class s w index) target cls) s w'.








(** A run that issues the bind call [call] and returns its result code
    wrapped by [s.error(rv, "Stmt.Bind")]. *)
Definition binds (m : M (option error)) (call : NativeCall) (s : Stmt) (w : World) : Prop :=
  m s w = (rv <- native_int call ;; Stmt_error rv "Stmt.Bind") s w.

(** The statement that an error carries: [StmtError.SQL()] is the SQL text of
    that statement. *)
Definition error_stmt (e : error) : option Stmt :=
  match e with
  | StmtError _ s => Some s
  | _ => None
  end.

Definition StmtError_SQL (e : error) : M string :=
  match error_stmt e with
  | Some s => on_other s SQL
  | None => ret EmptyString
  end.

(** [w'] comes from [w] by calls that all satisfy [P]. *)
Definition extends (P : NativeCall -> bool) (w w' : World) : Prop :=
  exists added, trace w' = added ++ trace w /\ forallb P added = true.

(** Every returning run of [m] adds only calls that satisfy [P]. *)
Definition traced (P : NativeCall -> bool) {A} (m : M A) : Prop :=
  forall s w a s' w', m s w = Ret a s' w' -> extends P w w'.

(** Any call but the reading of the last inserted rowid. *)
Definition not_rowid (call : NativeCall) : bool :=
  match call with
  | sqlite3_last_insert_rowid _ => false
  | _ => true
  end.

(** The format of the message of an error built by [specificError]. *)
Definition error_format (e : error) : option string :=
  match e with
  | StmtError {| msg := Sprintf format _ |} _ => Some format
  | _ => None
  end.

(** A query of the shape of the statement: parameter and column counts and
    names. *)
Definition shape_query (call : NativeCall) : bool :=
  match call with
  | sqlite3_bind_parameter_count _ | sqlite3_bind_parameter_index _ _
  | sqlite3_bind_parameter_name _ _ | sqlite3_column_count _
  | sqlite3_column_name _ _ => true
  | _ => false
  end.

(** The destinations that [ScanReflect] refuses. *)
Definition unsupported_scan (v : Reflection) : bool :=
  match v with
  | v_notptr _ | v_nilptr _ | v_ptr _ K_other _ => true
  | _ => false
  end.

(** The claim on local errors as it is stated, for an unknown parameter name:
    the failing lookup does not reach the native engine. *)
Definition stated_unknown_name_is_local (s : Stmt) (w : World) : Prop :=
  forall name index e s' w',
    BindParameterIndex name s w = Ret (index, Some e) s' w' ->
    trace w' = trace w.

(** The claim on use after finalization as it is stated: once [finalize] has
    destroyed the handle, the operation [op] fails with an error. *)
Definition stated_fails_after_finalize (op : M (option error)) (s : Stmt) (w : World)
  : Prop :=
  forall s1 w1,
    stmt s <> None ->
    finalize s w = Ret None s1 w1 ->
    exists e s2 w2, op s1 w1 = Ret (Some e) s2 w2.

(** What the methods leave alone: the [Cacheable] flag and the connection of
    the receiver, and the connections of the world. *)
Definition kept (s : Stmt) (w : World) (s' : Stmt) (w' : World) : Prop :=
  Cacheable s' = Cacheable s /\ c s' = c s /\ conns w' = conns w.




(** ** Notions for the further properties *)

(** What binding, stepping and the lookups by name leave alone: the handle,
    the connection and the flags of the receiver, and, in the world, the
    connections, the caller's variables and the package variables.  Only the
    cached metadata of the receiver and the trace may change. *)
Definition frame (s : Stmt) (w : World) (s' : Stmt) (w' : World) : Prop :=
  stmt s' = stmt s /\ c s' = c s /\ tail s' = tail s /\
  CheckTypeMismatch s' = CheckTypeMismatch s /\ Cacheable s' = Cacheable s /\
  conns w' = conns w /\ heap w' = heap w /\
  NullIfEmptyString w' = NullIfEmptyString w /\ NullIfZeroTime w' = NullIfZeroTime w.

Definition framed {A} (m : M A) : Prop :=
  forall s w a s' w', m s w = Ret a s' w' -> frame s w s' w'.

(** The parameter index that a bind call names. *)
Definition bind_index (call : NativeCall) : option Z :=
  match call with
  | sqlite3_bind_null _ i | my_bind_text _ i _ _ | sqlite3_bind_int _ i _
  | sqlite3_bind_int64 _ i _ | sqlite3_bind_double _ i _ | my_bind_blob _ i _ _
  | sqlite3_bind_zeroblob _ i _ => Some i
  | _ => None
  end.

(** A value that [BindByIndex] hands to the engine: no [Valuer] that fails,
    no unsigned value beyond the signed maximum, no unsupported type. *)
Fixpoint bindable (v : HostValue) : bool :=
  match v with
  | V_Valuer v' => bindable v'
  | V_Valuer_err _ => false
  | V_other _ (r_Uint ui) => ui <=? MaxInt64
  | V_other _ r_unsupported => false
  | _ => true
  end.

(** An engine that accepts every bind call. *)
Definition accepts_binds : Prop :=
  forall tr call, is_bind call = true -> C_int (ret_int E tr call) = SQLITE_OK.

(** The map that the loop of [ColumnIndex] builds from the column names
    [names], for [n] columns from [i], over [m]. *)
Fixpoint fill_map (names : Z -> string) (n : nat) (i : Z) (m : gmap string Z)
  : gmap string Z :=
  match n with
  | O => m
  | S n' => fill_map names n' (i + 1) (<[names i := i]> m)
  end.

(** An engine whose column names for the statement [h] depend on the column
    alone: [names]. *)
Definition column_names (h : ptr) (names : Z -> string) : Prop :=
  forall tr i, C_GoString (ret_text E tr (sqlite3_column_name h (C_int i))) = names i.

(** The result code and the details that an error carries. *)
Definition error_code (e : error) : option Z :=
  match e with
  | ConnErr ce | StmtError ce _ => Some (code ce)
  | _ => None
  end.

Definition error_details (e : error) : option string :=
  match e with
  | ConnErr ce | StmtError ce _ => Some (details ce)
  | _ => None
  end.

(** An engine whose index of a parameter of the statement [h] depends on the
    name alone: [idx], 0 for a name that the statement does not have. *)
Definition parameter_index (h : ptr) (idx : string -> Z) : Prop :=
  forall tr name, int (C_int (ret_int E tr (sqlite3_bind_parameter_index h name))) = idx name.

(** The cached indexes are those of [idx], none of them 0. *)
Definition cache_agrees (idx : string -> Z) (p : option (gmap string Z)) : Prop :=
  forall m n i, p = Some m -> m !! n = Some i -> i = idx n /\ i <> 0.

(** The arguments of [NamedBind] for (name, value) pairs. *)
Definition named_args (pairs : list (string * HostValue)) : list HostValue :=
  flat_map (fun p => [V_string (fst p); snd p]) pairs.

(** The parameter indexes of the bind calls among [calls], in order. *)
Definition bound_indexes (calls : list NativeCall) : list (option Z) :=
  map bind_index (List.filter is_bind calls).

(** The variables that a scan into [d] may write, in the heap [h]: the one
    behind the pointer and, for a double pointer, the one behind the inner
    pointer. *)
Definition reach (h : gmap addr Cell) (d : Dest) : list addr :=
  match d with
  | p_string a | p_int a | p_int64 a | p_byte a | p_bool a | p_float64 a
  | p_bytes a | p_Time a | p_interface a | d_other (v_ptr _ _ a) => [a]
  | pp_string a | pp_int a | pp_int64 a | pp_byte a | pp_bool a | pp_float64 a
  | pp_bytes a =>
      a :: match h !! a with Some (cell_ptr (Some p)) => [p] | _ => [] end
  | _ => []
  end.

(** The heap [h'] differs from [h] within [F] only, and has no pointer to a
    variable that [h] does not have. *)
Definition writes_within (F : list addr) (h h' : gmap addr Cell) : Prop :=
  (forall a, ~ In a F -> h' !! a = h !! a) /\
  (forall a q, h' !! a = Some (cell_ptr (Some q)) -> h !! a = Some (cell_ptr (Some q))).

(** A run that reads columns: the receiver, the heap and the connections are
    as before. *)
Definition reads {A} (m : M A) : Prop :=
  forall s w a s' w', m s w = Ret a s' w' ->
    s' = s /\ heap w' = heap w /\ conns w' = conns w /\ extends is_column_read w w'.

(** A column read or the query of the number of columns. *)
Definition column_query (call : NativeCall) : bool :=
  match call with
  | sqlite3_column_count _ => true
  | _ => is_column_read call
  end.

(** A reset of a statement; a finalization. *)
Definition resets (call : NativeCall) : bool :=
  match call with sqlite3_reset _ => true | _ => false end.

Definition finalizes (call : NativeCall) : bool :=
  match call with sqlite3_finalize _ => true | _ => false end.

(** The calls of a bind: the bind itself, the queries of the statement's
    shape, and the reading of the engine's message for an error. *)
Definition binding_call (call : NativeCall) : bool :=
  match call with
  | sqlite3_errmsg _ => true
  | _ => is_bind call || shape_query call
  end.

(** ** Properties *)

Lemma checkTypeMismatch_Integer source s w :
  checkTypeMismatch source Integer s w =
  Ret (if spec_lossy source IntegerFamily then Some (mismatch source Integer s) else None) s w.
Proof.
  unfold checkTypeMismatch, spec_lossy. simpl.
  destruct ((source =? Float) || (source =? Text) || (source =? Blob)); reflexivity.
Qed.

Lemma checkTypeMismatch_Float source s w :
  checkTypeMismatch source Float s w =
  Ret (if spec_lossy source FloatDest then Some (mismatch source Float s) else None) s w.
Proof.
  unfold checkTypeMismatch, spec_lossy. simpl.
  destruct ((source =? Text) || (source =? Blob)); reflexivity.
Qed.

(** Unfolding of the monad. *)
Ltac run :=
  cbv [bind ret panic this update world store native native_int native_int64 fail
       specificError s_c_db ColumnType].

Lemma scan_integer_eq {A} (zero : A) column get conv index s w :
  (forall call s0 w0, exists v, get call s0 w0 = Ret v s0 (after call w0)) ->
  storage_class s w index <> Null ->
  exists v,
    get (column (stmt s) (C_int index)) s
        (after (sqlite3_column_type (stmt s) (C_int index)) w)
    = Ret v s (after (column (stmt s) (C_int index))
                 (after (sqlite3_column_type (stmt s) (C_int index)) w)) /\
    scan_integer zero column get conv index s w =
    Ret (conv v, false, mismatch_if s (storage_class s w index) Integer IntegerFamily) s
        (after (column (stmt s) (C_int index))
           (after (sqlite3_column_type (stmt s) (C_int index)) w)).
Proof.
  intros Hget Hnn.
  destruct (Hget (column (stmt s) (C_int index)) s
              (after (sqlite3_column_type (stmt s) (C_int index)) w)) as [v Hv].
  exists v. split; [exact Hv|].
  apply Z.eqb_neq in Hnn.
  unfold mismatch_if, scan_integer. unfold storage_class, answer_int, after in *.
  run. rewrite Hnn.
  destruct (CheckTypeMismatch s); cbn [andb].
  - rewrite checkTypeMismatch_Integer.
    destruct (spec_lossy _ _); rewrite Hv; reflexivity.
  - rewrite Hv. reflexivity.
Qed.

Lemma ScanDouble_eq index s w :
  storage_class s w index <> Null ->
  ScanDouble index s w =
  Ret (ret_double E (sqlite3_column_type (stmt s) (C_int index) :: trace w)
         (sqlite3_column_double (stmt s) (C_int index)),
       false, mismatch_if s (storage_class s w index) Float FloatDest) s
      (after (sqlite3_column_double (stmt s) (C_int index))
         (after (sqlite3_column_type (stmt s) (C_int index)) w)).
Proof.
  intros Hnn. apply Z.eqb_neq in Hnn.
  unfold mismatch_if, ScanDouble. unfold storage_class, answer_int, after in *.
  run. rewrite Hnn.
  destruct (CheckTypeMismatch s); cbn [andb].
  - rewrite checkTypeMismatch_Float. destruct (spec_lossy _ _); reflexivity.
  - reflexivity.
Qed.

Lemma native_int_runs call s0 w0 :
  exists v, native_int call s0 w0 = Ret v s0 (after call w0).
Proof. eexists. reflexivity. Qed.

Lemma native_int64_runs call s0 w0 :
  exists v, native_int64 call s0 w0 = Ret v s0 (after call w0).
Proof. eexists. reflexivity. Qed.

Lemma isTypeMismatch_mismatch source target s :
  isTypeMismatch (mismatch source target s) = true.
Proof. reflexivity. Qed.

Lemma mismatch_if_TypeMismatch s source target cls :
  (exists e, mismatch_if s source target cls = Some e /\ isTypeMismatch e = true) <->
  CheckTypeMismatch s = true /\ spec_lossy source cls = true.
Proof.
  unfold mismatch_if.
  destruct (CheckTypeMismatch s), (spec_lossy source cls); simpl; split.
  all: try (intros [e [H _]]; discriminate).
  all: try (intros [? ?]; discriminate).
  - intros _. split; reflexivity.
  - intros _. eexists. split; [reflexivity | apply isTypeMismatch_mismatch].
Qed.

Lemma mismatch_if_None s source target cls :
  mismatch_if s source target cls = None ->
  ~ (CheckTypeMismatch s = true /\ spec_lossy source cls = true).
Proof.
  intros H [H1 H2]. unfold mismatch_if in H. rewrite H1, H2 in H. discriminate.
Qed.

Lemma mismatch_if_Some s source target cls e :
  mismatch_if s source target cls = Some e ->
  isTypeMismatch e = true /\ CheckTypeMismatch s = true /\ spec_lossy source cls = true.
Proof.
  unfold mismatch_if.
  destruct (CheckTypeMismatch s), (spec_lossy source cls); simpl; intros H;
    try discriminate.
  injection H as <-. repeat split.
Qed.

Lemma policy_scan_integer {A} (zero : A) column get conv :
  (forall call s0 w0, exists v, get call s0 w0 = Ret v s0 (after call w0)) ->
  policy_scan (scan_integer zero column get conv) Integer IntegerFamily.
Proof.
  intros Hget index s w Hnn.
  destruct (scan_integer_eq zero column get conv index s w Hget Hnn) as [v [_ Hs]].
  eauto.
Qed.

Lemma policy_ScanDouble : policy_scan ScanDouble Float FloatDest.
Proof. intros index s w Hnn. rewrite ScanDouble_eq by assumption. eauto. Qed.

Lemma scan_to_policy {A} scan (cell : A -> Cell) target cls index value s w :
  policy_scan scan target cls ->
  storage_class s w index <> Null ->
  returns_TypeMismatch (scan_to scan cell index value s w) <->
  CheckTypeMismatch s = true /\ spec_lossy (storage_class s w index) cls = true.
Proof.
  intros Hp Hnn. destruct (Hp index s w Hnn) as [x [w' Hs]].
  unfold scan_to. run. rewrite Hs. cbn.
  destruct (mismatch_if s (storage_class s w index) target cls) eqn:Hm.
  - apply mismatch_if_Some in Hm. tauto.
  - apply mismatch_if_None in Hm. tauto.
Qed.

Lemma scan_through_policy {A} scan (cell : A -> Cell) target cls index value s w :
  policy_scan scan target cls ->
  storage_class s w index <> Null ->
  returns_TypeMismatch (scan_through scan cell index value s w) <->
  CheckTypeMismatch s = true /\ spec_lossy (storage_class s w index) cls = true.
Proof.
  intros Hp Hnn. destruct (Hp index s w Hnn) as [x [w' Hs]].
  unfold scan_through, store_through. run. rewrite Hs. cbn.
  destruct (mismatch_if s (storage_class s w index) target cls) eqn:Hm.
  - apply mismatch_if_Some in Hm. cbn. tauto.
  - apply mismatch_if_None in Hm. cbn.
    destruct (heap w' !! value) as [[]|]; cbn; try tauto.
    destruct p; cbn; tauto.
Qed.

Lemma ScanReflect_policy index value s w :
  storage_class s w index <> Null ->
  returns_TypeMismatch (ScanReflect index value s w) <->
  CheckTypeMismatch s = true /\
  spec_lossy (storage_class s w index) (dest_class (d_other value)) = true.
Proof.
  intros Hnn.
  assert (Hother : forall r : Res (bool * option error),
             ~ returns_TypeMismatch r ->
             returns_TypeMismatch r <->
             CheckTypeMismatch s = true /\ spec_lossy (storage_class s w index) OtherDest = true).
  { intros r Hr. cbn. split; [tauto | intros [_ H]; discriminate]. }
  destruct value; try (apply Hother; cbn; discriminate).
  match goal with k : Kind |- _ => destruct k end; cbn [dest_class ScanReflect].
  - apply Hother. unfold ScanText. run. destruct (ret_text _ _ _); cbn; tauto.
  - destruct (policy_scan_integer 0 sqlite3_column_int64 native_int64 int64
                native_int64_runs index s w Hnn) as [x [w' Hs]].
    unfold ScanInt64, bind. rewrite Hs. run. cbn.
    destruct (mismatch_if s (storage_class s w index) Integer IntegerFamily) eqn:Hm; cbn.
    + apply mismatch_if_Some in Hm. tauto.
    + apply mismatch_if_None in Hm. tauto.
  - destruct (policy_scan_integer 0 sqlite3_column_int64 native_int64 int64
                native_int64_runs index s w Hnn) as [x [w' Hs]].
    unfold ScanInt64, bind. rewrite Hs. run. cbn.
    destruct (mismatch_if s (storage_class s w index) Integer IntegerFamily) eqn:Hm; cbn.
    + apply mismatch_if_Some in Hm. tauto.
    + apply mismatch_if_None in Hm. destruct (x <? 0); cbn; split; try tauto; discriminate.
  - destruct (policy_scan_integer false sqlite3_column_int native_int (fun v => v =? 1)
                native_int_runs index s w Hnn) as [x [w' Hs]].
    unfold ScanBool, bind. rewrite Hs. run. cbn.
    destruct (mismatch_if s (storage_class s w index) Integer IntegerFamily) eqn:Hm; cbn.
    + apply mismatch_if_Some in Hm. tauto.
    + apply mismatch_if_None in Hm. tauto.
  - unfold bind. rewrite ScanDouble_eq by assumption. run. cbn.
    destruct (mismatch_if s (storage_class s w index) Float FloatDest) eqn:Hm; cbn.
    + apply mismatch_if_Some in Hm. tauto.
    + apply mismatch_if_None in Hm. tauto.
  - apply Hother. cbn. discriminate.
Qed.

(** C1.  The type-mismatch policy.  A scan of a non-Null column returns a
    TypeMismatch error exactly when the statement's [CheckTypeMismatch] flag
    is enabled and the pair (source storage class, destination) is lossy as
    the specification lists the pairs: Float, Text or Blob into an
    integer-family destination, Text or Blob into a float destination;
    Integer into a float destination and every other pair pass.  With the
    flag disabled each numeric scan returns no error and the value that the
    engine's column function gives (its native coercion). *)
Theorem type_mismatch_policy (index : Z) (value : Dest) (s : Stmt) (w : World) :
  storage_class s w index <> Null ->
  (returns_TypeMismatch (ScanByIndex index value s w) <->
   CheckTypeMismatch s = true /\
   spec_lossy (storage_class s w index) (dest_class value) = true) /\
  spec_lossy Integer FloatDest = false /\
  (CheckTypeMismatch s = false ->
   let h := stmt s in
   let i := C_int index in
   let w1 := after (sqlite3_column_type h i) w in
   ScanInt index s w =
     Ret (int (answer_int w1 (sqlite3_column_int h i)), false, None) s
         (after (sqlite3_column_int h i) w1) /\
   ScanInt64 index s w =
     Ret (int64 (C_sqlite3_int64 (ret_int E (trace w1) (sqlite3_column_int64 h i))),
          false, None) s
         (after (sqlite3_column_int64 h i) w1) /\
   ScanByte index s w =
     Ret (byte (answer_int w1 (sqlite3_column_int h i)), false, None) s
         (after (sqlite3_column_int h i) w1) /\
   ScanBool index s w =
     Ret (answer_int w1 (sqlite3_column_int h i) =? 1, false, None) s
         (after (sqlite3_column_int h i) w1) /\
   ScanDouble index s w =
     Ret (ret_double E (trace w1) (sqlite3_column_double h i), false, None) s
         (after (sqlite3_column_double h i) w1)).
Proof.
  intros Hnn. split; [| split; [reflexivity |]].
  - assert (Hother : forall r : Res (bool * option error),
               ~ returns_TypeMismatch r ->
               returns_TypeMismatch r <->
               CheckTypeMismatch s = true /\
               spec_lossy (storage_class s w index) OtherDest = true).
    { intros r Hr. cbn. split; [tauto | intros [_ H]; discriminate]. }
    pose proof (policy_scan_integer 0 sqlite3_column_int native_int int native_int_runs)
      as HInt.
    pose proof (policy_scan_integer 0 sqlite3_column_int64 native_int64 int64
                  native_int64_runs) as HInt64.
    pose proof (policy_scan_integer 0 sqlite3_column_int native_int byte native_int_runs)
      as HByte.
    pose proof (policy_scan_integer false sqlite3_column_int native_int (fun v => v =? 1)
                  native_int_runs) as HBool.
    destruct value; cbn [ScanByIndex dest_class];
      try (apply (scan_to_policy _ _ Integer IntegerFamily); assumption);
      try (apply (scan_through_policy _ _ Integer IntegerFamily); assumption);
      try (apply (scan_to_policy _ _ Float FloatDest); [apply policy_ScanDouble | assumption]);
      try (apply (scan_through_policy _ _ Float FloatDest);
           [apply policy_ScanDouble | assumption]);
      try (apply ScanReflect_policy; assumption);
      apply Hother.
    + cbn. tauto.
    + unfold ScanText. run. destruct (ret_text _ _ _); cbn; tauto.
    + unfold ScanText, store_through. run. destruct (ret_text _ _ _); cbn; try tauto.
      destruct (_ !! _) as [[]|]; cbn; try tauto. destruct p; cbn; tauto.
    + unfold ScanBlob. run. destruct (ret_blob _ _ _); cbn; tauto.
    + unfold ScanBlob, store_through. run. destruct (ret_blob _ _ _); cbn; try tauto.
      destruct (_ !! _) as [[]|]; cbn; try tauto. destruct p; cbn; tauto.
    + unfold scan_to, ScanTime. run.
      repeat match goal with
             | |- context [if ?b then _ else _] => destruct b; cbn
             end; try tauto.
      destruct (time_Parse _ _) as [t [e|]]; cbn; try tauto; discriminate.
    + unfold ScanValue. run.
      repeat match goal with
             | |- context [if ?b then _ else _] => destruct b; cbn
             end; try tauto.
      all: match goal with
           | |- context [option_map foreign_error ?x] => destruct x
           end; cbn; try tauto; discriminate.
    + unfold ScanValue. run.
      repeat match goal with
             | |- context [if ?b then _ else _] => destruct b; cbn
             end; tauto.
  - intros Hoff h i w1.
    destruct (scan_integer_eq 0 sqlite3_column_int native_int int index s w
                native_int_runs Hnn) as [v1 [Hv1 H1]].
    destruct (scan_integer_eq 0 sqlite3_column_int64 native_int64 int64 index s w
                native_int64_runs Hnn) as [v2 [Hv2 H2]].
    destruct (scan_integer_eq 0 sqlite3_column_int native_int byte index s w
                native_int_runs Hnn) as [v3 [Hv3 H3]].
    destruct (scan_integer_eq false sqlite3_column_int native_int (fun v => v =? 1) index s w
                native_int_runs Hnn) as [v4 [Hv4 H4]].
    unfold mismatch_if in *. rewrite Hoff in *. cbn [andb] in *.
    injection Hv1 as <-. injection Hv2 as <-. injection Hv3 as <-. injection Hv4 as <-.
    repeat split; try assumption.
    pose proof (ScanDouble_eq index s w Hnn) as H5.
    unfold mismatch_if in H5. rewrite Hoff in H5. exact H5.
Qed.

(** *** Null columns and double pointers *)









(** *** The layout of a text timestamp *)

Lemma sep_is_T_true txt : String.get 10 txt = Some "T"%char -> sep_is_T txt = true.
Proof. unfold sep_is_T. intros ->. reflexivity. Qed.

Lemma sep_is_T_space txt : String.get 10 txt = Some " "%char -> sep_is_T txt = false.
Proof. unfold sep_is_T. intros ->. reflexivity. Qed.

Lemma ScanTime_Text index s w txt :
  storage_class s w index = Text ->
  ret_text E (trace (after (sqlite3_column_type (stmt s) (C_int index)) w))
           (sqlite3_column_text (stmt s) (C_int index)) = Some txt ->
  ScanTime index s w =
  Ret (fst (time_Parse (ScanTime_layout txt) txt), false,
       option_map ParseErr (snd (time_Parse (ScanTime_layout txt) txt))) s
      (after (sqlite3_column_text (stmt s) (C_int index))
         (after (sqlite3_column_type (stmt s) (C_int index)) w)).
Proof.
  intros Ht Htxt. unfold ScanTime. unfold storage_class, answer_int, after in *.
  cbn [trace set_trace] in Htxt.
  run. rewrite Ht. cbn. rewrite Htxt. cbn.
  destruct (time_Parse _ _). reflexivity.
Qed.

(** C3.  A Text column scanned into a [time.Time] is parsed with the layout
    that [ScanTime_layout] chooses from the byte length of the text: 5, 8, 10
    and 12 select the time-only and date-only layouts; 16, 19 and 23 select a
    date and time layout, in its [T] variant when the character at offset 10
    is [T] and in its space variant when it is a space; every other length
    selects the full layout with fractional seconds and zone, again by the
    separator at offset 10.  "2020-01-02" parses to that date at midnight,
    and "2020-01-02T10:30:00" and "2020-01-02 10:30:00" parse to the same
    instant. *)
Theorem timestamp_layout_by_length (txt : string) :
  let n := String.length txt in
  (forall index s w,
      storage_class s w index = Text ->
      ret_text E (trace (after (sqlite3_column_type (stmt s) (C_int index)) w))
               (sqlite3_column_text (stmt s) (C_int index)) = Some txt ->
      exists w',
        ScanTime index s w =
        Ret (fst (time_Parse (ScanTime_layout txt) txt), false,
             option_map ParseErr (snd (time_Parse (ScanTime_layout txt) txt))) s w') /\
  (n = 5%nat -> ScanTime_layout txt = "15:04") /\
  (n = 8%nat -> ScanTime_layout txt = "15:04:05") /\
  (n = 10%nat -> ScanTime_layout txt = "2006-01-02") /\
  (n = 12%nat -> ScanTime_layout txt = "15:04:05.000") /\
  (String.get 10 txt = Some "T"%char ->
   (n = 16%nat -> ScanTime_layout txt = "2006-01-02T15:04") /\
   (n = 19%nat -> ScanTime_layout txt = "2006-01-02T15:04:05") /\
   (n = 23%nat -> ScanTime_layout txt = "2006-01-02T15:04:05.999") /\
   (~ In n [5; 8; 10; 12; 16; 19; 23]%nat ->
    ScanTime_layout txt = "2006-01-02T15:04:05.999Z07:00")) /\
  (String.get 10 txt <> Some "T"%char ->
   (n = 16%nat -> ScanTime_layout txt = "2006-01-02 15:04") /\
   (n = 19%nat -> ScanTime_layout txt = "2006-01-02 15:04:05") /\
   (n = 23%nat -> ScanTime_layout txt = "2006-01-02 15:04:05.999") /\
   (~ In n [5; 8; 10; 12; 16; 19; 23]%nat ->
    ScanTime_layout txt = "2006-01-02 15:04:05.999Z07:00")) /\
  time_Parse (ScanTime_layout "2020-01-02") "2020-01-02"
    = (time_Date 2020 1 2 0 0 0 0, None) /\
  secondsOfDay (time_Date 2020 1 2 0 0 0 0) = 0 /\
  time_Parse (ScanTime_layout "2020-01-02T10:30:00") "2020-01-02T10:30:00"
    = (time_Date 2020 1 2 10 30 0 0, None) /\
  time_Parse (ScanTime_layout "2020-01-02 10:30:00") "2020-01-02 10:30:00"
    = (time_Date 2020 1 2 10 30 0 0, None).
Proof.
  intros n.
  assert (Hlen : forall k : nat, n = k -> Z.of_nat (String.length txt) = Z.of_nat k).
  { intros k <-. reflexivity. }
  assert (HnT : String.get 10 txt <> Some "T"%char -> sep_is_T txt = false).
  { unfold sep_is_T. destruct (String.get 10 txt) as [ch|]; [|reflexivity].
    intros H. destruct (Ascii.eqb ch "T") eqn:He; [|reflexivity].
    apply Ascii.eqb_eq in He. subst. contradiction. }
  assert (Hdefault : ~ In n [5; 8; 10; 12; 16; 19; 23]%nat ->
            ScanTime_layout txt =
            if (10 <? Z.of_nat n) && sep_is_T txt
            then "2006-01-02T15:04:05.999Z07:00"%string
            else "2006-01-02 15:04:05.999Z07:00"%string).
  { intros Hnot. unfold ScanTime_layout. fold n.
    repeat match goal with
           | |- context [Z.of_nat n =? ?k] =>
               destruct (Z.eqb_spec (Z.of_nat n) k) as [Heq|_];
               [exfalso; apply Hnot; cbn; lia|]
           end.
    reflexivity. }
  assert (Hget : String.get 10 txt = Some "T"%char -> 10 < Z.of_nat n).
  { intros HT.
    assert (Hlt : (10 < String.length txt)%nat).
    { destruct (Nat.ltb_spec 10 (String.length txt)) as [Hl|Hl]; [exact Hl|].
      assert (Hg : String.get 10 txt = None).
      { clear HT Hlen HnT Hdefault. revert Hl. subst n. generalize 10%nat.
        induction txt as [|ch txt IH]; intros k Hk; [destruct k; reflexivity|].
        destruct k; cbn in *; [lia|]. apply IH. lia. }
      congruence. }
    subst n. lia. }
  split.
  { intros index s w Ht Htxt. eexists. apply ScanTime_Text; assumption. }
  split. { intros H. unfold ScanTime_layout. rewrite (Hlen _ H). reflexivity. }
  split. { intros H. unfold ScanTime_layout. rewrite (Hlen _ H). reflexivity. }
  split. { intros H. unfold ScanTime_layout. rewrite (Hlen _ H). reflexivity. }
  split. { intros H. unfold ScanTime_layout. rewrite (Hlen _ H). reflexivity. }
  split.
  { intros HT. pose proof (sep_is_T_true _ HT) as Hs.
    split; [|split; [|split]]; intros H.
    - unfold ScanTime_layout. rewrite (Hlen _ H), Hs. reflexivity.
    - unfold ScanTime_layout. rewrite (Hlen _ H), Hs. reflexivity.
    - unfold ScanTime_layout. rewrite (Hlen _ H), Hs. reflexivity.
    - rewrite (Hdefault H), Hs.
      destruct (Z.ltb_spec 10 (Z.of_nat n)); [reflexivity | specialize (Hget HT); lia]. }
  split.
  { intros HT. pose proof (HnT HT) as Hs.
    split; [|split; [|split]]; intros H.
    - unfold ScanTime_layout. rewrite (Hlen _ H), Hs. reflexivity.
    - unfold ScanTime_layout. rewrite (Hlen _ H), Hs. reflexivity.
    - unfold ScanTime_layout. rewrite (Hlen _ H), Hs. reflexivity.
    - rewrite (Hdefault H), Hs, andb_false_r. reflexivity. }
  split; [vm_compute; reflexivity|].
  split; [vm_compute; reflexivity|].
  split; vm_compute; reflexivity.
Qed.

(** *** Binding *)

Lemma sint_id w z : 0 < w -> - 2 ^ (w - 1) <= z < 2 ^ (w - 1) -> sint w z = z.
Proof.
  intros Hw Hz. unfold sint.
  assert (H2 : 2 ^ w = 2 * 2 ^ (w - 1)).
  { replace w with (Z.succ (w - 1)) at 1 by lia. rewrite Z.pow_succ_r by lia. reflexivity. }
  rewrite Z.mod_small by lia. lia.
Qed.

Lemma C_sqlite3_int64_id z : in_int64 z -> C_sqlite3_int64 z = z.
Proof.
  unfold in_int64, MaxInt64, C_sqlite3_int64. intros H. apply sint_id; [lia|].
  change (64 - 1) with 63. lia.
Qed.

(** [int64] and the integer kinds of [BindReflect] are bound in full. *)
Lemma BindByIndex_int64 index x s w :
  in_int64 x ->
  binds (BindByIndex index (V_int64 x)) (sqlite3_bind_int64 (stmt s) (C_int index) x) s w.
Proof.
  intros Hx. unfold binds. cbn [BindByIndex]. unfold bind_with. run.
  rewrite (C_sqlite3_int64_id x Hx). reflexivity.
Qed.

Lemma BindByIndex_reflect_Int index T x s w :
  in_int64 x ->
  binds (BindByIndex index (V_other T (r_Int x)))
        (sqlite3_bind_int64 (stmt s) (C_int index) x) s w.
Proof.
  intros Hx. unfold binds. cbn [BindByIndex BindReflect]. unfold bind_with. run.
  rewrite (C_sqlite3_int64_id x Hx). reflexivity.
Qed.

(** An unsigned value beyond the signed maximum is refused before any call. *)
Lemma BindByIndex_reflect_Uint_overflow index T ui s w :
  MaxInt64 < ui ->
  exists e, BindByIndex index (V_other T (r_Uint ui)) s w = Ret (Some e) s w /\
            e = StmtError {| ce_c := c s; code := ErrSpecific;
                             msg := Sprintf "int overflow" []; details := EmptyString |} s.
Proof.
  intros H. cbn [BindByIndex BindReflect].
  destruct (Z.ltb_spec MaxInt64 ui); [|lia]. eexists. split; reflexivity.
Qed.

Lemma BindByIndex_reflect_Uint index T ui s w :
  0 <= ui <= MaxInt64 ->
  binds (BindByIndex index (V_other T (r_Uint ui)))
        (sqlite3_bind_int64 (stmt s) (C_int index) ui) s w.
Proof.
  intros H. unfold binds. cbn [BindByIndex BindReflect].
  destruct (Z.ltb_spec MaxInt64 ui); [lia|]. unfold bind_with. run.
  rewrite C_sqlite3_int64_id; [reflexivity|]. unfold in_int64, MaxInt64 in *. lia.
Qed.

(** The other integer types: the signed ones are bound as their 64-bit value,
    the unsigned ones too up to the signed maximum, beyond which the bind is
    refused. *)
Lemma bind_sized_integers index x s w :
  let h := stmt s in
  let i := C_int index in
  (in_int64 x ->
   binds (BindByIndex index (V_int64 x)) (sqlite3_bind_int64 h i x) s w /\
   binds (BindByIndex index (V_int8 x)) (sqlite3_bind_int64 h i x) s w /\
   binds (BindByIndex index (V_int16 x)) (sqlite3_bind_int64 h i x) s w /\
   binds (BindByIndex index (V_int32 x)) (sqlite3_bind_int64 h i x) s w) /\
  (0 <= x <= MaxInt64 ->
   binds (BindByIndex index (V_uint x)) (sqlite3_bind_int64 h i x) s w /\
   binds (BindByIndex index (V_uint16 x)) (sqlite3_bind_int64 h i x) s w /\
   binds (BindByIndex index (V_uint32 x)) (sqlite3_bind_int64 h i x) s w /\
   binds (BindByIndex index (V_uint64 x)) (sqlite3_bind_int64 h i x) s w) /\
  (MaxInt64 < x ->
   exists e, BindByIndex index (V_uint64 x) s w = Ret (Some e) s w /\
             error_format e = Some "int overflow"%string).
Proof.
  intros h i. split; [|split].
  - intros Hx. split; [apply BindByIndex_int64; exact Hx|].
    repeat split; apply BindByIndex_reflect_Int; exact Hx.
  - intros Hx. repeat split; apply BindByIndex_reflect_Uint; exact Hx.
  - intros Hx.
    destruct (BindByIndex_reflect_Uint_overflow index "uint64" x s w Hx) as [e [He ->]].
    eexists. split; [exact He | reflexivity].
Qed.

(** C4, at the failing input.  A Go [int] is bound through [sqlite3_bind_int]
    after a conversion to C's 32-bit [int]: the 64-bit value 4294967301
    (2^32 + 5) reaches the engine as 5. *)
Theorem BindByIndex_int_truncated (index : Z) (s : Stmt) (w : World) :
  in_int64 4294967301 /\
  binds (BindByIndex index (V_int 4294967301))
        (sqlite3_bind_int (stmt s) (C_int index) 5) s w /\
  bound_value (sqlite3_bind_int (stmt s) (C_int index) 5) = Some (SInteger 5) /\
  SInteger 5 <> SInteger 4294967301.
Proof.
  split; [unfold in_int64, MaxInt64; lia|].
  split; [reflexivity|]. split; [reflexivity | discriminate].
Qed.

(** C8.  A [string] bound by [BindByIndex]: with the null-if-empty policy
    enabled and a string of length zero the call is [sqlite3_bind_null], so
    the engine stores Null; otherwise the call is the text bind with the
    string and its byte length, so the engine stores Text of that length; in
    particular with the policy disabled the empty string is stored as Text of
    length 0. *)
Theorem bind_string_policy (index : Z) (x : string) (s : Stmt) (w : World) :
  let h := stmt s in
  let i := C_int index in
  let n := Z.of_nat (String.length x) in
  (NullIfEmptyString w = true -> n = 0 ->
   binds (BindByIndex index (V_string x)) (sqlite3_bind_null h i) s w /\
   bound_value (sqlite3_bind_null h i) = Some SNull) /\
  (NullIfEmptyString w = false \/ n <> 0 ->
   binds (BindByIndex index (V_string x)) (my_bind_text h i x (C_int n)) s w /\
   bound_value (my_bind_text h i x (C_int n)) = Some (SText x (C_int n)) /\
   (n < 2 ^ 31 -> C_int n = n)) /\
  (NullIfEmptyString w = false ->
   binds (BindByIndex index (V_string EmptyString)) (my_bind_text h i EmptyString 0) s w /\
   bound_value (my_bind_text h i EmptyString 0) = Some (SText EmptyString 0)).
Proof.
  intros h i n. split; [|split].
  - intros Hp Hn. split; [|reflexivity].
    unfold binds. cbn [BindByIndex]. run. rewrite Hp.
    assert (String.length x = 0%nat) as -> by (subst n; lia). reflexivity.
  - intros Hor. split; [|split; [reflexivity|]].
    + unfold binds. cbn [BindByIndex]. run.
      assert ((NullIfEmptyString w && (String.length x =? 0)%nat) = false) as ->.
      { destruct Hor as [-> | Hn]; [reflexivity|].
        destruct (Nat.eqb_spec (String.length x) 0); [subst n; lia|].
        apply andb_false_r. }
      reflexivity.
    + intros Hlt. unfold C_int. apply sint_id; [lia|]. subst n.
      change (32 - 1) with 31. lia.
  - intros Hp. split; [|reflexivity].
    unfold binds. cbn [BindByIndex]. run. rewrite Hp. reflexivity.
Qed.

(** *** Stepping *)

Lemma calls_since_after1 w c1 : calls_since w (after c1 w) = [c1].
Proof.
  unfold calls_since, after. cbn [trace set_trace length].
  replace (S (length (trace w)) - length (trace w))%nat with 1%nat by lia.
  reflexivity.
Qed.

Lemma calls_since_after2 w c1 c2 : calls_since w (after c2 (after c1 w)) = [c1; c2].
Proof.
  unfold calls_since, after. cbn [trace set_trace length].
  replace (S (S (length (trace w))) - length (trace w))%nat with 2%nat by lia.
  reflexivity.
Qed.

Lemma calls_since_after3 w c1 c2 c3 :
  calls_since w (after c3 (after c2 (after c1 w))) = [c1; c2; c3].
Proof.
  unfold calls_since, after. cbn [trace set_trace length].
  replace (S (S (S (length (trace w)))) - length (trace w))%nat with 3%nat by lia.
  reflexivity.
Qed.

(** C7.  [Next] steps the statement once.  When the engine reports a row it
    returns true and does not reset.  When the engine reports completion it
    resets the statement (the only other call; the receiver, with its cached
    metadata, is unchanged and the bindings are not cleared) and returns
    false without error.  On any other result code of the step (a code other
    than SQLITE_OK, which a step never gives) it resets and returns the code
    wrapped in a [StmtError] that carries the statement, hence its SQL
    text. *)
Theorem Next_step (s : Stmt) (w : World) :
  let h := stmt s in
  let rv := answer_int w (sqlite3_step h) in
  let w1 := after (sqlite3_step h) w in
  let w2 := after (sqlite3_reset h) w1 in
  (rv = SQLITE_ROW ->
   Next s w = Ret (true, None) s w1 /\ calls_since w w1 = [sqlite3_step h]) /\
  (rv = SQLITE_DONE ->
   Next s w = Ret (false, None) s w2 /\
   calls_since w w2 = [sqlite3_step h; sqlite3_reset h]) /\
  (rv <> SQLITE_ROW -> rv <> SQLITE_DONE -> rv <> SQLITE_OK ->
   forall cp, c s = Some cp ->
   let d := db (conns w cp) in
   let e := StmtError {| ce_c := c s; code := rv;
                         msg := EngineText (C_GoString (ret_text E (trace w2) (sqlite3_errmsg d)));
                         details := "Stmt.Next" |} s in
   Next s w = Ret (false, Some e) s (after (sqlite3_errmsg d) w2) /\
   calls_since w (after (sqlite3_errmsg d) w2)
     = [sqlite3_step h; sqlite3_reset h; sqlite3_errmsg d] /\
   error_stmt e = Some s /\
   StmtError_SQL e = on_other s SQL).
Proof.
  intros h rv w1 w2. subst h rv w1 w2. unfold answer_int.
  split; [|split].
  - intros Hrv. split; [|apply calls_since_after1].
    unfold Next. run. unfold Errno, Row. rewrite Hrv. reflexivity.
  - intros Hrv. split; [|apply calls_since_after2].
    unfold Next. run. unfold Errno, Row, Done. rewrite Hrv. reflexivity.
  - intros Hrow Hdone Hok cp Hc.
    split; [|split; [apply calls_since_after3 | split; reflexivity]].
    unfold Next, Stmt_error. run. unfold Row, Done, Errno.
    apply Z.eqb_neq in Hrow, Hdone, Hok. rewrite Hrow, Hdone, Hok. cbn.
    destruct s; cbn in *. subst. reflexivity.
Qed.

(** *** What a run adds to the trace *)

Lemma extends_refl P w : extends P w w.
Proof. exists []. split; reflexivity. Qed.

Lemma extends_trans P w1 w2 w3 : extends P w1 w2 -> extends P w2 w3 -> extends P w1 w3.
Proof.
  intros [a1 [H1 F1]] [a2 [H2 F2]]. exists (a2 ++ a1). split.
  - rewrite H2, H1. apply app_assoc.
  - rewrite forallb_app, F1, F2. reflexivity.
Qed.

Lemma extends_after P call w : P call = true -> extends P w (after call w).
Proof. intros H. exists [call]. split; [reflexivity|]. cbn. rewrite H. reflexivity. Qed.

Lemma extends_calls_since P w w' :
  extends P w w' -> forallb P (calls_since w w') = true.
Proof.
  intros [added [Ht Hf]]. unfold calls_since. rewrite Ht, length_app.
  replace (length added + length (trace w) - length (trace w))%nat
    with (length added) by lia.
  rewrite take_app_length. rewrite forallb_forall in *.
  intros x Hx. apply Hf. apply in_rev. exact Hx.
Qed.

Lemma traced_ret P {A} (a : A) : traced P (ret a).
Proof. intros s w a' s' w' H. injection H as <- <- <-. apply extends_refl. Qed.

Lemma traced_panic P {A} r : traced P (@panic A r).
Proof. intros s w a' s' w' H. discriminate. Qed.

Lemma traced_bind P {A B} (m : M A) (k : A -> M B) :
  traced P m -> (forall a, traced P (k a)) -> traced P (bind m k).
Proof.
  intros Hm Hk s w b s' w' H. unfold bind in H.
  destruct (m s w) as [a s1 w1|] eqn:Hr; [|discriminate].
  eapply extends_trans; [eapply Hm; eassumption | eapply Hk; eassumption].
Qed.

Lemma traced_native P {A} (f : Engine -> list NativeCall -> NativeCall -> A) call :
  P call = true -> traced P (native f call).
Proof.
  intros HP s w a s' w' H. unfold native in H. injection H as <- <- <-.
  apply (extends_after P call w HP).
Qed.

Lemma traced_this P : traced P this.
Proof. intros s w a s' w' H. injection H as <- <- <-. apply extends_refl. Qed.

Lemma traced_world P : traced P world.
Proof. intros s w a s' w' H. injection H as <- <- <-. apply extends_refl. Qed.

Lemma traced_update P f : traced P (update f).
Proof. intros s w a s' w' H. injection H as <- <- <-. apply extends_refl. Qed.

Lemma traced_s_c_db P : traced P s_c_db.
Proof.
  intros s w a s' w' H. unfold s_c_db in H. destruct (c s); [|discriminate].
  injection H as <- <- <-. apply extends_refl.
Qed.

(** Decomposition of a run along the structure of the program. *)
Ltac traced_step :=
  first
    [ apply traced_ret | apply traced_panic | apply traced_this | apply traced_world
    | apply traced_update | apply traced_s_c_db
    | apply traced_native; reflexivity
    | apply traced_bind; [|intros]
    | match goal with
      | |- traced _ (if ?b then _ else _) => destruct b
      | |- traced _ (match ?x with _ => _ end) => destruct x
      end ].

Lemma traced_Stmt_error rv details : traced not_rowid (Stmt_error rv details).
Proof. unfold Stmt_error. repeat traced_step. Qed.

Lemma traced_bind_with call :
  (forall h, not_rowid (call h) = true) -> traced not_rowid (bind_with call).
Proof.
  intros H. unfold bind_with, native_int.
  apply traced_bind; [apply traced_this|]. intros s.
  apply traced_bind.
  - apply traced_bind; [apply traced_native; apply H | intros; apply traced_ret].
  - intros. apply traced_Stmt_error.
Qed.

Lemma traced_BindReflect index value r : traced not_rowid (BindReflect index value r).
Proof.
  unfold BindReflect, fail, specificError, BindParameterName, native_int.
  destruct r; try (apply traced_bind_with; reflexivity).
  - destruct (MaxInt64 <? v); [repeat traced_step | apply traced_bind_with; reflexivity].
  - repeat traced_step.
Qed.

Lemma traced_BindByIndex index value : traced not_rowid (BindByIndex index value).
Proof.
  induction value; cbn [BindByIndex];
    try (apply traced_bind_with; reflexivity);
    try assumption.
  - apply traced_bind; [apply traced_world | intros w0].
    destruct (_ && _); apply traced_bind_with; reflexivity.
  - apply traced_bind; [apply traced_world | intros w0].
    destruct (_ && _); apply traced_bind_with; reflexivity.
  - apply traced_ret.
  - apply traced_BindReflect.
Qed.

Lemma traced_Bind_range args : forall i, traced not_rowid (Bind_range i args).
Proof.
  induction args as [|v rest IH]; intros i; cbn [Bind_range]; [apply traced_ret|].
  apply traced_bind; [apply traced_BindByIndex|]. intros [e|]; [apply traced_ret | apply IH].
Qed.

Lemma traced_BindParameterCount : traced not_rowid BindParameterCount.
Proof. unfold BindParameterCount, native_int. repeat traced_step. Qed.

Lemma traced_Bind args : traced not_rowid (Bind args).
Proof.
  unfold Bind, fail, specificError.
  apply traced_bind; [apply traced_BindParameterCount | intros n].
  destruct (negb _); [repeat traced_step | apply traced_Bind_range].
Qed.

Lemma traced_Exec args : traced not_rowid (Exec args).
Proof.
  unfold Exec, exec, native_int.
  apply traced_bind; [apply traced_Bind | intros [e|]]; [apply traced_ret|].
  apply traced_bind; [apply traced_this | intros s].
  apply traced_bind; [repeat traced_step | intros rv].
  apply traced_bind; [repeat traced_step | intros x].
  destruct (negb _); [apply traced_Stmt_error | apply traced_ret].
Qed.

(** C10.  When the execution under [Insert] succeeds and the connection
    reports zero changed rows, [Insert] returns rowid -1 with no error, and
    no call of the whole run reads the last inserted rowid; when the count is
    not zero the rowid is read from the connection after the count. *)
Theorem Insert_without_change (args : list HostValue) (s : Stmt) (w : World)
    (s1 : Stmt) (w1 : World) (cp : connptr) :
  Exec args s w = Ret None s1 w1 ->
  c s1 = Some cp ->
  let d := db (conns w1 cp) in
  let n := int (answer_int w1 (sqlite3_changes d)) in
  let w2 := after (sqlite3_changes d) w1 in
  (n = 0 ->
   Insert args s w = Ret (-1, None) s1 w2 /\
   forallb not_rowid (calls_since w w2) = true) /\
  (n <> 0 ->
   Insert args s w =
   Ret (int64 (C_sqlite3_int64 (ret_int E (trace w2) (sqlite3_last_insert_rowid d))), None)
       s1 (after (sqlite3_last_insert_rowid d) w2)).
Proof.
  intros Hexec Hc d n w2. subst d n w2. unfold answer_int.
  assert (HDml : ExecDml args s w =
                 Ret (int (C_int (ret_int E (trace w1)
                                    (sqlite3_changes (db (conns w1 cp))))), None)
                     s1 (after (sqlite3_changes (db (conns w1 cp))) w1)).
  { unfold ExecDml, bind. rewrite Hexec. unfold Changes. run. rewrite Hc. reflexivity. }
  split.
  - intros Hn. split.
    + unfold Insert, bind. rewrite HDml. rewrite Hn. reflexivity.
    + apply extends_calls_since.
      eapply extends_trans; [eapply traced_Exec; eassumption|].
      apply extends_after. reflexivity.
  - intros Hn. unfold Insert, bind. rewrite HDml. apply Z.eqb_neq in Hn. rewrite Hn.
    unfold LastInsertRowid. run. rewrite Hc. reflexivity.
Qed.

(** *** Local errors *)

Lemma traced_ColumnIndex_fill n : forall i, traced shape_query (ColumnIndex_fill n i).
Proof.
  induction n as [|n IH]; intros i; cbn [ColumnIndex_fill]; [apply traced_ret|].
  unfold ColumnName.
  apply traced_bind; [repeat traced_step|]. intros name.
  apply traced_bind; [apply traced_update|]. intros _. apply IH.
Qed.

Lemma traced_ColumnIndex name : traced shape_query (ColumnIndex name).
Proof.
  unfold ColumnIndex, ColumnCount, specificError, native_int.
  apply traced_bind; [apply traced_this | intros s].
  apply traced_bind.
  - destruct (cols s); [apply traced_ret|].
    apply traced_bind; [repeat traced_step | intros count].
    apply traced_bind; [apply traced_update | intros _].
    apply traced_ColumnIndex_fill.
  - intros _. repeat traced_step.
Qed.

Lemma traced_BindParameterIndex name : traced shape_query (BindParameterIndex name).
Proof.
  unfold BindParameterIndex, BindParameterCount, specificError, native_int.
  repeat traced_step.
Qed.

(** C6, as amended.  An arity mismatch of [Bind] or [Scan] is returned
    before any parameter is bound or column read: with no native call when
    the count is cached, after the count query alone otherwise.  An
    unsupported scan type, and an unknown column name once the name map is
    built, are returned without any native call.  An unsupported bind type is
    returned after the query of the parameter's name alone.  An unknown
    parameter name is found by asking the engine for its index, which is 0.
    The lookups by name issue only queries of the statement's shape. *)
Theorem local_errors (s : Stmt) (w : World) :
  let h := stmt s in
  (forall args, bindParameterCount s <> -1 -> bindParameterCount s <> len args ->
     exists e, Bind args s w = Ret (Some e) s w /\
       error_format e = Some "incorrect argument count for Stmt.Bind: have %d want %d"%string) /\
  (forall args, columnCount s <> -1 -> columnCount s <> len args ->
     exists e, Scan args s w = Ret (Some e) s w /\
       error_format e = Some "incorrect argument count for Stmt.Scan: have %d want %d"%string) /\
  (forall args, bindParameterCount s = -1 ->
     let n := int (answer_int w (sqlite3_bind_parameter_count h)) in
     n <> len args ->
     exists e s' w', Bind args s w = Ret (Some e) s' w' /\
       calls_since w w' = [sqlite3_bind_parameter_count h] /\
       error_format e = Some "incorrect argument count for Stmt.Bind: have %d want %d"%string) /\
  (forall args, columnCount s = -1 ->
     let n := int (answer_int w (sqlite3_column_count h)) in
     n <> len args ->
     exists e s' w', Scan args s w = Ret (Some e) s' w' /\
       calls_since w w' = [sqlite3_column_count h] /\
       error_format e = Some "incorrect argument count for Stmt.Scan: have %d want %d"%string) /\
  (forall index v, unsupported_scan v = true ->
     exists e, ScanByIndex index (d_other v) s w = Ret (false, Some e) s w) /\
  (forall index T,
     exists e w', BindByIndex index (V_other T r_unsupported) s w = Ret (Some e) s w' /\
       calls_since w w' = [sqlite3_bind_parameter_name h (C_int index)] /\
       error_format e = Some "unsupported type in Bind: %T (index: %d, name: %q)"%string) /\
  (forall name m, cols s = Some m -> m !! name = None ->
     exists e, ColumnIndex name s w = Ret (-1, Some e) s w /\
       error_format e = Some "invalid column name: %s"%string) /\
  (forall name m, params s = Some m -> m !! name = None ->
     answer_int w (sqlite3_bind_parameter_index h name) = 0 ->
     exists e w', BindParameterIndex name s w = Ret (0, Some e) s w' /\
       calls_since w w' = [sqlite3_bind_parameter_index h name] /\
       error_format e = Some "invalid parameter name: %q"%string) /\
  (forall name, traced shape_query (ColumnIndex name)) /\
  (forall name, traced shape_query (BindParameterIndex name)) /\
  (forall call, shape_query call = true ->
     is_bind call = false /\ is_step call = false /\ is_column_read call = false).
Proof.
  intros h. subst h.
  split; [|split; [|split; [|split; [|split; [|split; [|split; [|split; [|split; [|split]]]]]]]]].
  - intros args H1 H2. apply Z.eqb_neq in H1, H2.
    unfold Bind, BindParameterCount. run. rewrite H1. cbn. rewrite H2. cbn.
    eexists. split; reflexivity.
  - intros args H1 H2. apply Z.eqb_neq in H1, H2.
    unfold Scan, ColumnCount. run. rewrite H1. cbn. rewrite H2. cbn.
    eexists. split; reflexivity.
  - intros args H1 n H2. subst n. unfold answer_int in *. apply Z.eqb_neq in H2.
    unfold Bind, BindParameterCount. run. rewrite H1. cbn. rewrite H2. cbn.
    do 3 eexists. split; [reflexivity|].
    split; [apply (calls_since_after1 w) | reflexivity].
  - intros args H1 n H2. subst n. unfold answer_int in *. apply Z.eqb_neq in H2.
    unfold Scan, ColumnCount. run. rewrite H1. cbn. rewrite H2. cbn.
    do 3 eexists. split; [reflexivity|].
    split; [apply (calls_since_after1 w) | reflexivity].
  - intros index v Hv. cbn [ScanByIndex].
    destruct v as [T|T|T k a]; try (eexists; reflexivity).
    destruct k; try discriminate. eexists; reflexivity.
  - intros index T. cbn [BindByIndex BindReflect]. unfold BindParameterName. run.
    destruct (ret_text E (trace w) _); cbn; do 2 eexists;
      (split; [reflexivity | split; [apply (calls_since_after1 w) | reflexivity]]).
  - intros name m Hc Hm. unfold ColumnIndex. run. rewrite Hc. cbn. rewrite Hc. cbn.
    rewrite Hm. eexists. split; reflexivity.
  - intros name m Hp Hm Hz. unfold answer_int in Hz.
    unfold BindParameterIndex. run. rewrite Hp. cbn. rewrite Hp. cbn. rewrite Hm.
    rewrite Hz. cbn. do 2 eexists.
    split; [reflexivity | split; [apply (calls_since_after1 w) | reflexivity]].
  - apply traced_ColumnIndex.
  - apply traced_BindParameterIndex.
  - intros call Hq. destruct call; try discriminate Hq; repeat split.
Qed.

(** *** Use after finalization *)

Lemma finalize_destroys s w s1 w1 :
  stmt s <> None ->
  finalize s w = Ret None s1 w1 ->
  closed s w = false /\
  answer_int w (sqlite3_finalize (stmt s)) = SQLITE_OK /\
  s1 = set_stmt None s /\
  w1 = after (sqlite3_finalize (stmt s)) w.
Proof.
  intros Hh. unfold finalize, Log, Stmt_error. run. unfold answer_int.
  destruct (stmt s) as [h|] eqn:Hs; [|contradiction].
  destruct (closed s w); [discriminate|].
  destruct (Z.eqb_spec (C_int (ret_int E (trace w) (sqlite3_finalize (Some h)))) SQLITE_OK)
    as [Hok|Hne]; cbn.
  - intros H. injection H as <- <-. repeat split. exact Hok.
  - destruct (c s); cbn; discriminate.
Qed.

(** C9, as amended.  After [finalize] has destroyed the native handle the
    statement's handle is nil.  A further [finalize], and [Finalize] of a
    statement that is not cacheable, return nil without any native call.
    [Next] passes the nil handle to the engine and returns what the engine
    answers: an error, the engine's code in a [StmtError], when that code is
    neither Row nor Done (nor SQLITE_OK); no error when the engine answers
    Done.  No operation tests the handle itself. *)
Theorem after_finalize (s : Stmt) (w : World) (s1 : Stmt) (w1 : World) :
  stmt s <> None ->
  finalize s w = Ret None s1 w1 ->
  stmt s1 = None /\
  calls_since w w1 = [sqlite3_finalize (stmt s)] /\
  (forall w2, finalize s1 w2 = Ret None s1 w2) /\
  (forall w2, Cacheable s1 = false -> Finalize s1 w2 = Ret None s1 w2) /\
  (forall w2,
     let rv := answer_int w2 (sqlite3_step None) in
     let w3 := after (sqlite3_reset None) (after (sqlite3_step None) w2) in
     (rv = SQLITE_DONE -> Next s1 w2 = Ret (false, None) s1 w3) /\
     (rv <> SQLITE_ROW -> rv <> SQLITE_DONE -> rv <> SQLITE_OK ->
      forall cp, c s1 = Some cp ->
      let d := db (conns w2 cp) in
      Next s1 w2 =
      Ret (false,
           Some (StmtError {| ce_c := c s1; code := rv;
                              msg := EngineText (C_GoString
                                       (ret_text E (trace w3) (sqlite3_errmsg d)));
                              details := "Stmt.Next" |} s1))
          s1 (after (sqlite3_errmsg d) w3))).
Proof.
  intros Hh Hf. destruct (finalize_destroys s w s1 w1 Hh Hf) as [Hcl [Hok [-> ->]]].
  split; [reflexivity|]. split; [apply calls_since_after1|].
  split; [intros w2; reflexivity|].
  split.
  - intros w2 Hc. unfold Finalize. run. cbn [Cacheable set_stmt] in *. rewrite Hc.
    reflexivity.
  - intros w2 rv w3. subst rv w3. unfold answer_int. split.
    + intros Hrv. unfold Next. run. unfold Row, Done, Errno.
      cbn [stmt set_stmt]. rewrite Hrv. reflexivity.
    + intros Hrow Hdone Hnok cp Hc.
      unfold Next, Stmt_error. run. unfold Row, Done, Errno. cbn [stmt set_stmt].
      apply Z.eqb_neq in Hrow, Hdone, Hnok. rewrite Hrow, Hdone, Hnok. cbn.
      destruct s; cbn in *. subst. reflexivity.
Qed.

(** *** The cache and finalization *)



Lemma bind_inv {A B} (m : M A) (k : A -> M B) s w b s' w' :
  bind m k s w = Ret b s' w' ->
  exists a s1 w1, m s w = Ret a s1 w1 /\ k a s1 w1 = Ret b s' w'.
Proof.
  unfold bind. destruct (m s w) as [a s1 w1|]; [|discriminate]. eauto.
Qed.





























(** ** Further properties *)

(** *** What binding and stepping leave alone *)

Lemma frame_refl s w : frame s w s w.
Proof. repeat split. Qed.

Lemma frame_trans s1 w1 s2 w2 s3 w3 :
  frame s1 w1 s2 w2 -> frame s2 w2 s3 w3 -> frame s1 w1 s3 w3.
Proof.
  unfold frame. intros H1 H2.
  destruct H1 as (?&?&?&?&?&?&?&?&?), H2 as (?&?&?&?&?&?&?&?&?).
  repeat split; congruence.
Qed.

Lemma framed_ret {A} (a : A) : framed (ret a).
Proof. intros s w a' s' w' H. injection H as <- <- <-. apply frame_refl. Qed.

Lemma framed_panic {A} r : framed (@panic A r).
Proof. intros s w a' s' w' H. discriminate. Qed.

Lemma framed_bind {A B} (m : M A) (k : A -> M B) :
  framed m -> (forall a, framed (k a)) -> framed (bind m k).
Proof.
  intros Hm Hk s w b s' w' H. apply bind_inv in H as [a [s1 [w1 [H1 H2]]]].
  eapply frame_trans; [eapply Hm; eassumption | eapply Hk; eassumption].
Qed.

Lemma framed_native {A} (f : Engine -> list NativeCall -> NativeCall -> A) call :
  framed (native f call).
Proof. intros s w a s' w' H. injection H as <- <- <-. repeat split. Qed.

Lemma framed_this : framed this.
Proof. intros s w a s' w' H. injection H as <- <- <-. apply frame_refl. Qed.

Lemma framed_world : framed world.
Proof. intros s w a s' w' H. injection H as <- <- <-. apply frame_refl. Qed.

Lemma framed_update f :
  (forall s, stmt (f s) = stmt s /\ c (f s) = c s /\ tail (f s) = tail s /\
             CheckTypeMismatch (f s) = CheckTypeMismatch s /\
             Cacheable (f s) = Cacheable s) ->
  framed (update f).
Proof.
  intros Hf s w a s' w' H. injection H as <- <- <-.
  destruct (Hf s) as (?&?&?&?&?). repeat split; assumption.
Qed.

Lemma framed_s_c_db : framed s_c_db.
Proof.
  intros s w a s' w' H. unfold s_c_db in H. destruct (c s); [|discriminate].
  injection H as <- <- <-. apply frame_refl.
Qed.

Ltac framed_step :=
  first
    [ apply framed_ret | apply framed_panic | apply framed_this | apply framed_world
    | apply framed_s_c_db | apply framed_native
    | apply framed_update; intros; repeat split
    | apply framed_bind; [|intros]
    | match goal with
      | |- framed (if ?b then _ else _) => destruct b
      | |- framed (match ?x with _ => _ end) => destruct x
      end ].

Lemma framed_Stmt_error rv details : framed (Stmt_error rv details).
Proof. unfold Stmt_error. repeat framed_step. Qed.

Lemma framed_fail format a : framed (fail format a).
Proof. unfold fail, specificError. repeat framed_step. Qed.

Lemma framed_bind_with call : framed (bind_with call).
Proof.
  unfold bind_with, native_int.
  apply framed_bind; [apply framed_this | intros s].
  apply framed_bind; [repeat framed_step | intros; apply framed_Stmt_error].
Qed.

Lemma framed_BindByIndex index value : framed (BindByIndex index value).
Proof.
  induction value; cbn [BindByIndex]; try apply framed_bind_with; try assumption.
  - apply framed_bind; [apply framed_world | intros w0].
    destruct (_ && _); apply framed_bind_with.
  - apply framed_bind; [apply framed_world | intros w0].
    destruct (_ && _); apply framed_bind_with.
  - apply framed_ret.
  - unfold BindReflect, BindParameterName.
    destruct r; try apply framed_bind_with.
    + destruct (MaxInt64 <? v); [apply framed_fail | apply framed_bind_with].
    + apply framed_bind; [|intros; apply framed_fail].
      unfold specificError. repeat framed_step.
Qed.

Lemma framed_Bind_range args : forall i, framed (Bind_range i args).
Proof.
  induction args as [|v rest IH]; intros i; cbn [Bind_range]; [apply framed_ret|].
  apply framed_bind; [apply framed_BindByIndex|].
  intros [e|]; [apply framed_ret | apply IH].
Qed.

Lemma framed_BindParameterCount : framed BindParameterCount.
Proof. unfold BindParameterCount, native_int. repeat framed_step. Qed.

Lemma framed_Bind args : framed (Bind args).
Proof.
  unfold Bind.
  apply framed_bind; [apply framed_BindParameterCount | intros n].
  destruct (negb _); [apply framed_fail | apply framed_Bind_range].
Qed.

Lemma framed_BindParameterIndex name : framed (BindParameterIndex name).
Proof.
  unfold BindParameterIndex, specificError, native_int.
  apply framed_bind; [apply framed_this | intros s].
  apply framed_bind.
  - destruct (params s); [apply framed_ret|].
    apply framed_bind; [apply framed_BindParameterCount | intros; repeat framed_step].
  - intros _. repeat framed_step.
Qed.

Lemma framed_NamedBind args : framed (NamedBind args).
Proof.
  unfold NamedBind. destruct (negb _); [apply framed_fail|].
  generalize 0. remember (length args) as n eqn:Hn.
  assert (Hle : (length args <= n)%nat) by lia. clear Hn. revert args Hle.
  induction n as [|n IH]; intros args Hle i.
  - destruct args; [apply framed_ret | cbn in Hle; lia].
  - destruct args as [|name [|v rest]]; cbn [NamedBind_loop]; try apply framed_ret.
    destruct name; try apply framed_fail.
    apply framed_bind; [apply framed_BindParameterIndex|].
    intros [index [e|]]; [apply framed_ret|].
    apply framed_bind; [apply framed_BindByIndex|].
    intros [e|]; [apply framed_ret|]. apply IH. cbn in Hle. lia.
Qed.

Lemma framed_Next : framed Next.
Proof.
  unfold Next, native_int.
  apply framed_bind; [apply framed_this | intros s].
  apply framed_bind; [repeat framed_step | intros rv].
  destruct (_ =? _); [apply framed_ret|].
  apply framed_bind; [repeat framed_step | intros x].
  destruct (negb _); [|apply framed_ret].
  apply framed_bind; [apply framed_Stmt_error | intros; apply framed_ret].
Qed.

Lemma framed_Reset : framed Reset.
Proof.
  unfold Reset, native_int.
  apply framed_bind; [apply framed_this | intros s].
  apply framed_bind; [repeat framed_step | intros; apply framed_Stmt_error].
Qed.

Lemma framed_ClearBindings : framed ClearBindings.
Proof.
  unfold ClearBindings, native_int.
  apply framed_bind; [apply framed_this | intros s].
  apply framed_bind; [repeat framed_step | intros; apply framed_Stmt_error].
Qed.

Lemma framed_exec : framed exec.
Proof.
  unfold exec, native_int.
  apply framed_bind; [apply framed_this | intros s].
  apply framed_bind; [repeat framed_step | intros rv].
  apply framed_bind; [repeat framed_step | intros x].
  destruct (negb _); [apply framed_Stmt_error | apply framed_ret].
Qed.

Lemma framed_Exec args : framed (Exec args).
Proof.
  unfold Exec. apply framed_bind; [apply framed_Bind|].
  intros [e|]; [apply framed_ret | apply framed_exec].
Qed.

Lemma framed_ExecDml args : framed (ExecDml args).
Proof.
  unfold ExecDml, Changes, native_int. apply framed_bind; [apply framed_Exec|].
  intros [e|]; repeat framed_step.
Qed.

Lemma framed_Insert args : framed (Insert args).
Proof.
  unfold Insert, LastInsertRowid, native_int64.
  apply framed_bind; [apply framed_ExecDml|].
  intros [n [e|]]; [apply framed_ret|]. repeat framed_step.
Qed.

Lemma framed_ColumnCount : framed ColumnCount.
Proof. unfold ColumnCount, native_int. repeat framed_step. Qed.

Lemma framed_ColumnName i : framed (ColumnName i).
Proof. unfold ColumnName. repeat framed_step. Qed.

Lemma framed_ColumnIndex_fill n : forall i, framed (ColumnIndex_fill n i).
Proof.
  induction n as [|n IH]; intros i; cbn [ColumnIndex_fill]; [apply framed_ret|].
  apply framed_bind; [apply framed_ColumnName | intros name].
  apply framed_bind; [apply framed_update; intros; repeat split | intros _; apply IH].
Qed.

Lemma framed_ColumnIndex name : framed (ColumnIndex name).
Proof.
  unfold ColumnIndex, specificError.
  apply framed_bind; [apply framed_this | intros s].
  apply framed_bind.
  - destruct (cols s); [apply framed_ret|].
    apply framed_bind; [apply framed_ColumnCount | intros count].
    apply framed_bind; [apply framed_update; intros; repeat split | intros _].
    apply framed_ColumnIndex_fill.
  - intros _. repeat framed_step.
Qed.

Lemma framed_SQL : framed SQL.
Proof. unfold SQL. repeat framed_step. Qed.

(** X1.  Binding ([Bind], [NamedBind], [BindParameterIndex]), stepping
    ([Next]) and executing ([Exec], [ExecDml], [Insert]), the lookup of a
    column by name and [SQL] never change the native handle, the connection
    or the flags of the statement, nor the connections, the caller's
    variables or the package variables: apart from the native calls they
    issue, they only cache metadata in the statement. *)
Theorem bind_and_step_frame :
  (forall args, framed (Bind args)) /\
  (forall args, framed (NamedBind args)) /\
  (forall name, framed (BindParameterIndex name)) /\
  framed Next /\
  (forall args, framed (Exec args)) /\
  (forall args, framed (ExecDml args)) /\
  (forall args, framed (Insert args)) /\
  (forall name, framed (ColumnIndex name)) /\
  framed SQL.
Proof.
  repeat apply conj.
  - apply framed_Bind.
  - apply framed_NamedBind.
  - apply framed_BindParameterIndex.
  - apply framed_Next.
  - apply framed_Exec.
  - apply framed_ExecDml.
  - apply framed_Insert.
  - apply framed_ColumnIndex.
  - apply framed_SQL.
Qed.

(** *** The loop of [Bind] *)

Lemma Bind_range_app xs ys : forall i s w,
  Bind_range i (xs ++ ys) s w =
  (err <- Bind_range i xs ;;
   match err with
   | Some e => ret (Some e)
   | None => Bind_range (i + len xs) ys
   end) s w.
Proof.
  induction xs as [|x xs IH]; intros i s w.
  - cbn. unfold len. cbn. rewrite Z.add_0_r. reflexivity.
  - cbn [app Bind_range]. unfold bind.
    destruct (BindByIndex (i + 1) x s w) as [[e|] s1 w1|]; try reflexivity.
    rewrite IH. unfold bind, len. cbn [length].
    replace (i + 1 + Z.of_nat (length xs)) with (i + Z.of_nat (S (length xs))) by lia.
    reflexivity.
Qed.

(** X2.  [Bind] binds its arguments from left to right and stops at the
    first one that fails: when the arguments [xs] are bound and the next one
    [v], for parameter [len xs + 1], fails with [e], [Bind] returns [e] in the
    state that [v] left.  The parameters of [xs] stay bound (nothing is
    cleared or reset) and no argument after [v] reaches the engine. *)
Theorem Bind_stops_at_first_error (xs : list HostValue) (v : HostValue)
    (ys : list HostValue) (s : Stmt) (w : World) (s1 : Stmt) (w1 : World)
    (e : error) (s2 : Stmt) (w2 : World) :
  bindParameterCount s = len (xs ++ v :: ys) ->
  Bind_range 0 xs s w = Ret None s1 w1 ->
  BindByIndex (len xs + 1) v s1 w1 = Ret (Some e) s2 w2 ->
  Bind (xs ++ v :: ys) s w = Ret (Some e) s2 w2.
Proof.
  intros Hn Hxs Hv. unfold Bind, BindParameterCount. run.
  assert (Hne : (bindParameterCount s =? -1) = false).
  { apply Z.eqb_neq. rewrite Hn. unfold len. lia. }
  rewrite Hne. cbn. rewrite Hn, Z.eqb_refl. cbn.
  rewrite Bind_range_app. unfold bind. rewrite Hxs.
  cbn [Bind_range]. unfold bind. rewrite Z.add_0_l, Hv. reflexivity.
Qed.

Lemma trace_calls_since w w' calls :
  trace w' = rev calls ++ trace w -> calls_since w w' = calls.
Proof.
  intros H. unfold calls_since. rewrite H, length_app.
  replace (length (rev calls) + length (trace w) - length (trace w))%nat
    with (length (rev calls)) by lia.
  rewrite take_app_length. apply rev_involutive.
Qed.

Lemma BindByIndex_bindable index v s w :
  accepts_binds -> bindable v = true ->
  exists call,
    BindByIndex index v s w = Ret None s (after call w) /\
    bind_index call = Some (C_int index) /\ is_bind call = true.
Proof.
  intros Hok.
  assert (Hwith : forall call : ptr -> NativeCall,
             is_bind (call (stmt s)) = true ->
             bind_index (call (stmt s)) = Some (C_int index) ->
             exists call0,
               bind_with call s w = Ret None s (after call0 w) /\
               bind_index call0 = Some (C_int index) /\ is_bind call0 = true).
  { intros call Hb Hi. exists (call (stmt s)). split; [|split; assumption].
    unfold bind_with, Stmt_error. run. rewrite (Hok (trace w) _ Hb). reflexivity. }
  induction v; cbn [bindable BindByIndex]; intros Hv; try discriminate;
    try (apply Hwith; reflexivity).
  - run. destruct (_ && _); apply Hwith; reflexivity.
  - run. destruct (_ && _); apply Hwith; reflexivity.
  - apply IHv. exact Hv.
  - destruct r; cbn [BindReflect]; try discriminate; try (apply Hwith; reflexivity).
    apply Z.leb_le in Hv. destruct (Z.ltb_spec MaxInt64 v); [lia|].
    apply Hwith; reflexivity.
Qed.

Lemma Bind_range_in_order args : forall i s w,
  accepts_binds -> forallb bindable args = true ->
  exists calls w',
    Bind_range i args s w = Ret None s w' /\
    trace w' = rev calls ++ trace w /\
    map bind_index calls
      = map (fun k => Some (C_int (i + Z.of_nat k))) (seq 1 (length args)) /\
    forallb is_bind calls = true.
Proof.
  induction args as [|v rest IH]; intros i s w Hok Hall.
  - exists [], w. repeat split.
  - cbn [forallb] in Hall. apply andb_prop in Hall as [Hv Hrest].
    destruct (BindByIndex_bindable (i + 1) v s w Hok Hv) as [call [Hrun [Hi Hb]]].
    destruct (IH (i + 1) s (after call w) Hok Hrest) as [calls [w' [Hr [Ht [Hm Hf]]]]].
    exists (call :: calls), w'. split; [|split; [|split]].
    + cbn [Bind_range]. unfold bind. rewrite Hrun. exact Hr.
    + rewrite Ht. cbn [rev trace after set_trace]. rewrite <- app_assoc. reflexivity.
    + cbn [length seq map]. f_equal.
      * rewrite Hi. reflexivity.
      * rewrite <- (seq_shift (length rest) 1), map_map, Hm. apply map_ext. intros k.
        do 2 f_equal. lia.
    + cbn [forallb]. rewrite Hb, Hf. reflexivity.
Qed.

(** X3.  With an engine that accepts every bind call, [Bind] of arguments
    that all have a bind (no failing [Valuer], no unsigned overflow, no
    unsupported type), as many as the statement has parameters, returns no
    error, leaves the statement as it is and issues exactly one bind call per
    argument, in order, for the parameters 1, 2, ..., n. *)
Theorem Bind_binds_in_order (args : list HostValue) (s : Stmt) (w : World) :
  accepts_binds ->
  forallb bindable args = true ->
  bindParameterCount s = len args ->
  exists w',
    Bind args s w = Ret None s w' /\
    map bind_index (calls_since w w')
      = map (fun k => Some (C_int (Z.of_nat k))) (seq 1 (length args)) /\
    forallb is_bind (calls_since w w') = true.
Proof.
  intros Hok Hall Hn.
  destruct (Bind_range_in_order args 0 s w Hok Hall) as [calls [w' [Hr [Ht [Hm Hf]]]]].
  exists w'. rewrite (trace_calls_since w w' calls Ht).
  split; [|split; [exact Hm | exact Hf]].
  unfold Bind, BindParameterCount. run.
  assert (Hne : (bindParameterCount s =? -1) = false).
  { apply Z.eqb_neq. rewrite Hn. unfold len. lia. }
  rewrite Hne. cbn. rewrite Hn, Z.eqb_refl. cbn. exact Hr.
Qed.

(** *** Cached metadata *)

(** X4.  The parameter count, the column count and the SQL text are asked of
    the engine once: after a call that returned a count other than -1 (or a
    text that is not empty), every later call returns the same value from
    the statement, without any native call and without changing it. *)
Theorem counts_are_cached (s : Stmt) (w : World) (s' : Stmt) (w' : World) :
  (forall n, BindParameterCount s w = Ret n s' w' -> n <> -1 ->
     forall w2, BindParameterCount s' w2 = Ret n s' w2) /\
  (forall n, ColumnCount s w = Ret n s' w' -> n <> -1 ->
     forall w2, ColumnCount s' w2 = Ret n s' w2) /\
  (forall t, SQL s w = Ret t s' w' -> t <> EmptyString ->
     forall w2, SQL s' w2 = Ret t s' w2).
Proof.
  split; [|split].
  - intros n H Hn w2. revert H. unfold BindParameterCount. run.
    destruct (Z.eqb_spec (bindParameterCount s) (-1)) as [He|He]; cbn;
      intros H; injection H as <- <- <-.
    + cbn [bindParameterCount set_bindParameterCount].
      apply Z.eqb_neq in Hn. rewrite Hn. reflexivity.
    + apply Z.eqb_neq in He. rewrite He. reflexivity.
  - intros n H Hn w2. revert H. unfold ColumnCount. run.
    destruct (Z.eqb_spec (columnCount s) (-1)) as [He|He]; cbn;
      intros H; injection H as <- <- <-.
    + cbn [columnCount set_columnCount].
      apply Z.eqb_neq in Hn. rewrite Hn. reflexivity.
    + apply Z.eqb_neq in He. rewrite He. reflexivity.
  - intros t H Ht w2. revert H. unfold SQL. run.
    destruct (String.eqb_spec (sql s) EmptyString) as [He|He]; cbn;
      intros H; injection H as <- <- <-.
    + cbn [sql set_sql].
      destruct (String.eqb_spec (C_GoString (ret_text E (trace w) (sqlite3_sql (stmt s))))
                  EmptyString) as [H0|H0]; [contradiction | reflexivity].
    + destruct (String.eqb_spec (sql s) EmptyString); [contradiction | reflexivity].
Qed.

(** X5.  [BindParameterIndex] caches what it finds and nothing else.  A name
    that was found is answered from the map from then on, with the same
    index and no native call.  A name that was not found (index 0) is not
    entered in the map.  The map is built by the first lookup and its entries
    are never changed. *)
Theorem BindParameterIndex_cache (name : string) (s : Stmt) (w : World)
    (index : Z) (err : option error) (s' : Stmt) (w' : World) :
  BindParameterIndex name s w = Ret (index, err) s' w' ->
  (err = None -> forall w2, BindParameterIndex name s' w2 = Ret (index, None) s' w2) /\
  (err <> None ->
     index = 0 /\ exists m', params s' = Some m' /\ m' !! name = None) /\
  (forall m, params s = Some m ->
     exists m', params s' = Some m' /\ forall n i, m !! n = Some i -> m' !! n = Some i).
Proof.
  unfold BindParameterIndex, BindParameterCount. run.
  destruct (params s) as [m|] eqn:Hp; cbn.
  - rewrite Hp. cbn.
    destruct (m !! name) as [i|] eqn:Hl.
    + intros H. injection H as <- <- <- <-. split; [|split].
      * intros _ w2. rewrite Hp. cbn. rewrite Hp. cbn. rewrite Hl. reflexivity.
      * intros Hne. contradiction.
      * intros m0 Hm0. injection Hm0 as <-. eauto.
    + set (idx1 := int (C_int (ret_int E (trace w) (sqlite3_bind_parameter_index (stmt s) name)))).
      destruct (Z.eqb_spec idx1 0) as [Hz|Hz]; cbn;
        intros H; injection H as <- <- <- <-.
      * split; [intros H; discriminate|]. split.
        -- intros _. split; [exact Hz|]. rewrite Hp. eauto.
        -- intros m0 Hm0. rewrite Hp. injection Hm0 as <-. eauto.
      * split; [|split].
        -- intros _ w2. cbn. rewrite Hp. cbn. rewrite lookup_insert_eq. reflexivity.
        -- intros Hne. contradiction.
        -- intros m0 Hm0. injection Hm0 as <-. cbn. rewrite Hp. cbn.
           eexists. split; [reflexivity|]. intros n i Hn.
           destruct (decide (name = n)) as [->|Hnn]; [congruence|].
           rewrite lookup_insert_ne by assumption. exact Hn.
  - match goal with
    | |- context [if ?b then _ else _] => destruct b
    end; cbn; rewrite lookup_empty;
    match goal with
    | |- context [(?x =? 0)] => destruct (Z.eqb_spec x 0) as [Hz|Hz]
    end; cbn; intros H; injection H as <- <- <- <-.
    all: split; [|split]; try (intros m0 Hm0; discriminate).
    all: try (intros H; discriminate).
    all: try (intros Hne; contradiction).
    all: try (intros _; split; [exact Hz|]; cbn; eexists; split;
              [reflexivity | apply lookup_empty]).
    all: intros _ w2; cbn; rewrite lookup_insert_eq; reflexivity.
Qed.

(** *** Columns by name *)

Lemma fill_map_lookup names n : forall i m name j,
  fill_map names n i m !! name = Some j <->
  (i <= j < i + Z.of_nat n /\ names j = name /\
   forall k, j < k < i + Z.of_nat n -> names k <> name) \/
  (m !! name = Some j /\ forall k, i <= k < i + Z.of_nat n -> names k <> name).
Proof.
  induction n as [|n IH]; intros i m name j; cbn [fill_map].
  - split.
    + intros H. right. split; [exact H | intros k Hk; lia].
    + intros [[Hr _]|[H _]]; [lia | exact H].
  - rewrite IH. rewrite Nat2Z.inj_succ. split.
    + intros [[Hr [Hn Hlast]]|[Hm Hnone]].
      * left. split; [lia|]. split; [exact Hn|]. intros k Hk. apply Hlast. lia.
      * destruct (decide (names i = name)) as [Heq|Hne].
        -- rewrite Heq, lookup_insert_eq in Hm. injection Hm as <-.
           left. split; [lia|]. split; [exact Heq|]. intros k Hk. apply Hnone. lia.
        -- rewrite lookup_insert_ne in Hm by assumption.
           right. split; [exact Hm|]. intros k Hk.
           destruct (Z.eq_dec k i) as [->|Hki]; [exact Hne | apply Hnone; lia].
    + intros [[Hr [Hn Hlast]]|[Hm Hnone]].
      * destruct (Z.eq_dec j i) as [->|Hji].
        -- right. split; [rewrite Hn; apply lookup_insert_eq|].
           intros k Hk. apply Hlast. lia.
        -- left. split; [lia|]. split; [exact Hn|]. intros k Hk. apply Hlast. lia.
      * right. split.
        -- rewrite lookup_insert_ne; [exact Hm|]. apply Hnone. lia.
        -- intros k Hk. apply Hnone. lia.
Qed.

Lemma fill_map_none names n : forall i m name,
  fill_map names n i m !! name = None <->
  m !! name = None /\ forall k, i <= k < i + Z.of_nat n -> names k <> name.
Proof.
  induction n as [|n IH]; intros i m name; cbn [fill_map].
  - split; [intros H; split; [exact H | intros k Hk; lia] | tauto].
  - rewrite IH, lookup_insert_None, Nat2Z.inj_succ. split.
    + intros [[Hm Hi] Hrest]. split; [exact Hm|]. intros k Hk.
      destruct (Z.eq_dec k i) as [->|Hne]; [exact Hi | apply Hrest; lia].
    + intros [Hm Hall]. split; [split; [exact Hm | apply Hall; lia]|].
      intros k Hk. apply Hall. lia.
Qed.

Lemma set_cols_same s m : cols s = Some m -> set_cols (Some m) s = s.
Proof. destruct s. cbn. intros ->. reflexivity. Qed.

Lemma ColumnIndex_fill_run names n : forall i s w m,
  column_names (stmt s) names -> cols s = Some m ->
  exists w',
    ColumnIndex_fill n i s w = Ret tt (set_cols (Some (fill_map names n i m)) s) w' /\
    extends shape_query w w'.
Proof.
  induction n as [|n IH]; intros i s w m Hnames Hc; cbn [ColumnIndex_fill fill_map].
  - exists w. rewrite (set_cols_same s m Hc). split; [reflexivity | apply extends_refl].
  - unfold ColumnName. run. rewrite (Hnames (trace w) i), Hc. cbn [default].
    set (s1 := set_cols (Some (<[names i := i]> m)) s).
    set (w1 := set_trace (sqlite3_column_name (stmt s) (C_int i) :: trace w) w).
    destruct (IH (i + 1) s1 w1 (<[names i := i]> m) Hnames eq_refl) as [w' [Hr He]].
    exists w'. split; [exact Hr|].
    eapply extends_trans; [|exact He].
    apply (extends_after shape_query (sqlite3_column_name (stmt s) (C_int i)) w).
    reflexivity.
Qed.

(** X6.  The first [ColumnIndex] of a statement builds the map of its column
    names from the engine, and the last column of a name wins: when the
    engine names the columns [names 0 .. names (count - 1)], the lookup of a
    name returns the greatest index of a column with that name, and the
    error 'invalid column name' with index -1 exactly when no column has the
    name.  It issues only queries of the statement's shape. *)
Theorem ColumnIndex_last_wins (names : Z -> string) (name : string) (s : Stmt) (w : World)
    (count : Z) (s1 : Stmt) (w1 : World) :
  column_names (stmt s) names ->
  cols s = None ->
  ColumnCount s w = Ret count s1 w1 ->
  exists j err s' w',
    ColumnIndex name s w = Ret (j, err) s' w' /\
    extends shape_query w w' /\
    match err with
    | None => 0 <= j < count /\ names j = name /\
              forall k, j < k < count -> names k <> name
    | Some e => j = -1 /\ error_format e = Some "invalid column name: %s"%string /\
                forall k, 0 <= k < count -> names k <> name
    end.
Proof.
  intros Hnames Hc Hcount.
  assert (Hs1 : stmt s1 = stmt s /\ cols s1 = cols s /\ extends shape_query w w1).
  { revert Hcount. unfold ColumnCount. run.
    destruct (columnCount s =? -1); cbn; intros H; injection H as <- <- <-.
    - repeat split.
      apply (extends_after shape_query (sqlite3_column_count (stmt s)) w). reflexivity.
    - repeat split. apply extends_refl. }
  destruct Hs1 as [Hst [Hcs Hext1]].
  set (s2 := set_cols (Some ∅) s1).
  assert (Hnames2 : column_names (stmt s2) names) by (cbn; rewrite Hst; exact Hnames).
  destruct (ColumnIndex_fill_run names (Z.to_nat count) 0 s2 w1 ∅ Hnames2 eq_refl)
    as [w' [Hfill Hext2]].
  assert (Hext : extends shape_query w w') by (eapply extends_trans; eassumption).
  set (m := fill_map names (Z.to_nat count) 0 ∅) in *.
  destruct (m !! name) as [j|] eqn:Hl.
  - exists j, None. do 2 eexists. split; [|split; [exact Hext|]].
    + unfold ColumnIndex. run. rewrite Hc, Hcount. fold s2. rewrite Hfill.
      simpl. fold m. rewrite Hl. reflexivity.
    + apply fill_map_lookup in Hl as [[Hj [Hn Hlast]]|[He _]].
      * split; [lia|]. split; [exact Hn|]. intros k Hk. apply Hlast. lia.
      * rewrite lookup_empty in He. discriminate.
  - exists (-1). do 3 eexists. split; [|split; [exact Hext|]].
    + unfold ColumnIndex. run. rewrite Hc, Hcount. fold s2. rewrite Hfill.
      simpl. fold m. rewrite Hl. reflexivity.
    + split; [reflexivity|]. split; [reflexivity|].
      apply fill_map_none in Hl as [_ Hnone]. intros k Hk. apply Hnone. lia.
Qed.

Lemma ColumnIndex_fill_keeps_map n : forall i s w s' w',
  ColumnIndex_fill n i s w = Ret tt s' w' -> cols s <> None -> cols s' <> None.
Proof.
  induction n as [|n IH]; intros i s w s' w'; cbn [ColumnIndex_fill].
  - intros H. injection H as <- <-. auto.
  - unfold ColumnName. run. intros H _. apply IH in H; [exact H|]. discriminate.
Qed.

(** X7.  [ColumnIndex] builds the map of column names once.  After any call
    that returned, the statement holds a map, and every later lookup is
    answered from it: the index of the map or, for a name that is not in it,
    -1 with an error, without any native call and without changing the
    statement. *)
Theorem ColumnIndex_built_once (name : string) (s : Stmt) (w : World)
    (r : Z * option error) (s' : Stmt) (w' : World) :
  ColumnIndex name s w = Ret r s' w' ->
  exists m,
    cols s' = Some m /\
    forall name2 w2,
      exists r2,
        ColumnIndex name2 s' w2 = Ret r2 s' w2 /\
        fst r2 = default (-1) (m !! name2) /\
        (snd r2 = None <-> m !! name2 <> None).
Proof.
  intros H.
  assert (Hbuilt : cols s' <> None).
  { unfold ColumnIndex in H.
    apply bind_inv in H as [s0 [s1 [w1 [H0 H]]]].
    unfold this in H0. injection H0 as <- <- <-.
    apply bind_inv in H as [u [s2 [w2 [H1 H]]]].
    assert (H2 : cols s2 <> None).
    { destruct (cols s) eqn:Hc.
      - injection H1 as _ <- _. rewrite Hc. discriminate.
      - apply bind_inv in H1 as [count [s3 [w3 [Hcnt H1]]]].
        apply bind_inv in H1 as [u1 [s4 [w4 [Hu H1]]]].
        injection Hu as _ <- <-. destruct u.
        apply ColumnIndex_fill_keeps_map in H1; [exact H1 | discriminate]. }
    revert H. run. destruct (_ !! _); intros H; injection H as _ <- _; exact H2. }
  destruct (cols s') as [m|] eqn:Hm; [|contradiction].
  exists m. split; [reflexivity|]. intros name2 w2.
  unfold ColumnIndex. run. rewrite Hm. simpl. rewrite Hm. simpl.
  destruct (m !! name2); eexists; (split; [reflexivity|]); simpl;
    (split; [reflexivity|]); split; intros; congruence.
Qed.

Lemma ColumnNames_loop_run names n : forall i s w,
  column_names (stmt s) names ->
  exists w',
    ColumnNames_loop n i s w
      = Ret (map (fun k => names (i + Z.of_nat k)) (seq 0 n)) s w' /\
    extends shape_query w w'.
Proof.
  induction n as [|n IH]; intros i s w Hnames; cbn [ColumnNames_loop].
  - exists w. split; [reflexivity | apply extends_refl].
  - unfold ColumnName. run. rewrite (Hnames (trace w) i).
    set (w1 := set_trace (sqlite3_column_name (stmt s) (C_int i) :: trace w) w).
    destruct (IH (i + 1) s w1 Hnames) as [w' [Hr He]].
    exists w'. rewrite Hr. split.
    + cbn [seq map]. rewrite Z.add_0_r. f_equal. f_equal.
      rewrite <- seq_shift, map_map. apply map_ext. intros k. f_equal. lia.
    + eapply extends_trans; [|exact He].
      apply (extends_after shape_query (sqlite3_column_name (stmt s) (C_int i)) w).
      reflexivity.
Qed.

(** X8.  [ColumnNames] returns the names of the columns 0 .. count - 1 in
    order, as the engine gives them, by queries of the statement's shape
    alone; nothing is cached but the count.  On a negative count it panics
    (the slice cannot be made). *)
Theorem ColumnNames_in_order (names : Z -> string) (s : Stmt) (w : World)
    (count : Z) (s1 : Stmt) (w1 : World) :
  column_names (stmt s) names ->
  ColumnCount s w = Ret count s1 w1 ->
  (0 <= count ->
   exists w',
     ColumnNames s w
       = Ret (map (fun k => names (Z.of_nat k)) (seq 0 (Z.to_nat count))) s1 w' /\
     extends shape_query w w') /\
  (count < 0 -> exists reason, ColumnNames s w = Panic reason).
Proof.
  intros Hnames Hcount.
  assert (Hs1 : stmt s1 = stmt s /\ extends shape_query w w1).
  { revert Hcount. unfold ColumnCount. run.
    destruct (columnCount s =? -1); cbn; intros H; injection H as <- <- <-.
    - split; [reflexivity|].
      apply (extends_after shape_query (sqlite3_column_count (stmt s)) w). reflexivity.
    - split; [reflexivity | apply extends_refl]. }
  destruct Hs1 as [Hst Hext1]. split.
  - intros Hpos.
    assert (Hnames1 : column_names (stmt s1) names) by (rewrite Hst; exact Hnames).
    destruct (ColumnNames_loop_run names (Z.to_nat count) 0 s1 w1 Hnames1) as [w' [Hr He]].
    exists w'. split; [|eapply extends_trans; eassumption].
    unfold ColumnNames, bind. rewrite Hcount.
    destruct (Z.ltb_spec count 0); [lia|]. exact Hr.
  - intros Hneg. unfold ColumnNames, bind. rewrite Hcount.
    destruct (Z.ltb_spec count 0); [|lia]. eexists. reflexivity.
Qed.

(** X9.  [Exec] steps only when the bind succeeded, and always resets after
    the step.  It returns nil exactly when the step answered SQLITE_DONE (or
    SQLITE_OK); any other answer, SQLITE_ROW of a statement that returns data
    included, comes back as a [StmtError] with that code, the details
    "Stmt.exec" and the statement, after the engine's message has been
    read. *)
Theorem Exec_outcome (args : list HostValue) (s : Stmt) (w : World)
    (err : option error) (s1 : Stmt) (w1 : World) :
  Bind args s w = Ret err s1 w1 ->
  match err with
  | Some e => Exec args s w = Ret (Some e) s1 w1
  | None =>
      let h := stmt s1 in
      let rv := answer_int w1 (sqlite3_step h) in
      let w2 := after (sqlite3_reset h) (after (sqlite3_step h) w1) in
      (rv = SQLITE_DONE \/ rv = SQLITE_OK ->
       Exec args s w = Ret None s1 w2 /\
       calls_since w1 w2 = [sqlite3_step h; sqlite3_reset h]) /\
      (rv <> SQLITE_DONE -> rv <> SQLITE_OK ->
       forall cp, c s1 = Some cp ->
       let w3 := after (sqlite3_errmsg (db (conns w1 cp))) w2 in
       exists e,
         Exec args s w = Ret (Some e) s1 w3 /\
         calls_since w1 w3
           = [sqlite3_step h; sqlite3_reset h; sqlite3_errmsg (db (conns w1 cp))] /\
         error_code e = Some rv /\
         error_details e = Some "Stmt.exec"%string /\
         error_stmt e = Some s1)
  end.
Proof.
  intros HB. destruct err as [e|].
  - unfold Exec, bind. rewrite HB. reflexivity.
  - cbv zeta. unfold answer_int. split.
    + intros Hrv. split; [|apply calls_since_after2].
      unfold Exec, bind. rewrite HB. unfold exec, Stmt_error. run.
      unfold Done, Errno. destruct Hrv as [-> | ->]; reflexivity.
    + intros Hdone Hok cp Hc. eexists.
      split; [|split; [apply calls_since_after3 | split; [|split]]].
      * unfold Exec, bind. rewrite HB. unfold exec, Stmt_error. run.
        unfold Done, Errno. apply Z.eqb_neq in Hdone, Hok. rewrite Hdone, Hok. cbn.
        rewrite Hc. reflexivity.
      * reflexivity.
      * reflexivity.
      * reflexivity.
Qed.

Lemma uint_id w z : 0 <= z < 2 ^ w -> uint w z = z.
Proof. intros H. unfold uint. apply Z.mod_small. exact H. Qed.

Lemma ScanInt64_Integer index s w :
  storage_class s w index = Integer ->
  let h := stmt s in
  let w1 := after (sqlite3_column_type h (C_int index)) w in
  let call := sqlite3_column_int64 h (C_int index) in
  ScanInt64 index s w
    = Ret (int64 (C_sqlite3_int64 (ret_int E (trace w1) call)), false, None) s (after call w1).
Proof.
  unfold storage_class, answer_int. intros H. cbv zeta.
  unfold ScanInt64, scan_integer. run. rewrite H. cbn.
  destruct (CheckTypeMismatch s); reflexivity.
Qed.

(** X10.  [ScanReflect] of an Integer column into a pointer to a sized
    integer.  With [x] the 64-bit value of the column: a signed destination
    of [bits] bits receives [x] wrapped to that width, without error ([x]
    itself when it fits); an unsigned destination refuses a negative [x] with
    the error "negative value: %d" and is left as it was, and otherwise
    receives [x] wrapped to its width ([x] itself when it fits). *)
Theorem ScanReflect_integer_kinds (T : string) (bits : Z) (dv : addr) (index : Z)
    (s : Stmt) (w : World) :
  storage_class s w index = Integer ->
  let h := stmt s in
  let w1 := after (sqlite3_column_type h (C_int index)) w in
  let call := sqlite3_column_int64 h (C_int index) in
  let x := int64 (C_sqlite3_int64 (ret_int E (trace w1) call)) in
  let w2 := after call w1 in
  let stored k v := set_heap (<[dv := cell_kind k v]> (heap w2)) w2 in
  (exists v,
     ScanReflect index (v_ptr T (K_Int bits) dv) s w
       = Ret (false, None) s (stored (K_Int bits) v) /\
     v = sint bits x /\
     (0 < bits -> - 2 ^ (bits - 1) <= x < 2 ^ (bits - 1) -> v = x)) /\
  (0 <= x ->
   exists v,
     ScanReflect index (v_ptr T (K_Uint bits) dv) s w
       = Ret (false, None) s (stored (K_Uint bits) v) /\
     v = uint bits x /\
     (x < 2 ^ bits -> v = x)) /\
  (x < 0 ->
   exists e,
     ScanReflect index (v_ptr T (K_Uint bits) dv) s w = Ret (false, Some e) s w2 /\
     error_format e = Some "negative value: %d"%string /\
     heap w2 = heap w).
Proof.
  intros Hc h w1 call x w2 stored.
  pose proof (ScanInt64_Integer index s w Hc) as Hs. cbv zeta in Hs.
  fold h w1 call x w2 in Hs.
  split; [|split].
  - exists (sint bits x). split; [|split; [reflexivity|]].
    + cbn [ScanReflect]. unfold bind. rewrite Hs. reflexivity.
    + intros Hb Hx. apply sint_id; assumption.
  - intros Hx. exists (uint bits x). split; [|split; [reflexivity|]].
    + cbn [ScanReflect]. unfold bind. rewrite Hs.
      destruct (Z.ltb_spec x 0); [lia|]. reflexivity.
    + intros Hb. apply uint_id. lia.
  - intros Hx. eexists. split; [|split].
    + cbn [ScanReflect]. unfold bind. rewrite Hs.
      destruct (Z.ltb_spec x 0); [|lia]. reflexivity.
    + reflexivity.
    + reflexivity.
Qed.

(** X11.  [ScanValue] decides the type of the value by the storage class the
    engine reports: nil (and the null flag) exactly for Null, an int64 for
    Integer, a float64 for Float, bytes for Blob, and for Text a string, or
    bytes when [blob] is set.  It reads the column and nothing else, leaves
    the statement as it is, and panics on any other class. *)
Theorem ScanValue_by_class (index : Z) (blob : bool) (s : Stmt) (w : World) :
  let ctype := storage_class s w index in
  (ctype = Null \/ ctype = Text \/ ctype = Integer \/ ctype = Float \/ ctype = Blob ->
   exists v isNull w',
     ScanValue index blob s w = Ret (v, isNull) s w' /\
     extends is_column_read w w' /\
     (isNull = true <-> ctype = Null) /\
     match v with
     | nil_value => ctype = Null
     | string_value _ => ctype = Text /\ blob = false
     | int64_value _ => ctype = Integer
     | float64_value _ => ctype = Float
     | bytes_value _ => ctype = Blob \/ (ctype = Text /\ blob = true)
     end) /\
  (ctype <> Null -> ctype <> Text -> ctype <> Integer -> ctype <> Float ->
   ctype <> Blob -> exists reason, ScanValue index blob s w = Panic reason).
Proof.
  cbv zeta. unfold storage_class, answer_int.
  set (ct := C_int (ret_int E (trace w) (sqlite3_column_type (stmt s) (C_int index)))).
  split.
  - intros H.
    assert (Hext : forall v isNull w', ScanValue index blob s w = Ret (v, isNull) s w' ->
                   extends is_column_read w w').
    { intros v isNull w'. unfold ScanValue, ColumnType.
      repeat first [ apply traced_bind; [|intros ?] | apply traced_this
                   | apply traced_native; reflexivity | apply traced_ret ].
      all: try (unfold native_int, native_int64;
                repeat first [ apply traced_bind; [|intros ?] | apply traced_this
                             | apply traced_native; reflexivity | apply traced_ret ]).
      repeat match goal with
             | |- traced _ (if ?b then _ else _) => destruct b
             end;
      repeat first [ apply traced_bind; [|intros ?] | apply traced_this
                   | apply traced_native; reflexivity | apply traced_ret
                   | apply traced_panic ];
      unfold native_int, native_int64;
      repeat first [ apply traced_bind; [|intros ?] | apply traced_this
                   | apply traced_native; reflexivity | apply traced_ret ]. }
    unfold Null, Text, Integer, Float, Blob, SQLITE_NULL, SQLITE3_TEXT, SQLITE_INTEGER,
      SQLITE_FLOAT, SQLITE_BLOB in *.
    destruct H as [H | [H | [H | [H | H]]]].
    all: assert (Hr := Hext); revert Hr; unfold ScanValue, ColumnType; run; fold ct;
      rewrite H; cbn; try destruct blob; cbn; intros Hr;
      do 3 eexists; (split; [reflexivity|]);
      (split; [eapply Hr; reflexivity|]);
      (split; [split; intros; (congruence || lia)|]); auto.
  - intros H1 H2 H3 H4 H5. unfold ScanValue, ColumnType. run. fold ct.
    unfold Null, Text, Integer, Float, Blob, SQLITE_NULL, SQLITE3_TEXT, SQLITE_INTEGER,
      SQLITE_FLOAT, SQLITE_BLOB in *.
    apply Z.eqb_neq in H1, H2, H3, H4, H5. rewrite H1, H2, H3, H4, H5.
    eexists. reflexivity.
Qed.

Lemma shape_query_no_bind added :
  forallb shape_query added = true -> List.filter is_bind added = [].
Proof.
  induction added as [|call added IH]; [reflexivity|]. cbn [forallb List.filter].
  intros H. apply andb_true_iff in H as [H1 H2].
  destruct call; try discriminate; cbn; auto.
Qed.

Lemma cache_agrees_insert idx m name :
  cache_agrees idx (Some m) -> idx name <> 0 ->
  cache_agrees idx (Some (<[name := idx name]> m)).
Proof.
  intros Hag Hz m' n i Hm' Hn. injection Hm' as <-.
  destruct (decide (name = n)) as [->|Hne].
  - rewrite lookup_insert_eq in Hn. injection Hn as <-. auto.
  - rewrite lookup_insert_ne in Hn by assumption. eapply Hag; eauto.
Qed.

Lemma cache_agrees_empty idx : cache_agrees idx (Some ∅).
Proof. intros m n i Hm Hn. injection Hm as <-. rewrite lookup_empty in Hn. discriminate. Qed.

Lemma BindParameterIndex_by_engine idx name s w :
  parameter_index (stmt s) idx -> cache_agrees idx (params s) ->
  exists s' w' err,
    BindParameterIndex name s w = Ret (idx name, err) s' w' /\
    stmt s' = stmt s /\ cache_agrees idx (params s') /\ extends shape_query w w' /\
    (idx name <> 0 -> err = None) /\
    (idx name = 0 ->
     exists e, err = Some e /\ error_format e = Some "invalid parameter name: %q"%string).
Proof.
  intros Hidx Hag.
  assert (Hrun : exists s' w' err,
    BindParameterIndex name s w = Ret (idx name, err) s' w' /\
    cache_agrees idx (params s') /\
    (idx name <> 0 -> err = None) /\
    (idx name = 0 ->
     exists e, err = Some e /\ error_format e = Some "invalid parameter name: %q"%string)).
  { unfold BindParameterIndex, BindParameterCount. run.
    destruct (params s) as [m|] eqn:Hp; cbn.
    - rewrite Hp. cbn. destruct (m !! name) as [i|] eqn:Hl.
      + destruct (Hag m name i eq_refl Hl) as [Hi Hnz]. subst i.
        exists s, w, None. split; [reflexivity|]. rewrite Hp. split; [exact Hag|].
        split; [reflexivity | contradiction].
      + rewrite (Hidx (trace w) name).
        destruct (Z.eqb_spec (idx name) 0) as [Hz|Hz]; cbn.
        * do 3 eexists. split; [reflexivity|]. rewrite Hp. split; [exact Hag|].
          split; [contradiction|]. intros _. eexists. split; reflexivity.
        * do 3 eexists. split; [reflexivity|]. cbn. rewrite Hp. cbn.
          split; [apply cache_agrees_insert; [exact Hag | exact Hz]|].
          split; [reflexivity | contradiction].
    - destruct (bindParameterCount s =? -1); cbn; rewrite lookup_empty.
      all: match goal with
           | |- context [ret_int E ?tr (sqlite3_bind_parameter_index _ _)] =>
               rewrite (Hidx tr name)
           end.
      all: destruct (Z.eqb_spec (idx name) 0) as [Hz|Hz]; cbn.
      all: do 3 eexists; (split; [reflexivity|]); cbn.
      all: first [ split; [apply cache_agrees_empty|]; split; [contradiction|];
                   intros _; eexists; split; reflexivity
                 | split; [apply (cache_agrees_insert idx ∅ name);
                           [apply cache_agrees_empty | exact Hz]|];
                   split; [reflexivity | contradiction] ]. }
  destruct Hrun as [s' [w' [err [Hrun [H1 [H2 H3]]]]]].
  exists s', w', err. split; [exact Hrun|].
  split; [apply (framed_BindParameterIndex name _ _ _ _ _ Hrun)|].
  split; [exact H1|].
  split; [apply (traced_BindParameterIndex name _ _ _ _ _ Hrun)|].
  split; assumption.
Qed.

Lemma len_named_args pairs : len (named_args pairs) = 2 * len pairs.
Proof.
  unfold len, named_args. induction pairs as [|p pairs IH]; [reflexivity|].
  cbn [flat_map app length]. lia.
Qed.

Lemma NamedBind_loop_by_name idx pre rest :
  accepts_binds ->
  forallb (fun p => negb (idx (fst p) =? 0) && bindable (snd p)) pre = true ->
  match rest with [] => True | p :: _ => idx (fst p) = 0 end ->
  forall i s w,
    parameter_index (stmt s) idx -> cache_agrees idx (params s) ->
    exists err s' w' added,
      NamedBind_loop i (named_args (pre ++ rest)) s w = Ret err s' w' /\
      trace w' = added ++ trace w /\
      bound_indexes (rev added) = map (fun p => Some (C_int (idx (fst p)))) pre /\
      (rest = [] -> err = None) /\
      (rest <> [] ->
       exists e, err = Some e /\ error_format e = Some "invalid parameter name: %q"%string).
Proof.
  intros Hok Hpre Hrest. induction pre as [|[name v] pre IH]; intros i s w Hidx Hag.
  - cbn [app]. destruct rest as [|[name v] post].
    + exists None, s, w, []. repeat split; auto. contradiction.
    + cbn [fst] in Hrest. cbn [named_args flat_map app fst snd NamedBind_loop].
      destruct (BindParameterIndex_by_engine idx name s w Hidx Hag)
        as [s' [w' [err [Hrun [Hst [Hag' [[added [Ht Hf]] [_ Hz]]]]]]]].
      destruct (Hz Hrest) as [e [-> He]].
      exists (Some e), s', w', added. unfold bind. rewrite Hrun.
      split; [reflexivity|]. split; [exact Ht|]. split.
      * unfold bound_indexes. rewrite shape_query_no_bind; [reflexivity|].
        rewrite forallb_forall in *. intros x Hx. apply Hf. apply in_rev. exact Hx.
      * split; [discriminate|]. intros _. eauto.
  - cbn [forallb fst snd] in Hpre.
    apply andb_true_iff in Hpre as [Hp Hpre]. apply andb_true_iff in Hp as [Hnz Hv].
    apply negb_true_iff, Z.eqb_neq in Hnz.
    cbn [app named_args flat_map fst snd NamedBind_loop].
    destruct (BindParameterIndex_by_engine idx name s w Hidx Hag)
      as [s1 [w1 [err [Hrun [Hst [Hag' [[added1 [Ht1 Hf1]] [Hnone _]]]]]]]].
    rewrite (Hnone Hnz) in Hrun.
    destruct (BindByIndex_bindable (idx name) v s1 w1 Hok Hv) as [call [Hb [Hi Hisb]]].
    assert (Hidx1 : parameter_index (stmt s1) idx) by (rewrite Hst; exact Hidx).
    destruct (IH Hpre (i + 2) s1 (after call w1) Hidx1 Hag')
      as [err' [s' [w' [added [Hloop [Ht [Hbi [Hn He]]]]]]]].
    exists err', s', w', (added ++ call :: added1).
    unfold bind. rewrite Hrun, Hb.
    change (named_args (pre ++ rest)) with (flat_map (fun p => [V_string (fst p); snd p]) (pre ++ rest)) in Hloop.
    split; [exact Hloop|]. split.
    + rewrite Ht. unfold after. cbn [trace set_trace]. rewrite Ht1, <- app_assoc. reflexivity.
    + split; [|split; assumption].
      unfold bound_indexes in *. rewrite rev_app_distr. cbn [rev].
      rewrite <- app_assoc. cbn [app]. rewrite List.filter_app. cbn [List.filter].
      rewrite Hisb. rewrite (shape_query_no_bind (rev added1)).
      * cbn [app map]. rewrite Hi, Hbi. reflexivity.
      * rewrite forallb_forall in *. intros x Hx. apply Hf1. apply in_rev. exact Hx.
Qed.

(** X12.  [NamedBind] binds each value at the index that the statement has
    for its name, in the order of the arguments, whether the index comes from
    the engine or from the statement's map.  It stops at the first name that
    the statement does not have (index 0) with the error "invalid parameter
    name: %q": the pairs before it stay bound, the value of that name and
    those after it are not bound. *)
Theorem NamedBind_by_name (idx : string -> Z) (pre rest : list (string * HostValue))
    (s : Stmt) (w : World) :
  accepts_binds ->
  parameter_index (stmt s) idx ->
  cache_agrees idx (params s) ->
  forallb (fun p => negb (idx (fst p) =? 0) && bindable (snd p)) pre = true ->
  match rest with [] => True | p :: _ => idx (fst p) = 0 end ->
  exists err s' w',
    NamedBind (named_args (pre ++ rest)) s w = Ret err s' w' /\
    bound_indexes (calls_since w w') = map (fun p => Some (C_int (idx (fst p)))) pre /\
    (rest = [] -> err = None) /\
    (rest <> [] ->
     exists e, err = Some e /\ error_format e = Some "invalid parameter name: %q"%string).
Proof.
  intros Hok Hidx Hag Hpre Hrest.
  destruct (NamedBind_loop_by_name idx pre rest Hok Hpre Hrest 0 s w Hidx Hag)
    as [err [s' [w' [added [Hloop [Ht [Hbi [Hn He]]]]]]]].
  exists err, s', w'. split; [|split; [|split; assumption]].
  - unfold NamedBind. rewrite len_named_args.
    replace (2 * len (pre ++ rest)) with (len (pre ++ rest) * 2) by lia.
    rewrite Z.mod_mul by lia. exact Hloop.
  - rewrite (trace_calls_since w w' (rev added)); [exact Hbi|].
    rewrite rev_involutive. exact Ht.
Qed.

Lemma reads_ret {A} (a : A) : reads (ret a).
Proof. intros s w a' s' w' H. injection H as <- <- <-. auto using extends_refl. Qed.

Lemma reads_panic {A} r : reads (@panic A r).
Proof. intros s w a' s' w' H. discriminate. Qed.

Lemma reads_this : reads this.
Proof. intros s w a' s' w' H. injection H as <- <- <-. auto using extends_refl. Qed.

Lemma reads_bind {A B} (m : M A) (k : A -> M B) :
  reads m -> (forall a, reads (k a)) -> reads (bind m k).
Proof.
  intros Hm Hk s w b s' w' H. apply bind_inv in H as [a [s1 [w1 [H1 H2]]]].
  destruct (Hm _ _ _ _ _ H1) as [-> [Hh [Hc He]]].
  destruct (Hk _ _ _ _ _ _ H2) as [-> [Hh' [Hc' He']]].
  split; [reflexivity|]. split; [congruence|]. split; [congruence|].
  eapply extends_trans; eassumption.
Qed.

Lemma reads_native {A} (f : Engine -> list NativeCall -> NativeCall -> A) call :
  is_column_read call = true -> reads (native f call).
Proof.
  intros HP s w a s' w' H. unfold native in H. injection H as <- <- <-.
  split; [reflexivity|]. split; [reflexivity|]. split; [reflexivity|].
  apply (extends_after is_column_read call w HP).
Qed.

Ltac reads_step :=
  first
    [ apply reads_ret | apply reads_panic | apply reads_this
    | apply reads_native; reflexivity
    | apply reads_bind; [|intros ?]
    | match goal with
      | |- reads (if ?b then _ else _) => destruct b
      | |- reads (match ?x with _ => _ end) => destruct x
      end ].

Lemma reads_fail format a : reads (fail format a).
Proof. unfold fail, specificError. repeat reads_step. Qed.

Lemma reads_checkTypeMismatch source target : reads (checkTypeMismatch source target).
Proof. unfold checkTypeMismatch. repeat first [apply reads_fail | reads_step]. Qed.

Lemma reads_ColumnType index : reads (ColumnType index).
Proof. unfold ColumnType, native_int. repeat reads_step. Qed.

Lemma reads_ScanText index : reads (ScanText index).
Proof. unfold ScanText. repeat reads_step. Qed.

Lemma reads_scan_integer {A} (zero : A) column get conv index :
  (forall h i, is_column_read (column h i) = true) ->
  (forall call, is_column_read call = true -> reads (get call)) ->
  reads (scan_integer zero column get conv index).
Proof.
  intros Hcol Hget. unfold scan_integer.
  repeat first [ apply reads_ColumnType | apply reads_checkTypeMismatch
               | apply Hget; apply Hcol | reads_step ].
Qed.

Lemma reads_native_int call : is_column_read call = true -> reads (native_int call).
Proof.
  intros H. unfold native_int. apply reads_bind; [|intros ?; apply reads_ret].
  apply reads_native. exact H.
Qed.

Lemma reads_native_int64 call : is_column_read call = true -> reads (native_int64 call).
Proof.
  intros H. unfold native_int64. apply reads_bind; [|intros ?; apply reads_ret].
  apply reads_native. exact H.
Qed.

Lemma reads_ScanInt index : reads (ScanInt index).
Proof. apply reads_scan_integer; [reflexivity | apply reads_native_int]. Qed.

Lemma reads_ScanInt64 index : reads (ScanInt64 index).
Proof. apply reads_scan_integer; [reflexivity | apply reads_native_int64]. Qed.

Lemma reads_ScanByte index : reads (ScanByte index).
Proof. apply reads_scan_integer; [reflexivity | apply reads_native_int]. Qed.

Lemma reads_ScanBool index : reads (ScanBool index).
Proof. apply reads_scan_integer; [reflexivity | apply reads_native_int]. Qed.

Lemma reads_ScanDouble index : reads (ScanDouble index).
Proof.
  unfold ScanDouble.
  repeat first [ apply reads_ColumnType | apply reads_checkTypeMismatch | reads_step ].
Qed.

Lemma reads_ScanBlob index : reads (ScanBlob index).
Proof.
  unfold ScanBlob.
  repeat first [ apply reads_native_int; reflexivity | reads_step ].
Qed.

Lemma reads_ScanTime index : reads (ScanTime index).
Proof.
  unfold ScanTime.
  repeat first [ apply reads_ColumnType | apply reads_native_int64; reflexivity
               | reads_step ].
Qed.

Lemma reads_ScanValue index blob : reads (ScanValue index blob).
Proof.
  unfold ScanValue.
  repeat first [ apply reads_ColumnType | apply reads_native_int64; reflexivity
               | apply reads_native_int; reflexivity | reads_step ].
Qed.

Lemma writes_within_refl F h : writes_within F h h.
Proof. split; auto. Qed.

Lemma writes_within_store F h a v :
  In a F -> (forall q, v <> cell_ptr (Some q)) -> writes_within F h (<[a := v]> h).
Proof.
  intros Hin Hv. split.
  - intros b Hb. apply lookup_insert_ne. intros ->. contradiction.
  - intros b q H. destruct (decide (a = b)) as [->|Hne].
    + rewrite lookup_insert_eq in H. injection H as H. destruct (Hv q H).
    + rewrite lookup_insert_ne in H by assumption. exact H.
Qed.

Lemma writes_within_trans F1 F2 h h1 h2 :
  writes_within F1 h h1 -> writes_within F2 h1 h2 -> writes_within (F1 ++ F2) h h2.
Proof.
  intros [H1 P1] [H2 P2]. split.
  - intros a Ha. rewrite H2, H1; [reflexivity| |]; intros Hin; apply Ha, in_or_app; auto.
  - intros a q H. apply P1, P2, H.
Qed.

Lemma writes_within_mono F F' h h' :
  (forall a, In a F -> In a F') -> writes_within F h h' -> writes_within F' h h'.
Proof. intros Hsub [H P]. split; [|exact P]. intros a Ha. apply H. auto. Qed.

Lemma reach_mono h h1 d :
  (forall a q, h1 !! a = Some (cell_ptr (Some q)) -> h !! a = Some (cell_ptr (Some q))) ->
  forall a, In a (reach h1 d) -> In a (reach h d).
Proof.
  intros HP a. destruct d; cbn [reach]; auto.
  all: intros [<-|Hin]; [left; reflexivity|]; right.
  all: match goal with
       | H : In _ (match ?hh !! ?x with _ => _ end) |- _ =>
           destruct (hh !! x) as [[| | | | | | | | |[p|]| |]|] eqn:Hl; try destruct H
       end.
  all: try (rewrite (HP _ _ Hl); left; assumption).
  all: try contradiction.
Qed.

(** A store of a scanned value, after the scan that reads it. *)
Lemma scan_then_store {A} (scan : M A) (k : A -> M (bool * option error)) F s w r s' w' :
  reads scan ->
  (forall x s1 w1 r s' w', heap w1 = heap w ->
     k x s1 w1 = Ret r s' w' ->
     s' = s1 /\ conns w' = conns w1 /\ trace w' = trace w1 /\
     writes_within F (heap w1) (heap w')) ->
  bind scan k s w = Ret r s' w' ->
  s' = s /\ conns w' = conns w /\ extends is_column_read w w' /\
  writes_within F (heap w) (heap w').
Proof.
  intros Hscan Hk H. apply bind_inv in H as [x [s1 [w1 [H1 H2]]]].
  destruct (Hscan _ _ _ _ _ H1) as [-> [Hh [Hc [added [Ht Hf]]]]].
  destruct (Hk _ _ _ _ _ _ Hh H2) as [-> [Hc' [Ht' Hw]]].
  split; [reflexivity|]. split; [congruence|]. split.
  - exists added. rewrite Ht', Ht. auto.
  - rewrite <- Hh. exact Hw.
Qed.

Ltac stored x :=
  intros Hh0; first [destruct x as [[? ?] ?] | destruct x as [? ?]];
  unfold store, store_through, bind, ret; cbn [fst snd];
  repeat match goal with
         | |- context [if ?b then _ else _] => destruct b
         | |- context [match ?o with Some _ => _ | None => _ end] => is_var o; destruct o
         end;
  cbn beta iota; rewrite ?Hh0;
  repeat match goal with
         | |- context [match heap ?w0 !! ?a0 with _ => _ end] =>
             destruct (heap w0 !! a0) as [[| | | | | | | | |[?|]| |]|]
         end;
  intros H0; try discriminate; injection H0 as <- <- <-;
  (split; [reflexivity|]); (split; [reflexivity|]); (split; [reflexivity|]);
  cbn [heap set_heap]; rewrite ?Hh0;
  first [ apply writes_within_refl
        | apply writes_within_store; [cbn; auto | discriminate] ].

Lemma ScanByIndex_writes index d s w r s' w' :
  ScanByIndex index d s w = Ret r s' w' ->
  s' = s /\ conns w' = conns w /\ extends is_column_read w w' /\
  writes_within (reach (heap w) d) (heap w) (heap w').
Proof.
  destruct d as [| a | a | a | a | a | a | a | a | a | a | a | a | a | a | a | Scan0 | a | v];
    cbn [ScanByIndex reach]; unfold scan_to, scan_through.
  - intros H. injection H as <- <- <-.
    auto using extends_refl, writes_within_refl.
  - apply scan_then_store; [apply reads_ScanText|]. intros x s1 w1 r0 s0 w0. stored x.
  - apply scan_then_store; [apply reads_ScanText|]. intros x s1 w1 r0 s0 w0. stored x.
  - apply scan_then_store; [apply reads_ScanInt|]. intros x s1 w1 r0 s0 w0. stored x.
  - apply scan_then_store; [apply reads_ScanInt|]. intros x s1 w1 r0 s0 w0. stored x.
  - apply scan_then_store; [apply reads_ScanInt64|]. intros x s1 w1 r0 s0 w0. stored x.
  - apply scan_then_store; [apply reads_ScanInt64|]. intros x s1 w1 r0 s0 w0. stored x.
  - apply scan_then_store; [apply reads_ScanByte|]. intros x s1 w1 r0 s0 w0. stored x.
  - apply scan_then_store; [apply reads_ScanByte|]. intros x s1 w1 r0 s0 w0. stored x.
  - apply scan_then_store; [apply reads_ScanBool|]. intros x s1 w1 r0 s0 w0. stored x.
  - apply scan_then_store; [apply reads_ScanBool|]. intros x s1 w1 r0 s0 w0. stored x.
  - apply scan_then_store; [apply reads_ScanDouble|]. intros x s1 w1 r0 s0 w0. stored x.
  - apply scan_then_store; [apply reads_ScanDouble|]. intros x s1 w1 r0 s0 w0. stored x.
  - apply scan_then_store; [apply reads_ScanBlob|]. intros x s1 w1 r0 s0 w0. stored x.
  - apply scan_then_store; [apply reads_ScanBlob|]. intros x s1 w1 r0 s0 w0. stored x.
  - apply scan_then_store; [apply reads_ScanTime|]. intros x s1 w1 r0 s0 w0. stored x.
  - apply scan_then_store; [apply reads_ScanValue|]. intros x s1 w1 r0 s0 w0. stored x.
  - apply scan_then_store; [apply reads_ScanValue|]. intros x s1 w1 r0 s0 w0. stored x.
  - destruct v as [T|T|T k a]; cbn [ScanReflect reach].
    + unfold specificError, bind, this, ret. intros H. injection H as <- <- <-.
      auto using extends_refl, writes_within_refl.
    + unfold specificError, bind, this, ret. intros H. injection H as <- <- <-.
      auto using extends_refl, writes_within_refl.
    + destruct k.
      * apply scan_then_store; [apply reads_ScanText|]. intros x s1 w1 r0 s0 w0. stored x.
      * apply scan_then_store; [apply reads_ScanInt64|]. intros x s1 w1 r0 s0 w0. stored x.
      * apply scan_then_store; [apply reads_ScanInt64|]. intros x s1 w1 r0 s0 w0.
        unfold specificError, this. stored x.
      * apply scan_then_store; [apply reads_ScanBool|]. intros x s1 w1 r0 s0 w0. stored x.
      * apply scan_then_store; [apply reads_ScanDouble|]. intros x s1 w1 r0 s0 w0. stored x.
      * unfold specificError, bind, this, ret. intros H. injection H as <- <- <-.
        auto using extends_refl, writes_within_refl.
Qed.

Lemma extends_weaken (P Q : NativeCall -> bool) w w' :
  (forall call, P call = true -> Q call = true) -> extends P w w' -> extends Q w w'.
Proof.
  intros HPQ [added [Ht Hf]]. exists added. split; [exact Ht|].
  rewrite forallb_forall in *. auto.
Qed.

Lemma Scan_range_writes args : forall i s w err s' w',
  Scan_range i args s w = Ret err s' w' ->
  s' = s /\ conns w' = conns w /\ extends is_column_read w w' /\
  writes_within (flat_map (reach (heap w)) args) (heap w) (heap w').
Proof.
  induction args as [|d rest IH]; intros i s w err s' w'; cbn [Scan_range flat_map].
  - intros H. injection H as <- <- <-. auto using extends_refl, writes_within_refl.
  - intros H. apply bind_inv in H as [r [s1 [w1 [H1 H2]]]].
    apply ScanByIndex_writes in H1 as [-> [Hc [He Hw]]].
    destruct (snd r).
    + injection H2 as <- <- <-. split; [reflexivity|]. split; [exact Hc|].
      split; [exact He|].
      eapply writes_within_mono; [|exact Hw]. intros a Ha. apply in_or_app. auto.
    + apply IH in H2 as [-> [Hc' [He' Hw']]].
      split; [reflexivity|]. split; [congruence|].
      split; [eapply extends_trans; eassumption|].
      eapply writes_within_trans; [exact Hw|].
      eapply writes_within_mono; [|exact Hw']. intros a Ha.
      apply in_flat_map in Ha as [d' [Hd Ha]]. apply in_flat_map. exists d'.
      split; [exact Hd|]. revert Ha. apply reach_mono. apply Hw.
Qed.

Lemma Scan_writes args s w err s' w' :
  Scan args s w = Ret err s' w' ->
  s' = set_columnCount (columnCount s') s /\ conns w' = conns w /\
  extends column_query w w' /\
  forall a, ~ In a (flat_map (reach (heap w)) args) -> heap w' !! a = heap w !! a.
Proof.
  intros H. unfold Scan in H.
  apply bind_inv in H as [n [s1 [w1 [H1 H2]]]].
  assert (Hcount : s1 = set_columnCount (columnCount s1) s /\ conns w1 = conns w /\
                   heap w1 = heap w /\ extends column_query w w1).
  { revert H1. unfold ColumnCount. run. destruct (columnCount s =? -1); cbn;
      intros H; injection H as <- <- <-; cbn.
    - split; [reflexivity|]. split; [reflexivity|]. split; [reflexivity|].
      apply (extends_after column_query (sqlite3_column_count (stmt s)) w). reflexivity.
    - split; [destruct s; reflexivity|]. auto using extends_refl. }
  destruct Hcount as [Hs1 [Hc1 [Hh1 He1]]].
  destruct (negb (n =? len args)).
  - revert H2. unfold fail, specificError. run. intros H. injection H as <- <- <-.
    split; [exact Hs1|]. split; [exact Hc1|]. split; [exact He1|].
    intros a _. rewrite Hh1. reflexivity.
  - apply Scan_range_writes in H2 as [-> [Hc [He [Hw _]]]].
    split; [exact Hs1|]. split; [congruence|]. split.
    + eapply extends_trans; [exact He1|]. eapply extends_weaken; [|exact He].
      intros call Hcall. destruct call; try discriminate; reflexivity.
    + intros a Ha. rewrite Hh1 in Hw. apply Hw, Ha.
Qed.

(** X13.  [Scan] and [ScanByIndex] write the destinations they are given and
    nothing else: a variable that no destination points to, directly or, for
    a double pointer, through its inner pointer, holds after the call what it
    held before, whatever the result.  [ScanByIndex] leaves the statement as
    it is and [Scan] changes at most the cached number of columns; the
    connections are untouched, and the engine is asked for column values and
    for the number of columns only. *)
Theorem Scan_writes_destinations (args : list Dest) (s : Stmt) (w : World) :
  (forall index d r s' w',
     ScanByIndex index d s w = Ret r s' w' ->
     s' = s /\ conns w' = conns w /\ extends is_column_read w w' /\
     forall a, ~ In a (reach (heap w) d) -> heap w' !! a = heap w !! a) /\
  (forall err s' w',
     Scan args s w = Ret err s' w' ->
     s' = set_columnCount (columnCount s') s /\ conns w' = conns w /\
     extends column_query w w' /\
     forall a, ~ In a (flat_map (reach (heap w)) args) -> heap w' !! a = heap w !! a).
Proof.
  split.
  - intros index d r s' w' H. apply ScanByIndex_writes in H as [-> [Hc [He [Hw _]]]].
    auto.
  - intros err s' w'. apply Scan_writes.
Qed.

(** The three ways [Next] returns. *)
Lemma Next_cases s w r s' w' :
  Next s w = Ret r s' w' ->
  let h := stmt s in
  let rv := answer_int w (sqlite3_step h) in
  let w2 := after (sqlite3_reset h) (after (sqlite3_step h) w) in
  s' = s /\
  match r with
  | (true, err) => err = None /\ rv = SQLITE_ROW /\ w' = after (sqlite3_step h) w
  | (false, None) => rv <> SQLITE_ROW /\ (rv = SQLITE_DONE \/ rv = SQLITE_OK) /\ w' = w2
  | (false, Some e) =>
      rv <> SQLITE_ROW /\ rv <> SQLITE_DONE /\ rv <> SQLITE_OK /\
      exists d, w' = after (sqlite3_errmsg d) w2
  end.
Proof.
  cbv zeta. unfold answer_int, Next, Stmt_error. run. unfold Row, Done, Errno.
  set (rv := C_int (ret_int E (trace w) (sqlite3_step (stmt s)))).
  destruct (Z.eqb_spec rv SQLITE_ROW) as [Hrow|Hrow]; cbn.
  - intros H. injection H as <- <- <-. auto.
  - destruct (Z.eqb_spec rv SQLITE_DONE) as [Hdone|Hdone]; cbn.
    + intros H. injection H as <- <- <-. auto.
    + destruct (Z.eqb_spec rv SQLITE_OK) as [Hok|Hok]; cbn.
      * intros H. injection H as <- <- <-. auto.
      * destruct (c s); [|discriminate]. intros H. injection H as <- <- <-.
        split; [reflexivity|]. repeat split; auto. eexists. reflexivity.
Qed.

Lemma Select_loop_more fuel cb : forall s w r s' w',
  Select_loop fuel cb s w = Ret (Some r) s' w' ->
  forall fuel', (fuel <= fuel')%nat -> Select_loop fuel' cb s w = Ret (Some r) s' w'.
Proof.
  induction fuel as [|fuel IH]; intros s w r s' w' H fuel' Hle; [discriminate|].
  destruct fuel' as [|fuel']; [lia|]. cbn [Select_loop] in *. unfold bind in *.
  destruct (Next s w) as [[[|] [e|]] s1 w1|]; try exact H; try discriminate.
  destruct (cb s1 w1) as [[e|] s2 w2|]; try exact H.
  apply (IH _ _ _ _ _ H). lia.
Qed.

Lemma Select_loop_nil fuel cb : forall s w s' w',
  Select_loop fuel cb s w = Ret (Some None) s' w' ->
  exists tr,
    trace w' = sqlite3_reset (stmt s') :: sqlite3_step (stmt s') :: tr /\
    (C_int (ret_int E tr (sqlite3_step (stmt s'))) = SQLITE_DONE \/
     C_int (ret_int E tr (sqlite3_step (stmt s'))) = SQLITE_OK).
Proof.
  induction fuel as [|fuel IH]; intros s w s' w' H; [discriminate|].
  cbn [Select_loop] in H. apply bind_inv in H as [r [s1 [w1 [HN H]]]].
  apply Next_cases in HN. cbv zeta in HN. destruct HN as [-> HN].
  destruct r as [[|] [e|]]; try discriminate.
  - apply bind_inv in H as [err [s2 [w2 [_ H]]]]. destruct err; [discriminate|].
    apply IH in H. exact H.
  - injection H as <- <-. destruct HN as [_ [Hrv ->]].
    exists (trace w). split; [reflexivity | exact Hrv].
Qed.

(** X14.  The result of [Select] does not depend on the bound of the model:
    once the loop has ended, a larger bound gives the same result.  When
    [Select] returns nil, the last step answered SQLITE_DONE (or SQLITE_OK)
    and the statement was reset after it, by the last native call of the
    run: the statement is ready to be used again. *)
Theorem Select_ends_reset (fuel : nat) (cb : M (option error)) (args : list HostValue)
    (s : Stmt) (w : World) (r : option error) (s' : Stmt) (w' : World) :
  Select fuel cb args s w = Ret (Some r) s' w' ->
  (forall fuel', (fuel <= fuel')%nat -> Select fuel' cb args s w = Ret (Some r) s' w') /\
  (r = None ->
   exists tr,
     trace w' = sqlite3_reset (stmt s') :: sqlite3_step (stmt s') :: tr /\
     (C_int (ret_int E tr (sqlite3_step (stmt s'))) = SQLITE_DONE \/
      C_int (ret_int E tr (sqlite3_step (stmt s'))) = SQLITE_OK)).
Proof.
  unfold Select. destruct (0 <? len args).
  - unfold bind. destruct (Bind args s w) as [[e|] s1 w1|]; try discriminate.
    + intros H. injection H as <- <- <-. split; [reflexivity | discriminate].
    + intros H. split.
      * intros fuel' Hle. eapply Select_loop_more; eassumption.
      * intros ->. eapply Select_loop_nil; eassumption.
  - intros H. split.
    + intros fuel' Hle. eapply Select_loop_more; eassumption.
    + intros ->. eapply Select_loop_nil; eassumption.
Qed.

(** X15.  [SelectOneRow] steps once.  When it finds a row it scans it and
    returns true with the result of the scan, and it does not reset the
    statement: the caller has to, before the statement is used again.  When
    there is no row the statement has been reset, nothing is scanned, and the
    error is nil exactly when the step answered SQLITE_DONE (or
    SQLITE_OK). *)
Theorem SelectOneRow_outcome (args : list Dest) (s : Stmt) (w : World)
    (found : bool) (err : option error) (s' : Stmt) (w' : World) :
  SelectOneRow args s w = Ret (found, err) s' w' ->
  let h := stmt s in
  let rv := answer_int w (sqlite3_step h) in
  if found then
    rv = SQLITE_ROW /\
    Scan args s (after (sqlite3_step h) w) = Ret err s' w' /\
    forallb (fun call => negb (resets call)) (calls_since w w') = true
  else
    rv <> SQLITE_ROW /\ s' = s /\ heap w' = heap w /\
    take 2 (calls_since w w') = [sqlite3_step h; sqlite3_reset h] /\
    (err = None <-> rv = SQLITE_DONE \/ rv = SQLITE_OK).
Proof.
  intros H. cbv zeta. unfold SelectOneRow in H.
  apply bind_inv in H as [r [s1 [w1 [HN H]]]].
  apply Next_cases in HN. cbv zeta in HN. destruct HN as [-> HN].
  destruct r as [[|] [e|]].
  - destruct HN as [HN _]. discriminate.
  - destruct HN as [_ [Hrv ->]].
    apply bind_inv in H as [err0 [s2 [w2 [HS H]]]]. injection H as <- <- <- <-.
    split; [exact Hrv|]. split; [exact HS|].
    apply extends_calls_since.
    eapply extends_trans;
      [apply (extends_after _ (sqlite3_step (stmt s)) w); reflexivity|].
    destruct (Scan_writes _ _ _ _ _ _ HS) as [_ [_ [He _]]].
    eapply extends_weaken; [|exact He].
    intros call Hcall. destruct call; try discriminate; reflexivity.
  - injection H as <- <- <- <-. destruct HN as [Hrow [Hdone [Hok [d ->]]]].
    split; [exact Hrow|]. split; [reflexivity|]. split; [reflexivity|]. split.
    + rewrite calls_since_after3. reflexivity.
    + split; [discriminate|]. intros [?|?]; contradiction.
  - injection H as <- <- <- <-. destruct HN as [Hrow [Hrv ->]].
    split; [exact Hrow|]. split; [reflexivity|]. split; [reflexivity|]. split.
    + rewrite calls_since_after2. reflexivity.
    + split; auto.
Qed.

Lemma binding_Stmt_error rv details : traced binding_call (Stmt_error rv details).
Proof. unfold Stmt_error. repeat traced_step. Qed.

Lemma binding_bind_with call :
  (forall h, binding_call (call h) = true) -> traced binding_call (bind_with call).
Proof.
  intros H. unfold bind_with, native_int.
  apply traced_bind; [apply traced_this|]. intros s.
  apply traced_bind.
  - apply traced_bind; [apply traced_native; apply H | intros; apply traced_ret].
  - intros. apply binding_Stmt_error.
Qed.

Lemma binding_BindReflect index value r : traced binding_call (BindReflect index value r).
Proof.
  unfold BindReflect, fail, specificError, BindParameterName, native_int.
  destruct r; try (apply binding_bind_with; reflexivity).
  - destruct (MaxInt64 <? v); [repeat traced_step | apply binding_bind_with; reflexivity].
  - repeat traced_step.
Qed.

Lemma binding_BindByIndex index value : traced binding_call (BindByIndex index value).
Proof.
  induction value; cbn [BindByIndex];
    try (apply binding_bind_with; reflexivity);
    try assumption.
  - apply traced_bind; [apply traced_world | intros w0].
    destruct (_ && _); apply binding_bind_with; reflexivity.
  - apply traced_bind; [apply traced_world | intros w0].
    destruct (_ && _); apply binding_bind_with; reflexivity.
  - apply traced_ret.
  - apply binding_BindReflect.
Qed.

Lemma binding_Bind_range args : forall i, traced binding_call (Bind_range i args).
Proof.
  induction args as [|v rest IH]; intros i; cbn [Bind_range]; [apply traced_ret|].
  apply traced_bind; [apply binding_BindByIndex|]. intros [e|]; [apply traced_ret | apply IH].
Qed.

Lemma binding_Bind args : traced binding_call (Bind args).
Proof.
  unfold Bind, fail, specificError, BindParameterCount, native_int.
  apply traced_bind; [repeat traced_step | intros n].
  destruct (negb _); [repeat traced_step | apply binding_Bind_range].
Qed.

Lemma finalize_calls s w r s' w' :
  finalize s w = Ret r s' w' -> stmt s <> None -> closed s w = false ->
  exists added, trace w' = added ++ sqlite3_finalize (stmt s) :: trace w.
Proof.
  unfold finalize, Log, Stmt_error. run. intros H Hs Hc. rewrite Hc in H.
  destruct (stmt s) as [h|] eqn:Hh; [|contradiction]. cbn in H.
  destruct (negb _); cbn in H.
  - destruct (_ =? SQLITE_OK); cbn in H.
    + injection H as <- <- <-. cbn. eexists [_]. reflexivity.
    + destruct (c s); [|discriminate]. injection H as <- <- <-. cbn.
      eexists [_; _]. reflexivity.
  - injection H as <- <- <-. exists []. reflexivity.
Qed.

(** X16.  [Conn.prepare] returns a statement or an error, never both and
    never neither.  Its first native call compiles the text.  A statement it
    returns has the handle of the compilation, the type check on and the
    cache flag off, and nothing was finalized.  When the compilation succeeds and the bind of the arguments
    fails, the handle is finalized before the error is returned: it does not
    leak. *)
Theorem prepare_returns_one (cp : connptr) (cmd : string) (args : list HostValue)
    (w : World) (r : option Stmt * option error) (w' : World) :
  prepare cp cmd args w = Returned r w' ->
  let call :=
    sqlite3_prepare_v2 (db (conns w cp)) cmd (C_int (Z.of_nat (String.length cmd) + 1)) in
  let handle := ret_stmt E (trace w) call in
  (fst r = None <-> snd r <> None) /\
  (exists rest, calls_since w w' = call :: rest) /\
  (forall s, fst r = Some s ->
     stmt s = handle /\ c s = Some cp /\ Cacheable s = false /\
     CheckTypeMismatch s = true /\
     forallb (fun x => negb (finalizes x)) (calls_since w w') = true) /\
  (fst r = None -> answer_int w call = SQLITE_OK ->
   handle <> None -> db (conns w cp) <> None ->
   In (sqlite3_finalize handle) (calls_since w w')).
Proof.
  cbv zeta. unfold prepare, answer_int.
  set (call := sqlite3_prepare_v2 (db (conns w cp)) cmd
                 (C_int (Z.of_nat (String.length cmd) + 1))).
  set (s0 := {| c := Some cp; stmt := ret_stmt E (trace w) call; sql := EmptyString;
                tail := C_GoString (ret_text E (trace w) call);
                columnCount := -1; cols := None; bindParameterCount := -1;
                params := None; CheckTypeMismatch := true; Cacheable := false |}).
  set (w1 := set_trace (call :: trace w) w).
  destruct (Z.eqb_spec (C_int (ret_int E (trace w) call)) SQLITE_OK) as [Hok|Hok];
    cbn [negb].
  2:{ unfold Conn_error. intros H. injection H as <- <-. cbn [fst snd].
      split; [split; [discriminate | reflexivity]|].
      split; [eexists; apply (calls_since_after2 w call)|].
      split; [discriminate|]. intros _ H. contradiction. }
  destruct (0 <? len args).
  2:{ intros H. injection H as <- <-. cbn [fst snd].
      split; [split; [discriminate | intros H; contradiction]|].
      split; [exists []; apply (calls_since_after1 w call)|].
      split; [|discriminate].
      intros s H. injection H as <-. repeat split.
      change w1 with (after call w). rewrite calls_since_after1. reflexivity. }
  destruct (Bind args s0 w1) as [[e|] s1 w2|] eqn:HB; [| |discriminate].
  - destruct (finalize s1 w2) as [r0 s2 w3|] eqn:HF; [|discriminate].
    intros H. injection H as <- <-. cbn [fst snd].
    destruct (binding_Bind args _ _ _ _ _ HB) as [added2 [Ht2 _]].
    destruct (framed_Bind args _ _ _ _ _ HB) as [Hst [Hc [_ [_ [_ [Hcn _]]]]]].
    assert (Hext3 : exists added3, trace w3 = added3 ++ trace w2).
    { revert HF. unfold finalize, Log, Stmt_error. run.
      destruct (stmt s1); [|intros H; injection H as <- <- <-; exists []; reflexivity].
      destruct (closed s1 w2); cbn.
      - intros H; injection H as <- <- <-. eexists [_]. reflexivity.
      - destruct (negb _); cbn.
        + destruct (_ =? SQLITE_OK); cbn.
          * intros H; injection H as <- <- <-. eexists [_; _]. reflexivity.
          * destruct (c s1); [|discriminate].
            intros H; injection H as <- <- <-. eexists [_; _; _]. reflexivity.
        + intros H; injection H as <- <- <-. eexists [_]. reflexivity. }
    destruct Hext3 as [added3 Ht3].
    split; [split; [discriminate | reflexivity]|]. split.
    + exists (rev (added3 ++ added2)).
      apply trace_calls_since. cbn [rev].
      rewrite rev_involutive, Ht3, Ht2. unfold w1. cbn [trace set_trace].
      rewrite <- !app_assoc. reflexivity.
    + split; [discriminate|]. intros _ _ Hh Hdb.
      assert (Hcl : closed s1 w2 = false).
      { unfold closed. rewrite Hc. cbn. rewrite Hcn. cbn.
        destruct (db (conns w cp)); [reflexivity | contradiction]. }
      assert (Hs1 : stmt s1 <> None) by (rewrite Hst; exact Hh).
      destruct (finalize_calls _ _ _ _ _ HF Hs1 Hcl) as [added Ht].
      rewrite Hst in Ht. cbn [stmt s0] in Ht.
      rewrite (trace_calls_since w w3
                 (rev (added ++ sqlite3_finalize (ret_stmt E (trace w) call) :: added2 ++ [call]))).
      * apply -> in_rev. apply in_or_app. right. left. reflexivity.
      * rewrite rev_involutive, Ht, Ht2. unfold w1. cbn [trace set_trace].
        rewrite <- !app_assoc. cbn [app]. rewrite <- app_assoc. reflexivity.
  - intros H. injection H as <- <-. cbn [fst snd].
    destruct (binding_Bind args _ _ _ _ _ HB) as [added2 [Ht2 Hf2]].
    split; [split; [discriminate | intros H; contradiction]|].
    assert (Hcs : calls_since w w2 = call :: rev added2).
    { apply trace_calls_since. cbn [rev]. rewrite rev_involutive, Ht2.
      unfold w1. cbn [trace set_trace]. rewrite <- app_assoc. reflexivity. }
    split; [eexists; exact Hcs|]. split; [|discriminate].
    intros s H. injection H as <-.
    pose proof (framed_Bind args _ _ _ _ _ HB) as [Hst [Hc [_ [Hct [Hca _]]]]].
    split; [exact Hst|]. split; [exact Hc|]. split; [exact Hca|]. split; [exact Hct|].
    rewrite Hcs. cbn [forallb]. change (negb (finalizes call)) with true. cbn [andb].
    rewrite forallb_forall in *. intros x Hx. apply in_rev in Hx.
    apply Hf2 in Hx. destruct x; try discriminate; reflexivity.
Qed.

Lemma ScanValue_blob_no_string index s w v isNull s' w' :
  ScanValue index true s w = Ret (v, isNull) s' w' -> forall t, v <> string_value t.
Proof.
  unfold ScanValue, ColumnType. run.
  repeat match goal with
         | |- context [if ?b then _ else _] => destruct b; cbn
         end;
    intros H t; try discriminate; injection H as <- <- <- <-; discriminate.
Qed.

Lemma ScanValue_range_blob n : forall i s w vs s' w',
  ScanValue_range true n i s w = Ret vs s' w' ->
  s' = s /\ heap w' = heap w /\ length vs = n /\
  forall v t, In v vs -> v <> string_value t.
Proof.
  induction n as [|n IH]; intros i s w vs s' w'; cbn [ScanValue_range].
  - intros H. injection H as <- <- <-. repeat split; auto; intros v t [].
  - intros H. apply bind_inv in H as [[v isNull] [s1 [w1 [H1 H]]]].
    apply bind_inv in H as [rest [s2 [w2 [H2 H]]]]. injection H as <- <- <-.
    destruct (reads_ScanValue _ _ _ _ _ _ _ H1) as [-> [Hh1 _]].
    apply IH in H2 as [-> [Hh2 [Hlen Hno]]].
    split; [reflexivity|]. split; [congruence|]. split; [cbn; lia|].
    intros v0 t [<-|Hin]; [|apply Hno; exact Hin].
    cbn [fst]. eapply ScanValue_blob_no_string. exact H1.
Qed.

(** X17.  [rowsImpl.Next] steps once.  On a row it fills the whole slice,
    with a text column given as bytes: no value is a string.  Otherwise the
    slice and the heap are left alone and an error is returned, [io.EOF]
    exactly when the step answered SQLITE_DONE (or SQLITE_OK).  The adapter
    and its statement are unchanged in both cases. *)
Theorem rows_Next_values (n : nat) (d : drv_stmt) (w : World)
    (vs : option (list Value)) (err : option error) (d' : drv_stmt) (w' : World) :
  rows_Next n d w = DRet (vs, err) d' w' ->
  let rv := answer_int w (sqlite3_step (stmt (stmt_s d))) in
  d' = d /\
  match vs with
  | Some values =>
      rv = SQLITE_ROW /\ err = None /\ length values = n /\
      forall v t, In v values -> v <> string_value t
  | None =>
      rv <> SQLITE_ROW /\ heap w' = heap w /\
      exists e, err = Some e /\ (e = io_EOF <-> rv = SQLITE_DONE \/ rv = SQLITE_OK)
  end.
Proof.
  cbv zeta. unfold rows_Next, on_stmt.
  destruct (Next (stmt_s d) w) as [r s1 w1|] eqn:HN; [|discriminate].
  pose proof (Next_cases _ _ _ _ _ HN) as Hc. cbv zeta in Hc. destruct Hc as [-> Hc].
  assert (Hd : {| stmt_s := stmt_s d; rowsRef := rowsRef d; pendingClose := pendingClose d |} = d)
    by (destruct d; reflexivity).
  destruct r as [[|] [e|]]; cbn [stmt_s rowsRef pendingClose].
  - destruct Hc as [Hc _]. discriminate.
  - destruct Hc as [_ [Hrv ->]].
    destruct (ScanValue_range true n 0 (stmt_s d) (after (sqlite3_step (stmt (stmt_s d))) w))
      as [values s2 w2|] eqn:HS; [|discriminate].
    intros H. injection H as <- <- <- <-.
    apply ScanValue_range_blob in HS as [-> [_ [Hlen Hno]]].
    split; [exact Hd|]. auto.
  - intros H. injection H as <- <- <- <-. destruct Hc as [Hrow [Hdone [Hok [d0 ->]]]].
    split; [exact Hd|]. split; [exact Hrow|]. split; [reflexivity|].
    exists e. split; [reflexivity|]. split.
    + intros ->. revert HN. unfold Next, Stmt_error. run.
      repeat match goal with
             | |- context [if ?b then _ else _] => destruct b; cbn
             end; try discriminate.
      destruct (c (stmt_s d)); discriminate.
    + intros [?|?]; contradiction.
  - intros H. injection H as <- <- <- <-. destruct Hc as [Hrow [Hrv ->]].
    split; [exact Hd|]. split; [exact Hrow|]. split; [reflexivity|].
    exists io_EOF. split; [reflexivity|]. split; auto.
Qed.

(** X18.  While the rows of a query are open the adapter keeps its statement:
    after a successful [stmt.Query] a second [Query] is refused without any
    native call, and [stmt.Close] only notes that a close is pending and
    returns nil, without finalizing.  [rowsImpl.Close] then finalizes the
    statement; when no close is pending it resets the statement, and the
    rows are no longer open in both cases. *)
Theorem rows_keep_statement_open (args : list HostValue) (d : drv_stmt) (w : World)
    (d1 : drv_stmt) (w1 : World) :
  stmt_Query args d w = DRet None d1 w1 ->
  rowsRef d = false /\ rowsRef d1 = true /\
  (forall args2 w2,
     stmt_Query args2 d1 w2
       = DRet (Some (errors_New "Previously returned Rows still not closed")) d1 w2) /\
  (forall w2,
     stmt_Close d1 w2 = DRet None (set_pendingClose true d1) w2 /\
     forall w3,
       rows_Close (set_pendingClose true d1) w3
         = on_stmt Finalize (set_rowsRef false (set_pendingClose true d1)) w3) /\
  (pendingClose d1 = false ->
   forall w2, rows_Close d1 w2 = on_stmt Reset (set_rowsRef false d1) w2) /\
  (forall r d2 w2 w3, rows_Close d1 w2 = DRet r d2 w3 -> rowsRef d2 = false).
Proof.
  unfold stmt_Query. destruct (rowsRef d) eqn:Hr; [discriminate|].
  unfold stmt_bind, on_stmt.
  destruct (Bind_range 0 args (stmt_s d) w) as [[e|] s1 w0|]; try discriminate.
  intros H. injection H as <- <-.
  split; [reflexivity|]. split; [reflexivity|]. split; [|split; [|split]].
  - intros args2 w2. reflexivity.
  - intros w2. split; [reflexivity|]. intros w3. reflexivity.
  - cbn. intros Hp w2. unfold rows_Close. cbn. rewrite Hp. reflexivity.
  - intros r d2 w2 w3. unfold rows_Close, stmt_Close, on_stmt. cbn.
    destruct (pendingClose d);
      match goal with
      | |- match ?x with _ => _ end = _ -> _ => destruct x
      end; try discriminate; intros H; injection H as _ <- _; reflexivity.
Qed.

(** X19.  A [time.Time] goes to the engine as its Unix seconds, an integer,
    and [ScanTime] reads an Integer column back as the local time of those
    seconds: the instant is kept to the second, the nanoseconds and the
    location are not.  With [NullIfZeroTime] the zero time is bound as NULL,
    and a Null column is read back as the zero time, with the null flag. *)
Theorem Time_as_Unix_seconds (t : Time) (index col : Z) (s : Stmt) (w : World) :
  let h := stmt s in
  let i := C_int index in
  let w1 := after (sqlite3_column_type h (C_int col)) w in
  (NullIfZeroTime w && IsZero t = true ->
   binds (BindByIndex index (V_Time t)) (sqlite3_bind_null h i) s w) /\
  (NullIfZeroTime w && IsZero t = false -> in_int64 (Unix t) ->
   binds (BindByIndex index (V_Time t)) (sqlite3_bind_int64 h i (Unix t)) s w /\
   bound_value (sqlite3_bind_int64 h i (Unix t)) = Some (SInteger (Unix t))) /\
  (storage_class s w col = Null ->
   ScanTime col s w = Ret (zeroTime, true, None) s w1 /\ IsZero zeroTime = true) /\
  (storage_class s w col = Integer ->
   let call := sqlite3_column_int64 h (C_int col) in
   let x := int64 (C_sqlite3_int64 (ret_int E (trace w1) call)) in
   ScanTime col s w = Ret (time_Unix x 0, false, None) s (after call w1) /\
   (x = Unix t ->
    Unix (time_Unix x 0) = Unix t /\ nanos (time_Unix x 0) = 0 /\
    loc (time_Unix x 0) = Local)).
Proof.
  cbv zeta. unfold storage_class, answer_int. split; [|split; [|split]].
  - intros H. unfold binds. cbn [BindByIndex]. unfold bind at 1, world.
    rewrite H. reflexivity.
  - intros H Hx. split; [|reflexivity]. unfold binds. cbn [BindByIndex].
    unfold bind at 1, world. rewrite H. rewrite C_sqlite3_int64_id by exact Hx.
    reflexivity.
  - intros H. split; [|reflexivity]. unfold ScanTime, ColumnType. run. rewrite H.
    reflexivity.
  - intros H. split.
    + unfold ScanTime, ColumnType. run. rewrite H. reflexivity.
    + intros ->. repeat split.
Qed.

Lemma scan_integer_Integer {A} (zero : A) conv index s w :
  storage_class s w index = Integer ->
  let h := stmt s in
  let w1 := after (sqlite3_column_type h (C_int index)) w in
  let call := sqlite3_column_int h (C_int index) in
  scan_integer zero sqlite3_column_int native_int conv index s w
    = Ret (conv (C_int (ret_int E (trace w1) call)), false, None) s (after call w1).
Proof.
  unfold storage_class, answer_int. intros H. cbv zeta.
  unfold scan_integer. run. rewrite H. cbn.
  destruct (CheckTypeMismatch s); reflexivity.
Qed.

Lemma int_C_int z : int (C_int z) = C_int z.
Proof.
  unfold int, intSize, C_int. apply sint_id; [lia|]. unfold sint.
  pose proof (Z.mod_pos_bound (z + 2 ^ (32 - 1)) (2 ^ 32) ltac:(lia)).
  change (2 ^ (32 - 1)) with 2147483648 in *. change (2 ^ 32) with 4294967296 in *.
  change (2 ^ (64 - 1)) with 9223372036854775808. lia.
Qed.

(** X20.  What the scans of an Integer column make of the engine's 32-bit
    value [x]: [ScanInt] returns it as it is, [ScanByte] its low 8 bits
    without error, and [ScanBool] true for 1 and false for every other value,
    non-zero ones included.  A bool is bound as 0 or 1, so it is read back as
    it was bound. *)
Theorem ScanBool_ScanByte_values (index col : Z) (b : bool) (s : Stmt) (w : World) :
  let h := stmt s in
  let w1 := after (sqlite3_column_type h (C_int col)) w in
  let call := sqlite3_column_int h (C_int col) in
  let x := C_int (ret_int E (trace w1) call) in
  binds (BindByIndex index (V_bool b)) (sqlite3_bind_int h (C_int index) (btocint b)) s w /\
  (storage_class s w col = Integer ->
   ScanInt col s w = Ret (x, false, None) s (after call w1) /\
   ScanByte col s w = Ret (x mod 256, false, None) s (after call w1) /\
   ScanBool col s w = Ret (x =? 1, false, None) s (after call w1) /\
   (x = btocint b -> (x =? 1) = b) /\
   (x <> 1 -> (x =? 1) = false)).
Proof.
  cbv zeta. split; [reflexivity|]. intros H.
  pose proof (fun A (zero : A) conv => scan_integer_Integer zero conv col s w H) as Hs.
  cbv zeta in Hs. unfold ScanInt, ScanByte, ScanBool. rewrite !Hs.
  split; [|split; [|split; [|split]]].
  - rewrite int_C_int. reflexivity.
  - reflexivity.
  - reflexivity.
  - intros ->. destruct b; reflexivity.
  - intros Hx. apply Z.eqb_neq. exact Hx.
Qed.

Lemma NamedScan_loop_writes : forall n args, (length args <= n)%nat -> forall i s w err s' w',
  NamedScan_loop i args s w = Ret err s' w' ->
  stmt s' = stmt s /\ conns w' = conns w /\
  writes_within (flat_map (fun x => reach (heap w) (as_dest x)) args) (heap w) (heap w').
Proof.
  induction n as [|n IH]; intros args Hlen i s w err s' w'.
  - destruct args; [|cbn in Hlen; lia]. cbn. intros H. injection H as <- <- <-.
    auto using writes_within_refl.
  - destruct args as [|name [|ptr0 rest]]; cbn [NamedScan_loop].
    + intros H. injection H as <- <- <-. auto using writes_within_refl.
    + intros H. injection H as <- <- <-. split; [reflexivity|]. split; [reflexivity|].
      apply writes_within_refl.
    + destruct name as [nm|d0].
      * intros H. apply bind_inv in H as [[j e] [s1 [w1 [HI H]]]].
        destruct (framed_ColumnIndex nm _ _ _ _ _ HI)
          as [Hst [_ [_ [_ [_ [Hcn [Hh _]]]]]]].
        destruct e as [e|].
        { injection H as <- <- <-. split; [exact Hst|]. split; [exact Hcn|].
          rewrite Hh. apply writes_within_refl. }
        apply bind_inv in H as [r [s2 [w2 [HS H]]]].
        apply ScanByIndex_writes in HS as [-> [Hc2 [_ Hw2]]]. rewrite Hh in Hw2.
        cbn [flat_map as_dest reach app].
        destruct (snd r).
        { injection H as <- <- <-. split; [exact Hst|]. split; [congruence|].
          eapply writes_within_mono; [|exact Hw2]. intros a Ha. apply in_or_app. auto. }
        apply IH in H; [|cbn in Hlen; lia]. destruct H as [Hst' [Hc' Hw']].
        split; [congruence|]. split; [congruence|].
        eapply writes_within_trans; [exact Hw2|].
        eapply writes_within_mono; [|exact Hw']. intros a Ha.
        apply in_flat_map in Ha as [d' [Hd Ha]]. apply in_flat_map. exists d'.
        split; [exact Hd|]. revert Ha. apply reach_mono. apply Hw2.
      * unfold fail, specificError. run. intros H. injection H as <- <- <-.
        split; [reflexivity|]. split; [reflexivity|]. apply writes_within_refl.
Qed.

(** X21.  The scans by name write the destinations they are given and
    nothing else, as the scans by index do: after [ScanByName] and after
    [NamedScan], whatever the result, a variable that no destination points
    to holds what it held before; the handle of the statement and the
    connections are unchanged.  A name that the statement does not have stops
    [ScanByName] before anything is written. *)
Theorem named_scans_write_destinations (args : list ScanArg) (s : Stmt) (w : World) :
  (forall name d r s' w',
     ScanByName name d s w = Ret r s' w' ->
     stmt s' = stmt s /\ conns w' = conns w /\
     (forall a, ~ In a (reach (heap w) d) -> heap w' !! a = heap w !! a) /\
     (forall m, cols s' = Some m -> m !! name = None ->
        heap w' = heap w /\
        exists e, r = (false, Some e) /\
                  error_format e = Some "invalid column name: %s"%string)) /\
  (forall err s' w',
     NamedScan args s w = Ret err s' w' ->
     stmt s' = stmt s /\ conns w' = conns w /\
     forall a, ~ In a (flat_map (fun x => reach (heap w) (as_dest x)) args) ->
               heap w' !! a = heap w !! a).
Proof.
  split.
  - intros name d r s' w' H. unfold ScanByName in H.
    apply bind_inv in H as [[j e] [s1 [w1 [HI H]]]].
    destruct (framed_ColumnIndex name _ _ _ _ _ HI) as [Hst [_ [_ [_ [_ [Hcn [Hh _]]]]]]].
    assert (Hres : match e with
                   | Some e0 => error_format e0 = Some "invalid column name: %s"%string
                   | None => exists m, cols s1 = Some m /\ m !! name = Some j
                   end).
    { revert HI. unfold ColumnIndex. intros HI.
      apply bind_inv in HI as [s0 [s2 [w2 [H0 HI]]]].
      apply bind_inv in HI as [u [s3 [w3 [H1 HI]]]].
      revert HI. unfold specificError. run.
      destruct (cols s3) as [m|] eqn:Hm; cbn.
      - destruct (m !! name) as [k|] eqn:Hl; intros HI; injection HI as <- <- <- <-.
        + exists m. auto.
        + reflexivity.
      - rewrite lookup_empty. intros HI; injection HI as <- <- <- <-. reflexivity. }
    destruct e as [e|].
    + injection H as <- <- <-. split; [exact Hst|]. split; [exact Hcn|]. split.
      * intros a _. rewrite Hh. reflexivity.
      * intros m Hm Hl. split; [exact Hh|]. exists e. auto.
    + destruct Hres as [m [Hm Hl]].
      apply ScanByIndex_writes in H as [-> [Hc2 [_ [Hw2 _]]]]. rewrite Hh in Hw2.
      split; [exact Hst|]. split; [congruence|]. split; [exact Hw2|].
      intros m' Hm' Hl'. congruence.
  - intros err s' w'. unfold NamedScan. destruct (negb _).
    + unfold fail, specificError. run. intros H. injection H as <- <- <-.
      split; [reflexivity|]. split; [reflexivity|]. reflexivity.
    + intros H. apply (NamedScan_loop_writes (length args)) in H; [|lia].
      destruct H as [Hst [Hc [Hw _]]]. auto.
Qed.

End Statement.

(** ** Concrete runs *)

(** C1, at a concrete input: the text [abc] scanned into an [*int64] with the
    check enabled is a type mismatch. *)
Lemma type_mismatch_policy_witness :
  storage_class text_row (a_stmt false) (world_of open_conn a_heap) 0 <> Null /\
  returns_TypeMismatch
    (ScanByIndex text_row (-1) JulianDay_unused 0 (p_int64 2%nat) (a_stmt false)
       (world_of open_conn a_heap)).
Proof.
  assert (H : storage_class text_row (a_stmt false) (world_of open_conn a_heap) 0 <> Null)
    by (vm_compute; discriminate).
  split; [exact H|].
  apply (type_mismatch_policy text_row (-1) JulianDay_unused 0 (p_int64 2%nat)
           (a_stmt false) (world_of open_conn a_heap) H).
  split; reflexivity.
Defined.



(** C3, at a concrete input: a text of 19 bytes with [T] at offset 10. *)
Lemma timestamp_layout_by_length_witness :
  String.length "2020-01-02T10:30:00" = 19%nat /\
  String.get 10 "2020-01-02T10:30:00" = Some "T"%char /\
  ScanTime_layout "2020-01-02T10:30:00" = "2006-01-02T15:04:05"%string.
Proof.
  split; [reflexivity|]. split; [reflexivity|].
  pose proof (timestamp_layout_by_length text_row JulianDay_unused "2020-01-02T10:30:00")
    as H.
  cbv zeta in H.
  destruct H as [_ [_ [_ [_ [_ [HT _]]]]]].
  destruct (HT eq_refl) as [_ [H19 _]].
  exact (H19 eq_refl).
Defined.



(** C6, at a concrete input: two arguments for a statement whose cached
    parameter count is 1. *)
Lemma local_errors_witness :
  bindParameterCount (a_stmt false) <> -1 /\
  bindParameterCount (a_stmt false) <> 2 /\
  exists e,
    Bind text_row (-1) [V_int64 1; V_int64 2] (a_stmt false) (world_of open_conn ∅)
    = Ret (Some e) (a_stmt false) (world_of open_conn ∅) /\
    error_format e = Some "incorrect argument count for Stmt.Bind: have %d want %d"%string.
Proof.
  assert (H1 : bindParameterCount (a_stmt false) <> -1) by discriminate.
  assert (H2 : bindParameterCount (a_stmt false) <> 2) by discriminate.
  split; [exact H1|]. split; [exact H2|].
  exact (proj1 (local_errors text_row (-1) JulianDay_unused (a_stmt false)
                  (world_of open_conn ∅)) [V_int64 1; V_int64 2] H1 H2).
Defined.

(** C6 as stated fails: an unknown parameter name is found by asking the
    engine, so the failing lookup adds a native call to the trace. *)
Lemma unknown_name_counterexample :
  ~ stated_unknown_name_is_local text_row (-1) (a_stmt false) (world_of open_conn ∅).
Proof.
  intros H.
  assert (Hr : BindParameterIndex text_row (-1) ":x" (a_stmt false) (world_of open_conn ∅)
               = Ret (0, Some (StmtError
                                 {| ce_c := Some 0%nat; code := -1;
                                    msg := Sprintf "invalid parameter name: %q" [a_string ":x"];
                                    details := EmptyString |} (a_stmt false)))
                     (a_stmt false)
                     (after (sqlite3_bind_parameter_index (Some 7%N) ":x")
                        (world_of open_conn ∅))) by reflexivity.
  apply H in Hr. discriminate.
Qed.

(** C7, at concrete inputs: a step that reports a row, and a step that fails. *)
Lemma Next_step_witness :
  Next one_row (a_stmt false) (world_of open_conn ∅) =
    Ret (true, None) (a_stmt false) (after (sqlite3_step (Some 7%N)) (world_of open_conn ∅)) /\
  exists e w',
    Next misuse (a_stmt false) (world_of open_conn ∅) = Ret (false, Some e) (a_stmt false) w' /\
    error_stmt e = Some (a_stmt false).
Proof.
  split.
  - exact (proj1 (proj1 (Next_step one_row (a_stmt false) (world_of open_conn ∅)) eq_refl)).
  - pose proof (Next_step misuse (a_stmt false) (world_of open_conn ∅)) as H.
    cbv zeta in H. destruct H as [_ [_ H]].
    assert (H1 : answer_int misuse (world_of open_conn ∅) (sqlite3_step (stmt (a_stmt false)))
                 <> SQLITE_ROW) by (vm_compute; discriminate).
    assert (H2 : answer_int misuse (world_of open_conn ∅) (sqlite3_step (stmt (a_stmt false)))
                 <> SQLITE_DONE) by (vm_compute; discriminate).
    assert (H3 : answer_int misuse (world_of open_conn ∅) (sqlite3_step (stmt (a_stmt false)))
                 <> SQLITE_OK) by (vm_compute; discriminate).
    destruct (H H1 H2 H3 0%nat eq_refl) as [Hrun [_ [He _]]].
    eexists. eexists. split; [exact Hrun | exact He].
Defined.

(** C8, at a concrete input: the empty string under the null-if-empty
    policy. *)
Lemma bind_string_policy_witness :
  NullIfEmptyString (world_of open_conn ∅) = true /\
  binds text_row (BindByIndex text_row (-1) 1 (V_string EmptyString))
        (sqlite3_bind_null (Some 7%N) 1) (a_stmt false) (world_of open_conn ∅).
Proof.
  split; [reflexivity|].
  pose proof (bind_string_policy text_row (-1) 1 EmptyString (a_stmt false)
                (world_of open_conn ∅)) as H.
  cbv zeta in H. destruct H as [H _].
  exact (proj1 (H eq_refl eq_refl)).
Defined.

(** C9, at a concrete input: [finalize] on an open connection, and then a
    step that the engine answers with SQLITE_MISUSE. *)
Lemma after_finalize_witness :
  stmt (a_stmt false) <> None /\
  finalize misuse (a_stmt false) (world_of open_conn ∅) =
    Ret None (set_stmt None (a_stmt false))
        (after (sqlite3_finalize (Some 7%N)) (world_of open_conn ∅)) /\
  stmt (set_stmt None (a_stmt false)) = None /\
  finalize misuse (set_stmt None (a_stmt false)) (world_of open_conn ∅) =
    Ret None (set_stmt None (a_stmt false)) (world_of open_conn ∅).
Proof.
  assert (H1 : stmt (a_stmt false) <> None) by discriminate.
  assert (H2 : finalize misuse (a_stmt false) (world_of open_conn ∅) =
               Ret None (set_stmt None (a_stmt false))
                   (after (sqlite3_finalize (Some 7%N)) (world_of open_conn ∅)))
    by reflexivity.
  split; [exact H1|]. split; [exact H2|].
  destruct (after_finalize misuse _ _ _ _ H1 H2) as [Hs [_ [Hf _]]].
  split; [exact Hs | exact (Hf (world_of open_conn ∅))].
Defined.

(** C9 as stated fails: after a successful [finalize], a second [finalize]
    returns no error. *)
Lemma use_after_finalize_counterexample :
  ~ stated_fails_after_finalize text_row (finalize text_row) (a_stmt false)
      (world_of open_conn ∅).
Proof.
  intros H.
  assert (Hh : stmt (a_stmt false) <> None) by discriminate.
  destruct (H (set_stmt None (a_stmt false))
              (after (sqlite3_finalize (Some 7%N)) (world_of open_conn ∅)) Hh eq_refl)
    as [e [s2 [w2 Hr]]].
  discriminate.
Qed.

(** C10, at a concrete input: an execution that completes and changes no
    row. *)
Lemma Insert_without_change_witness :
  let w1 := after (sqlite3_reset (Some 7%N))
              (after (sqlite3_step (Some 7%N))
                 (after (sqlite3_bind_int64 (Some 7%N) 1 5) (world_of open_conn ∅))) in
  Exec text_row (-1) [V_int64 5] (a_stmt false) (world_of open_conn ∅)
    = Ret None (a_stmt false) w1 /\
  Insert text_row (-1) [V_int64 5] (a_stmt false) (world_of open_conn ∅)
    = Ret (-1, None) (a_stmt false) (after (sqlite3_changes (Some 1%N)) w1).
Proof.
  intros w1.
  assert (H1 : Exec text_row (-1) [V_int64 5] (a_stmt false) (world_of open_conn ∅)
               = Ret None (a_stmt false) w1) by reflexivity.
  split; [exact H1|].
  pose proof (Insert_without_change text_row (-1) [V_int64 5] (a_stmt false)
                (world_of open_conn ∅) (a_stmt false) w1 0%nat H1 eq_refl) as H.
  cbv zeta in H. destruct H as [H _].
  exact (proj1 (H eq_refl)).
Defined.

(** ** Concrete runs of the further properties *)

Lemma accepts_binds_text_row : accepts_binds text_row.
Proof. intros tr call H. destruct call; try discriminate; reflexivity. Qed.

Lemma accepts_binds_two_columns : accepts_binds two_columns.
Proof. intros tr call H. destruct call; try discriminate; reflexivity. Qed.

(** X2, at a concrete input: the second of three arguments is a [Valuer] that
    fails; the first stays bound and the third is never bound. *)
Lemma Bind_stops_at_first_error_witness :
  let s := set_bindParameterCount 3 (a_stmt false) in
  let w := world_of open_conn ∅ in
  Bind text_row (-1) [V_int64 5; V_Valuer_err "no value"; V_nil] s w
    = Ret (Some (foreign_error "no value")) s
          (after (sqlite3_bind_int64 (Some 7%N) 1 5) w).
Proof.
  intros s w.
  apply (Bind_stops_at_first_error text_row (-1) [V_int64 5] (V_Valuer_err "no value")
           [V_nil] s w s (after (sqlite3_bind_int64 (Some 7%N) 1 5) w)
           (foreign_error "no value") s (after (sqlite3_bind_int64 (Some 7%N) 1 5) w));
    reflexivity.
Defined.

(** X3, at a concrete input: two arguments for two parameters. *)
Lemma Bind_binds_in_order_witness :
  let s := set_bindParameterCount 2 (a_stmt false) in
  let w := world_of open_conn ∅ in
  exists w',
    Bind text_row (-1) [V_int64 5; V_nil] s w = Ret None s w' /\
    map bind_index (calls_since w w') = [Some 1; Some 2] /\
    forallb is_bind (calls_since w w') = true.
Proof.
  intros s w.
  apply (Bind_binds_in_order text_row (-1) [V_int64 5; V_nil] s w
           accepts_binds_text_row eq_refl eq_refl).
Defined.

(** X5, at a concrete input: the index of [:id], once found, is answered from
    the statement. *)
Lemma BindParameterIndex_cache_witness :
  let w := world_of open_conn ∅ in
  let s' := set_params (Some (<[":id"%string := 1]> ∅)) (set_params (Some ∅)
              (set_bindParameterCount 2 fresh_stmt)) in
  let w' := after (sqlite3_bind_parameter_index (Some 7%N) ":id")
              (after (sqlite3_bind_parameter_count (Some 7%N)) w) in
  BindParameterIndex two_columns (-1) ":id" fresh_stmt w = Ret (1, None) s' w' /\
  forall w2, BindParameterIndex two_columns (-1) ":id" s' w2 = Ret (1, None) s' w2.
Proof.
  intros w s' w'.
  assert (H : BindParameterIndex two_columns (-1) ":id" fresh_stmt w = Ret (1, None) s' w')
    by reflexivity.
  split; [exact H|].
  exact (proj1 (BindParameterIndex_cache two_columns (-1) ":id" fresh_stmt w 1 None s' w' H)
           eq_refl).
Defined.

Lemma column_names_two_columns :
  column_names two_columns (Some 7%N)
    (fun i => id_or_name (C_int i)).
Proof. intros tr i. reflexivity. Qed.

(** X6, at a concrete input: the column [name] of a statement with the
    columns [id] and [name]. *)
Lemma ColumnIndex_last_wins_witness :
  let w := world_of open_conn ∅ in
  exists j err s' w',
    ColumnIndex two_columns (-1) "name" fresh_stmt w = Ret (j, err) s' w' /\
    extends shape_query w w' /\
    match err with
    | None =>
        0 <= j < 2 /\ id_or_name (C_int j) = "name"%string /\
        forall k, j < k < 2 -> id_or_name (C_int k) <> "name"%string
    | Some e =>
        j = -1 /\ error_format e = Some "invalid column name: %s"%string /\
        forall k, 0 <= k < 2 -> id_or_name (C_int k) <> "name"%string
    end.
Proof.
  intros w.
  apply (ColumnIndex_last_wins two_columns (-1)
           (fun i => id_or_name (C_int i)) "name" fresh_stmt w 2
           (set_columnCount 2 fresh_stmt) (after (sqlite3_column_count (Some 7%N)) w)
           column_names_two_columns eq_refl eq_refl).
Defined.

(** X7, at a concrete input: a lookup in a statement whose map is built. *)
Lemma ColumnIndex_built_once_witness :
  let w := world_of open_conn ∅ in
  exists m,
    cols (a_stmt false) = Some m /\
    forall name2 w2,
      exists r2,
        ColumnIndex text_row (-1) name2 (a_stmt false) w2 = Ret r2 (a_stmt false) w2 /\
        fst r2 = default (-1) (m !! name2) /\
        (snd r2 = None <-> m !! name2 <> None).
Proof.
  intros w.
  apply (ColumnIndex_built_once text_row (-1) "id" (a_stmt false) w
           (-1, Some (StmtError {| ce_c := Some 0%nat; code := -1;
                                   msg := Sprintf "invalid column name: %s" [a_string "id"];
                                   details := EmptyString |} (a_stmt false)))
           (a_stmt false) w eq_refl).
Defined.

(** X8, at a concrete input: the names of the two columns. *)
Lemma ColumnNames_in_order_witness :
  let w := world_of open_conn ∅ in
  exists w',
    ColumnNames two_columns fresh_stmt w
      = Ret ["id"; "name"]%string (set_columnCount 2 fresh_stmt) w' /\
    extends shape_query w w'.
Proof.
  intros w.
  apply (proj1 (ColumnNames_in_order two_columns
                  (fun i => id_or_name (C_int i)) fresh_stmt w 2
                  (set_columnCount 2 fresh_stmt) (after (sqlite3_column_count (Some 7%N)) w)
                  column_names_two_columns eq_refl)).
  lia.
Defined.

(** X9, at a concrete input: [Exec] of a statement that returns a row. *)
Lemma Exec_outcome_witness :
  let w := world_of open_conn ∅ in
  let w1 := after (sqlite3_bind_int64 (Some 7%N) 1 5) w in
  let w3 := after (sqlite3_errmsg (Some 1%N))
              (after (sqlite3_reset (Some 7%N)) (after (sqlite3_step (Some 7%N)) w1)) in
  exists e,
    Exec one_row (-1) [V_int64 5] (a_stmt false) w = Ret (Some e) (a_stmt false) w3 /\
    calls_since w1 w3
      = [sqlite3_step (Some 7%N); sqlite3_reset (Some 7%N); sqlite3_errmsg (Some 1%N)] /\
    error_code e = Some SQLITE_ROW /\
    error_details e = Some "Stmt.exec"%string /\
    error_stmt e = Some (a_stmt false).
Proof.
  intros w w1 w3.
  assert (HB : Bind one_row (-1) [V_int64 5] (a_stmt false) w = Ret None (a_stmt false) w1)
    by reflexivity.
  pose proof (Exec_outcome one_row (-1) [V_int64 5] (a_stmt false) w None (a_stmt false) w1 HB)
    as H.
  cbv zeta in H. destruct H as [_ H].
  apply (H ltac:(discriminate) ltac:(discriminate) 0%nat eq_refl).
Defined.

(** X10, at a concrete input: 300 read into an [int8] is 44. *)
Lemma ScanReflect_integer_kinds_witness :
  let w := world_of open_conn a_heap in
  let w2 := after (sqlite3_column_int64 (Some 7%N) 0)
              (after (sqlite3_column_type (Some 7%N) 0) w) in
  ScanReflect two_columns (-1) 0 (v_ptr "int8" (K_Int 8) 2%nat) (a_stmt false) w
    = Ret (false, None) (a_stmt false)
          (set_heap (<[2%nat := cell_kind (K_Int 8) 44]> (heap w2)) w2).
Proof.
  intros w w2.
  destruct (ScanReflect_integer_kinds two_columns (-1) "int8" 8 2%nat 0 (a_stmt false) w
              eq_refl) as [[v [Hr [Hv _]]] _].
  rewrite Hr, Hv. reflexivity.
Defined.

Lemma parameter_index_two_columns :
  parameter_index two_columns (Some 7%N)
    (fun name => if String.eqb name ":id" then 1 else 0).
Proof. intros tr name. cbn. destruct (String.eqb name ":id"); reflexivity. Qed.

(** X12, at a concrete input: [:id] is bound, [:nope] is refused. *)
Lemma NamedBind_by_name_witness :
  let w := world_of open_conn ∅ in
  exists err s' w',
    NamedBind two_columns (-1)
      [V_string ":id"; V_int64 5; V_string ":nope"; V_nil] fresh_stmt w = Ret err s' w' /\
    bound_indexes (calls_since w w') = [Some 1] /\
    ([(":nope"%string, V_nil)] = [] -> err = None) /\
    ([(":nope"%string, V_nil)] <> [] ->
     exists e, err = Some e /\ error_format e = Some "invalid parameter name: %q"%string).
Proof.
  intros w.
  apply (NamedBind_by_name two_columns (-1)
           (fun name => if String.eqb name ":id" then 1 else 0)
           [(":id"%string, V_int64 5)] [(":nope"%string, V_nil)] fresh_stmt w
           accepts_binds_two_columns parameter_index_two_columns).
  - intros m n i H. discriminate.
  - reflexivity.
  - reflexivity.
Defined.

(** X14, at a concrete input: a statement without rows. *)
Lemma Select_ends_reset_witness :
  let w := world_of open_conn ∅ in
  let w2 := after (sqlite3_reset (Some 7%N)) (after (sqlite3_step (Some 7%N)) w) in
  Select text_row (-1) 1 (ret None) [] (a_stmt false) w
    = Ret (Some None) (a_stmt false) w2 /\
  Select text_row (-1) 5 (ret None) [] (a_stmt false) w
    = Ret (Some None) (a_stmt false) w2.
Proof.
  intros w w2.
  assert (H : Select text_row (-1) 1 (ret None) [] (a_stmt false) w
              = Ret (Some None) (a_stmt false) w2) by reflexivity.
  split; [exact H|].
  apply (proj1 (Select_ends_reset text_row (-1) 1 (ret None) [] (a_stmt false) w None
                  (a_stmt false) w2 H) 5%nat).
  repeat constructor.
Defined.

(** X15, at a concrete input: a row is found and scanned into an [int64];
    the statement is not reset. *)
Lemma SelectOneRow_outcome_witness :
  let w := world_of open_conn a_heap in
  let w3 := after (sqlite3_column_int64 (Some 7%N) 0)
              (after (sqlite3_column_type (Some 7%N) 0)
                 (after (sqlite3_step (Some 7%N)) w)) in
  let w' := set_heap (<[2%nat := cell_int64 300]> a_heap) w3 in
  SelectOneRow two_columns (-1) JulianDay_unused [p_int64 2%nat] (a_stmt false) w
    = Ret (true, None) (a_stmt false) w' /\
  forallb (fun call => negb (resets call)) (calls_since w w') = true.
Proof.
  intros w w3 w'.
  assert (H : SelectOneRow two_columns (-1) JulianDay_unused [p_int64 2%nat] (a_stmt false) w
              = Ret (true, None) (a_stmt false) w') by reflexivity.
  split; [exact H|].
  pose proof (SelectOneRow_outcome two_columns (-1) JulianDay_unused [p_int64 2%nat]
                (a_stmt false) w true None (a_stmt false) w' H) as H1.
  cbv zeta in H1. exact (proj2 (proj2 H1)).
Defined.

(** X16, at a concrete input: a text with a parameter is compiled with an
    argument whose [Valuer] fails; the handle is finalized. *)
Lemma prepare_returns_one_witness :
  let w := world_of open_conn ∅ in
  exists r w',
    prepare text_row (-1) 0%nat "SELECT ?" [V_Valuer_err "no value"] w = Returned r w' /\
    fst r = None /\ snd r <> None /\
    In (sqlite3_finalize (Some 7%N)) (calls_since w w').
Proof.
  intros w. do 2 eexists. split; [reflexivity|]. split; [reflexivity|].
  split; [discriminate|].
  refine (proj2 (proj2 (proj2 (prepare_returns_one text_row (-1) 0%nat "SELECT ?"
            [V_Valuer_err "no value"] w _ _ eq_refl))) eq_refl eq_refl _ _);
    discriminate.
Defined.

(** X17, at a concrete input: a row with an Integer column. *)
Lemma rows_Next_values_witness :
  let w := world_of open_conn ∅ in
  let d := {| stmt_s := a_stmt false; rowsRef := true; pendingClose := false |} in
  let w' := after (sqlite3_column_int64 (Some 7%N) 0)
              (after (sqlite3_column_type (Some 7%N) 0)
                 (after (sqlite3_step (Some 7%N)) w)) in
  rows_Next two_columns 1 d w = DRet _ (Some [int64_value 300], None) d w' /\
  forall v t, In v [int64_value 300] -> v <> string_value t.
Proof.
  intros w d w'.
  assert (H : rows_Next two_columns 1 d w = DRet _ (Some [int64_value 300], None) d w')
    by reflexivity.
  split; [exact H|].
  pose proof (rows_Next_values two_columns 1 d w (Some [int64_value 300]) None d w' H) as H1.
  cbv zeta in H1. exact (proj2 (proj2 (proj2 (proj2 H1)))).
Defined.

(** X18, at a concrete input: a query, then a second one and a close while
    its rows are open. *)
Lemma rows_keep_statement_open_witness :
  let w := world_of open_conn ∅ in
  let d := {| stmt_s := a_stmt false; rowsRef := false; pendingClose := false |} in
  let d1 := set_rowsRef true d in
  let w1 := after (sqlite3_bind_int64 (Some 7%N) 1 5) w in
  stmt_Query text_row (-1) [V_int64 5] d w = DRet _ None d1 w1 /\
  stmt_Query text_row (-1) [V_nil] d1 w1
    = DRet _ (Some (errors_New "Previously returned Rows still not closed")) d1 w1 /\
  stmt_Close text_row d1 w1 = DRet _ None (set_pendingClose true d1) w1.
Proof.
  intros w d d1 w1.
  assert (H : stmt_Query text_row (-1) [V_int64 5] d w = DRet _ None d1 w1) by reflexivity.
  split; [exact H|].
  destruct (rows_keep_statement_open text_row (-1) [V_int64 5] d w d1 w1 H)
    as [_ [_ [Hq [Hc _]]]].
  split; [apply Hq | apply Hc].
Defined.
